(** * HomotopyClassPlanner: a shallow embedding of
      [src/homotopy_class_planner.cpp] and its verified properties.

    The planner object is a record of its members, and every member function
    is a function from the planner before the call to the result and the
    planner after it.  Loops are recursive functions over the container they
    walk; the recursion of the path search, the sampling loop and the
    duplicate removal, which have no bound of their own, take a fuel
    argument, and the search and the duplicate removal are shown to end
    within the fuel that their graph or vector needs.

    Numbers.  The C++ types [double] and [long double] are modelled by the
    rationals [Q] with exact arithmetic.  Rounding, infinities and NaN are
    written out where a result depends on them: the division by a distance
    that may be zero in [createGraph] ([div_ltb]), and the conversion of
    the signature differences to [double] in [addNewHSignatureIfNew]
    ([addNewHSignatureIfNew_narrowed], [binary64]).  [int] and
    [unsigned int] are integers [Z] with their conversions written out.

    Collaborators.  Obstacles and trajectory optimizers are declared in other
    files of the package; they appear here as records of the observations the
    planner makes of them.  What the planner calls in them, in <cmath>, in
    the random generator and in the ROS runtime is collected in the class
    [World], and every property is proved for every world.  The pointer
    [obstacles_] is taken to be bound: the re-analysis pass and the roadmap
    builder dereference it without a test.  The pool is an index-stable
    container; [cycle_determined] names the calls that depend neither on a
    bound pointer being assumed nor on the container. *)

From Stdlib Require Import List Bool Arith ZArith QArith Qabs Qround Lia Lqa.
Import ListNotations.

Set Implicit Arguments.

(* ================================================================== *)
(** ** Numbers *)

Module Double.

Definition double : Type := Q.

(** [DBL_MAX] of <cfloat>: the largest finite binary64 value,
    (2 - 2^-52) * 2^1023. *)
Definition DBL_MAX : double := inject_Z (2 ^ 1024 - 2 ^ 971).

(** [a < b] and [a <= b] as the C++ comparisons, with a boolean result. *)
Definition ltb (a b : double) : bool := negb (Qle_bool b a).
Definition leb (a b : double) : bool := Qle_bool a b.

(** [a != b] *)
Definition neqb (a b : double) : bool := negb (Qeq_bool a b).

(** [std::abs] *)
Definition abs (a : double) : double := Qabs a.

(** [a / b < c] for a divisor [b] that is a norm and may be zero, and a
    finite [c].  The division of IEEE 754 is defined at zero: 0/0 is NaN,
    which no comparison satisfies, and the quotient of another number by +0
    is the infinity of its sign, so that only a negative [a] gives a
    quotient below [c]. *)
Definition div_ltb (a b c : double) : bool :=
  if Qeq_bool b 0 then ltb a 0 else ltb (a / b) c.

End Double.

Import Double.

(** The conversions of C++ between [int] and [unsigned int] (32 bits). *)
Definition to_unsigned (z : Z) : Z := (z mod 2 ^ 32)%Z.
Definition to_int (z : Z) : Z := ((z + 2 ^ 31) mod 2 ^ 32 - 2 ^ 31)%Z.

(** Sum of a vector of cost components ([Eigen]'s [.sum()]). *)
Definition sum (v : list double) : double := fold_right Qplus 0 v.

(* ================================================================== *)
(** ** Geometry and collaborators *)

(** [Eigen::Vector2d] *)
Record Vector2d : Type := mkVector2d { vx : double; vy : double }.

(** [PoseSE2]: position and heading *)
Record PoseSE2 : Type := mkPoseSE2 { position : Vector2d; theta : double }.

(** [std::complex<long double>] *)
Record cplx : Type := mkCplx { real : double; imag : double }.

Definition Vector2d_Zero : Vector2d := mkVector2d 0 0.

(** The obstacle interface ([Obstacle] is an abstract class; the planner only
    calls these four virtual methods). *)
Record Obstacle : Type := mkObstacle {
  getCentroid : Vector2d;
  getMinimumDistance : Vector2d -> double;
  checkLineIntersection : Vector2d -> Vector2d -> double -> bool;
  checkCollision : Vector2d -> double -> bool
}.

(** What the planner observes of a [TebOptimalPlanner] and of the
    [TimedElasticBand] it owns. *)
Record TebOptimalPlanner : Type := mkTeb {
  poses : list PoseSE2;                          (* teb().poses() *)
  getCurrentCost : list double;                  (* cost components *)
  detectDetoursBackwards : double -> bool;       (* teb().detectDetoursBackwards(threshold) *)
  findClosestTrajectoryPose : Vector2d -> nat;   (* teb().findClosestTrajectoryPose(point) *)
  teb_getVelocityCommand : Vector2d              (* getVelocityCommand() *)
}.

(** [teb().sizePoses()] *)
Definition sizePoses (t : TebOptimalPlanner) : nat := length (poses t).

(** [TebOptimalPlannerPtr]: a shared pointer; [addr] is the identity of the
    object pointed to, [obj] its current contents. *)
Record TebOptimalPlannerPtr : Type := mkPtr { addr : nat; obj : TebOptimalPlanner }.

(** The fields of [TebConfig] that the planner reads. *)
Record TebConfig : Type := mkCfg {
  xy_goal_tolerance : double;          (* goal_tolerance.xy_goal_tolerance *)
  min_obstacle_dist : double;          (* obstacles.min_obstacle_dist *)
  no_inner_iterations : Z;             (* optim.no_inner_iterations *)
  no_outer_iterations : Z;             (* optim.no_outer_iterations *)
  simple_exploration : bool;           (* hcp.simple_exploration *)
  max_number_classes : Z;              (* hcp.max_number_classes, an int *)
  obstacle_heading_threshold : double; (* hcp.obstacle_heading_threshold *)
  h_signature_prescaler : double;      (* hcp.h_signature_prescaler *)
  h_signature_threshold : double;      (* hcp.h_signature_threshold *)
  roadmap_graph_no_samples : Z;        (* hcp.roadmap_graph_no_samples, an int *)
  roadmap_graph_area_width : double;   (* hcp.roadmap_graph_area_width *)
  enable_multithreading : bool         (* hcp.enable_multithreading *)
}.

(** [HcGraph]: a directed graph whose vertex descriptors are the indices
    0, 1, ... in insertion order; every vertex carries a position, and the
    edges are kept in insertion order. *)
Record HcGraph : Type := mkGraph {
  vertices : list Vector2d;
  edges : list (nat * nat)
}.

Definition empty_graph : HcGraph := mkGraph [] [].

(* ================================================================== *)
(** ** The planner object *)

(** [obstacles_] is the obstacle container that the member pointer of this
    name points to.  The pointer is NULL after the default constructor and
    after [initialize] with a NULL argument; the record has no such state.
    [createGraph] tests the pointer before its obstacle loops, which a NULL
    pointer and an empty container pass alike; the other obstacle loops
    dereference it without a test, so that the functions below describe
    planners whose obstacle pointer is bound. *)
Record HomotopyClassPlanner : Type := mkPlanner {
  cfg_ : TebConfig;
  obstacles_ : list Obstacle;
  initialized_ : bool;
  graph_ : HcGraph;
  h_signatures_ : list cplx;
  tebs_ : list TebOptimalPlannerPtr;
  best_teb_ : option TebOptimalPlannerPtr;
  rnd_generator_ : nat;   (* number of values drawn so far *)
  heap_ : nat             (* next fresh object identity *)
}.

Definition set_graph (g : HcGraph) (p : HomotopyClassPlanner) :=
  mkPlanner (cfg_ p) (obstacles_ p) (initialized_ p) g (h_signatures_ p)
            (tebs_ p) (best_teb_ p) (rnd_generator_ p) (heap_ p).

Definition set_h_signatures (hs : list cplx) (p : HomotopyClassPlanner) :=
  mkPlanner (cfg_ p) (obstacles_ p) (initialized_ p) (graph_ p) hs
            (tebs_ p) (best_teb_ p) (rnd_generator_ p) (heap_ p).

Definition set_tebs (ts : list TebOptimalPlannerPtr) (p : HomotopyClassPlanner) :=
  mkPlanner (cfg_ p) (obstacles_ p) (initialized_ p) (graph_ p) (h_signatures_ p)
            ts (best_teb_ p) (rnd_generator_ p) (heap_ p).

Definition set_best_teb (b : option TebOptimalPlannerPtr) (p : HomotopyClassPlanner) :=
  mkPlanner (cfg_ p) (obstacles_ p) (initialized_ p) (graph_ p) (h_signatures_ p)
            (tebs_ p) b (rnd_generator_ p) (heap_ p).

Definition set_rnd_generator (n : nat) (p : HomotopyClassPlanner) :=
  mkPlanner (cfg_ p) (obstacles_ p) (initialized_ p) (graph_ p) (h_signatures_ p)
            (tebs_ p) (best_teb_ p) n (heap_ p).

Definition set_heap (n : nat) (p : HomotopyClassPlanner) :=
  mkPlanner (cfg_ p) (obstacles_ p) (initialized_ p) (graph_ p) (h_signatures_ p)
            (tebs_ p) (best_teb_ p) (rnd_generator_ p) n.

(** [initialize(cfg, obstacles, visual)] on a freshly constructed planner. *)
Definition initialize (cfg : TebConfig) (obstacles : list Obstacle) : HomotopyClassPlanner :=
  mkPlanner cfg obstacles true empty_graph [] [] None 0 0.

(* ================================================================== *)
(** ** The class registry: [addNewHSignatureIfNew] *)

(** The test in the loop body of [addNewHSignatureIfNew]:
    [diff_real <= threshold && diff_imag <= threshold]. *)
Definition similar (threshold : double) (it H : cplx) : bool :=
  let diff_real := abs (real it - real H) in
  let diff_imag := abs (imag it - imag H) in
  leb diff_real threshold && leb diff_imag threshold.

(** The scan over [h_signatures_]: [true] as soon as a similar entry is met. *)
Fixpoint known (threshold : double) (hs : list cplx) (H : cplx) : bool :=
  match hs with
  | [] => false
  | it :: rest => if similar threshold it H then true else known threshold rest H
  end.

Definition addNewHSignatureIfNew (H : cplx) (threshold : double)
    (p : HomotopyClassPlanner) : bool * HomotopyClassPlanner :=
  if known threshold (h_signatures_ p) H
  then (false, p)
  else (true, set_h_signatures (h_signatures_ p ++ [H]) p).

(* ================================================================== *)
(** ** Selection, detour cleanup, command and feasibility *)

(** The loop of [selectBestTeb]: [min_cost] and [best_teb_] are the running
    minimum and the candidate that reached it. *)
Fixpoint selectBestTeb_loop (tebs : list TebOptimalPlannerPtr) (min_cost : double)
    (best : option TebOptimalPlannerPtr) : option TebOptimalPlannerPtr :=
  match tebs with
  | [] => best
  | it_teb :: rest =>
      let teb_cost := sum (getCurrentCost (obj it_teb)) in
      if ltb teb_cost min_cost
      then selectBestTeb_loop rest teb_cost (Some it_teb)
      else selectBestTeb_loop rest min_cost best
  end.

Definition selectBestTeb (p : HomotopyClassPlanner)
    : option TebOptimalPlannerPtr * HomotopyClassPlanner :=
  let best := selectBestTeb_loop (tebs_ p) DBL_MAX None in
  (best, set_best_teb best p).

(** The loop of [deleteTebDetours]: [kept] are the candidates before the
    iterator, [rest] those from the iterator on, so that [tebs_.size()] is
    [length kept + length rest]. *)
Fixpoint deleteTebDetours_loop (threshold : double)
    (kept rest : list TebOptimalPlannerPtr) : list TebOptimalPlannerPtr :=
  match rest with
  | [] => kept
  | it_teb :: rest' =>
      if (1 <? length kept + length rest)%nat
         && detectDetoursBackwards (obj it_teb) threshold
      then deleteTebDetours_loop threshold kept rest'
      else deleteTebDetours_loop threshold (kept ++ [it_teb]) rest'
  end.

Definition deleteTebDetours (threshold : double) (p : HomotopyClassPlanner)
    : HomotopyClassPlanner :=
  set_tebs (deleteTebDetours_loop threshold [] (tebs_ p)) p.

(** Modelled from the spec: the accessor [bestTeb()] is defined in the class
    header, which is not among the sources.  The spec's data model has the
    best candidate as a reference "recomputed every cycle, possibly null";
    the accessor returns the member [best_teb_]. *)
Definition bestTeb (p : HomotopyClassPlanner) : option TebOptimalPlannerPtr :=
  best_teb_ p.

Definition getVelocityCommand (p : HomotopyClassPlanner) : Vector2d :=
  match bestTeb p with
  | None => Vector2d_Zero
  | Some best_teb => teb_getVelocityCommand (obj best_teb)
  end.

(** [base_local_planner::CostmapModel::footprintCost]: x, y, theta, footprint,
    inscribed and circumscribed radius to a signed cost. *)
Definition CostmapModel : Type :=
  double -> double -> double -> list Vector2d -> double -> double -> double.

(** The loop of [isTrajectoryFeasible].  [i] is the unsigned counter, [bound]
    the look-ahead index converted to unsigned, and [from_i] the poses from
    [Pose(i)] on (the counter cannot wrap before a trajectory of fewer than
    2^32 poses is exhausted).  The result lists the poses handed to the
    costmap, in order, and the returned value; the value is [None] when
    [Pose(i)] is asked for beyond the end of the trajectory. *)
Fixpoint isTrajectoryFeasible_loop (costmap_model : CostmapModel)
    (footprint_spec : list Vector2d) (inscribed_radius circumscribed_radius : double)
    (bound i : Z) (from_i : list PoseSE2) : list PoseSE2 * option bool :=
  if (i <=? bound)%Z then
    match from_i with
    | [] => ([], None)
    | pose :: rest =>
        if ltb (costmap_model (vx (position pose)) (vy (position pose)) (theta pose)
                              footprint_spec inscribed_radius circumscribed_radius) 0
        then ([pose], Some false)
        else
          let (evaluated, r) :=
            isTrajectoryFeasible_loop costmap_model footprint_spec inscribed_radius
              circumscribed_radius bound (to_unsigned (i + 1)) rest in
          (pose :: evaluated, r)
    end
  else ([], Some true).

Definition isTrajectoryFeasible (costmap_model : CostmapModel)
    (footprint_spec : list Vector2d) (inscribed_radius circumscribed_radius : double)
    (look_ahead_idx : Z) (p : HomotopyClassPlanner) : list PoseSE2 * option bool :=
  match best_teb_ p with
  | None => ([], Some false)
  | Some best =>
      let size := to_int (Z.of_nat (sizePoses (obj best))) in
      let look_ahead_idx :=
        if (look_ahead_idx <? 0)%Z || (size <=? look_ahead_idx)%Z
        then (size - 1)%Z else look_ahead_idx in
      isTrajectoryFeasible_loop costmap_model footprint_spec inscribed_radius
        circumscribed_radius (to_unsigned look_ahead_idx) 0 (poses (obj best))
  end.

(* ================================================================== *)
(** ** What the planner calls but does not define *)

(** The functions of other translation units, of the C++ library and of the
    environment that the planner calls.  Every result below holds for every
    such world. *)
Class World : Type := mkWorld {
  (** <cmath> *)
  sqrt : double -> double;
  cos : double -> double;
  sin : double -> double;
  atan2 : double -> double -> double;
  (** [calculateHSignature(first, last, fun_cplx_point, obstacles, prescaler)],
      a member template of the class header: the points of the path as complex
      numbers, the obstacles and the prescaler to the H-signature. *)
  calculateHSignature : list cplx -> list Obstacle -> double -> cplx;
  (** [new TebOptimalPlanner(...)] followed by [teb().initTEBtoGoal(...)] on
      the way points of a path with start and goal orientation. *)
  initTEBtoGoal : list Vector2d -> double -> double -> TebOptimalPlanner;
  (** [teb().updateAndPruneTEB(start, goal)] *)
  updateAndPruneTEB : option PoseSE2 -> option PoseSE2 -> TebOptimalPlanner -> TebOptimalPlanner;
  (** [setVelocityStart(vel)] *)
  setVelocityStart : Vector2d -> TebOptimalPlanner -> TebOptimalPlanner;
  (** [optimizeTEB(iter_innerloop, iter_outerloop, compute_cost)] *)
  optimizeTEB : Z -> Z -> bool -> TebOptimalPlanner -> TebOptimalPlanner;
  (** The [k]-th number that [rnd_generator_] yields, scaled to [0,1). *)
  uniform_01 : nat -> double;
  (** [ros::ok()], asked after [k] numbers have been drawn. *)
  ros_ok : nat -> bool
}.

(* ================================================================== *)
(** ** Vectors and the graph *)

Definition vadd (a b : Vector2d) : Vector2d := mkVector2d (vx a + vx b) (vy a + vy b).
Definition vsub (a b : Vector2d) : Vector2d := mkVector2d (vx a - vx b) (vy a - vy b).
Definition vscale (k : double) (a : Vector2d) : Vector2d := mkVector2d (k * vx a) (k * vy a).
Definition dot (a b : Vector2d) : double := vx a * vx b + vy a * vy b.

(** [boost::add_vertex] followed by the assignment of the position: the new
    descriptor and the graph. *)
Definition add_vertex (pos : Vector2d) (g : HcGraph) : nat * HcGraph :=
  (length (vertices g), mkGraph (vertices g ++ [pos]) (edges g)).

(** [boost::add_edge(u, v, g)] *)
Definition add_edge (u v : nat) (g : HcGraph) : HcGraph :=
  mkGraph (vertices g) (edges g ++ [(u, v)]).

(** [boost::adjacent_vertices(u, g)]: the targets of the out-edges of [u]. *)
Definition adjacent_vertices (u : nat) (g : HcGraph) : list nat :=
  map snd (filter (fun e => fst e =? u)%nat (edges g)).

(** [graph[v].pos] *)
Definition pos (g : HcGraph) (v : nat) : Vector2d := nth v (vertices g) Vector2d_Zero.

(** [getCplxFromHcGraph], [getVector2dFromHcGraph], [getCplxFromVertexPosePtr] *)
Definition getCplxFromHcGraph (g : HcGraph) (v : nat) : cplx :=
  mkCplx (vx (pos g v)) (vy (pos g v)).
Definition getVector2dFromHcGraph (g : HcGraph) (v : nat) : Vector2d := pos g v.
Definition getCplxFromVertexPosePtr (pose : PoseSE2) : cplx :=
  mkCplx (vx (position pose)) (vy (position pose)).

(** [std::find(visited.begin(), visited.end(), v) != visited.end()] *)
Definition is_visited (visited : list nat) (v : nat) : bool :=
  existsb (Nat.eqb v) visited.

(** Modelled from the spec: [clearGraph()] is defined in the class header,
    which is not among the sources; the spec has the graph "rebuilt from
    scratch every cycle", with no state kept across cycles. *)
Definition clearGraph (p : HomotopyClassPlanner) : HomotopyClassPlanner :=
  set_graph empty_graph p.

(** [tebs_.erase(it)] for an iterator that was taken earlier.
    Modelled from the spec: the container type [TebOptPlannerContainer] is
    declared in the class header, which is not among the sources; following
    the spec's design notes it is index-stable, so that a stored iterator
    still designates its candidate after other candidates were erased.  The
    candidate is found by the identity of the object it points to.  In a
    container that shifts its elements on erasure (a vector) an iterator
    stored before an erasure designates another element afterwards, or
    none: what is stated of the second and third loop of
    [renewAndAnalyzeOldTebs] below either holds whichever candidate an
    erasure removes, or is stated for runs in which these loops erase
    nothing ([distinct_classes]). *)
Fixpoint erase (it : TebOptimalPlannerPtr) (tebs : list TebOptimalPlannerPtr)
    : list TebOptimalPlannerPtr :=
  match tebs with
  | [] => []
  | t :: rest => if (addr t =? addr it)%nat then rest else t :: erase it rest
  end.

(** [v.erase(v.begin() + k)] on a vector *)
Fixpoint erase_at {A : Type} (k : nat) (v : list A) : list A :=
  match v, k with
  | [], _ => []
  | _ :: rest, O => rest
  | x :: rest, S k' => x :: erase_at k' rest
  end.

(** [std::find_if]: the position of the first element that satisfies [f]. *)
Fixpoint find_if {A : Type} (f : A -> bool) (v : list A) : option nat :=
  match v with
  | [] => None
  | x :: rest => if f x then Some O else option_map S (find_if f rest)
  end.

(** How a call of [plan] ends. *)
Inductive outcome (A : Type) : Type :=
| Returned (a : A)
| AssertionFailed
| OutOfFuel.

Arguments AssertionFailed {A}.
Arguments OutOfFuel {A}.

Section Planner.

Context {W : World}.

(** [Eigen]'s [norm()] and [normalize()] *)
Definition norm (a : Vector2d) : double := sqrt (vx a * vx a + vy a * vy a).
Definition normalize (a : Vector2d) : Vector2d :=
  mkVector2d (vx a / norm a) (vy a / norm a).

(* ------------------------------------------------------------------ *)
(** *** [renewAndAnalyzeOldTebs] *)

(** [teb().Pose(i)] *)
Definition Pose (t : TebOptimalPlanner) (i : nat) : PoseSE2 :=
  nth i (poses t) (mkPoseSE2 Vector2d_Zero 0).

(** The inner loop over the obstacles: [flag] is set when the trajectory
    pose closest to the centroid of some obstacle is nearer than 0.03 to that
    obstacle. *)
Definition too_close (obstacles : list Obstacle) (t : TebOptimalPlanner) : bool :=
  existsb (fun obst =>
             let dist := getMinimumDistance obst
                           (position (Pose t (findClosestTrajectoryPose t (getCentroid obst)))) in
             ltb dist (3 # 100))
          obstacles.

(** [teb_candidates]: a vector of pairs of an iterator into [tebs_] and an
    H-signature. *)
Definition TebCandidateType : Type := list (TebOptimalPlannerPtr * cplx).

(** The first loop: [kept] are the candidates before the iterator, [rest]
    those from the iterator on. *)
Fixpoint analyze_loop (delete_detours : bool) (cfg : TebConfig) (obstacles : list Obstacle)
    (kept : list TebOptimalPlannerPtr) (teb_candidates : TebCandidateType)
    (rest : list TebOptimalPlannerPtr) : list TebOptimalPlannerPtr * TebCandidateType :=
  match rest with
  | [] => (kept, teb_candidates)
  | it_teb :: rest' =>
      if delete_detours && (1 <? length kept + length rest)%nat
         && detectDetoursBackwards (obj it_teb) (cos (obstacle_heading_threshold cfg))
      then analyze_loop delete_detours cfg obstacles kept teb_candidates rest'
      else if too_close obstacles (obj it_teb)
      then analyze_loop delete_detours cfg obstacles kept teb_candidates rest'
      else
        let H := calculateHSignature (map getCplxFromVertexPosePtr (poses (obj it_teb)))
                   obstacles (h_signature_prescaler cfg) in
        analyze_loop delete_detours cfg obstacles (kept ++ [it_teb])
          (teb_candidates ++ [(it_teb, H)]) rest'
  end.

(** [compareH] *)
Definition compareH (i : TebOptimalPlannerPtr * cplx) (j : cplx) : bool :=
  ltb (abs (real (snd i) - real j)) (1 # 10) && ltb (abs (imag (snd i) - imag j)) (1 # 10).

(** The second loop, over the positions of [teb_candidates]: [cand_i] is a
    position in the vector, and stays the same position when an element
    before it is erased.  [std::find_if] yields a position of the vector, so
    that the element at [cand_j] exists.  [None] when [fuel] iterations do
    not reach the end of the vector. *)
Fixpoint dedup_loop (fuel : nat) (cand_i : nat) (tebs : list TebOptimalPlannerPtr)
    (teb_candidates : TebCandidateType)
    : option (list TebOptimalPlannerPtr * TebCandidateType) :=
  match fuel with
  | O => None
  | S fuel' =>
      match nth_error teb_candidates cand_i with
      | None => Some (tebs, teb_candidates)
      | Some ci =>
          match find_if (fun c => compareH c (snd ci)) teb_candidates with
          | None => dedup_loop fuel' (S cand_i) tebs teb_candidates
          | Some cand_j =>
              if (cand_j =? cand_i)%nat
              then dedup_loop fuel' (S cand_i) tebs teb_candidates
              else
                match nth_error teb_candidates cand_j with
                | None => dedup_loop fuel' (S cand_i) tebs teb_candidates
                | Some cj =>
                    if ltb (sum (getCurrentCost (obj (fst ci))))
                           (sum (getCurrentCost (obj (fst cj))))
                    then dedup_loop fuel' cand_i (erase (fst cj) tebs)
                           (erase_at cand_j teb_candidates)
                    else dedup_loop fuel' cand_i (erase (fst ci) tebs)
                           (erase_at cand_i teb_candidates)
                end
          end
      end
  end.

(** The third loop: the surviving signatures are registered again. *)
Fixpoint register_loop (teb_candidates : TebCandidateType) (p : HomotopyClassPlanner)
    : HomotopyClassPlanner :=
  match teb_candidates with
  | [] => p
  | cand_i :: rest =>
      let (new_flag, p1) :=
        addNewHSignatureIfNew (snd cand_i) (h_signature_threshold (cfg_ p)) p in
      if new_flag then register_loop rest p1
      else register_loop rest (set_tebs (erase (fst cand_i) (tebs_ p1)) p1)
  end.

(** [renewAndAnalyzeOldTebs]; every round of the second loop moves [cand_i]
    forward or erases a candidate, so that twice the number of candidates,
    and one more, is fuel enough for it. *)
Definition renewAndAnalyzeOldTebs (delete_detours : bool) (p : HomotopyClassPlanner)
    : HomotopyClassPlanner :=
  let p := set_h_signatures [] p in
  let (tebs1, teb_candidates) :=
    analyze_loop delete_detours (cfg_ p) (obstacles_ p) [] [] (tebs_ p) in
  let (tebs2, teb_candidates) :=
    match dedup_loop (2 * length teb_candidates + 1) 0 tebs1 teb_candidates with
    | Some r => r
    | None => (tebs1, teb_candidates)
    end in
  register_loop teb_candidates (set_tebs tebs2 p).

(* ------------------------------------------------------------------ *)
(** *** [DepthFirst] *)

(** Modelled from the spec: [addAndInitNewTeb] is a member template of the
    class header, which is not among the sources.  After the spec, "for each
    newly accepted class, instantiate a new candidate initialized along the
    discovered waypoints with given start/goal orientation": one new
    optimizer is allocated and appended to the pool. *)
Definition addAndInitNewTeb (path : list Vector2d) (start_orientation goal_orientation : double)
    (p : HomotopyClassPlanner) : HomotopyClassPlanner :=
  let candidate := mkPtr (heap_ p) (initTEBtoGoal path start_orientation goal_orientation) in
  set_heap (S (heap_ p)) (set_tebs (tebs_ p ++ [candidate]) p).

(** The first loop of [DepthFirst] over the adjacent vertices [its]: the
    first one that is not visited and is the goal closes a path, after which
    the loop is left. *)
Fixpoint examine_adjacent (its visited : list nat) (goal : nat)
    (start_orientation goal_orientation : double) (p : HomotopyClassPlanner)
    : HomotopyClassPlanner :=
  match its with
  | [] => p
  | it :: rest =>
      if is_visited visited it
      then examine_adjacent rest visited goal start_orientation goal_orientation p
      else if (it =? goal)%nat
      then
        let visited := visited ++ [it] in
        let H := calculateHSignature (map (getCplxFromHcGraph (graph_ p)) visited)
                   (obstacles_ p) (h_signature_prescaler (cfg_ p)) in
        let (is_new, p1) := addNewHSignatureIfNew H (1 # 10) p in
        if is_new
        then addAndInitNewTeb (map (getVector2dFromHcGraph (graph_ p)) visited)
               start_orientation goal_orientation p1
        else p1
      else examine_adjacent rest visited goal start_orientation goal_orientation p
  end.

(** The second loop of [DepthFirst] over the adjacent vertices [its]:
    [recursion visited p] is the recursive call of [DepthFirst] on the
    extended path. *)
Fixpoint recurse_adjacent
    (recursion : list nat -> HomotopyClassPlanner -> option HomotopyClassPlanner)
    (its visited : list nat) (goal : nat) (p : HomotopyClassPlanner)
    : option HomotopyClassPlanner :=
  match its with
  | [] => Some p
  | it :: rest =>
      if is_visited visited it || (it =? goal)%nat
      then recurse_adjacent recursion rest visited goal p
      else
        match recursion (visited ++ [it]) p with
        | None => None
        | Some p' => recurse_adjacent recursion rest visited goal p'
        end
  end.

(** [DepthFirst]; [fuel] bounds the depth of the recursion, and the result is
    [None] when it is used up. *)
Fixpoint DepthFirst (fuel : nat) (g : HcGraph) (visited : list nat) (goal : nat)
    (start_orientation goal_orientation : double) (p : HomotopyClassPlanner)
    : option HomotopyClassPlanner :=
  match fuel with
  | O => None
  | S fuel' =>
      if (max_number_classes (cfg_ p) <=? to_int (Z.of_nat (length (tebs_ p))))%Z
      then Some p
      else
        let back := last visited O in
        let p1 := examine_adjacent (adjacent_vertices back g) visited goal
                    start_orientation goal_orientation p in
        recurse_adjacent
          (fun visited p =>
             DepthFirst fuel' g visited goal start_orientation goal_orientation p)
          (adjacent_vertices back g) visited goal p1
  end.

(* ------------------------------------------------------------------ *)
(** *** [createGraph] and [createProbRoadmapGraph] *)

(** The collision check of an edge: some obstacle meets the segment. *)
Definition collision (obstacles : list Obstacle) (a b : Vector2d) (min_dist : double) : bool :=
  existsb (fun obst => checkLineIntersection obst a b min_dist) obstacles.

(** The loop of [createGraph] over the obstacles: the graph, [min_dist] and
    [nearest_obstacle]. *)
Fixpoint insert_keypoints (start : PoseSE2) (diff normal : Vector2d)
    (limit_obstacle_heading : bool) (obstacles : list Obstacle)
    (g : HcGraph) (min_dist : double) (nearest_obstacle : nat * nat)
    : HcGraph * double * (nat * nat) :=
  match obstacles with
  | [] => (g, min_dist, nearest_obstacle)
  | it_obst :: rest =>
      let start2obst := vsub (getCentroid it_obst) (position start) in
      let dist := norm start2obst in
      if div_ltb (dot start2obst diff) dist (1 # 10)
      then insert_keypoints start diff normal limit_obstacle_heading rest
             g min_dist nearest_obstacle
      else
        let (u, g1) := add_vertex (vadd (getCentroid it_obst) normal) g in
        let (v, g2) := add_vertex (vsub (getCentroid it_obst) normal) g1 in
        if limit_obstacle_heading && ltb dist min_dist
        then insert_keypoints start diff normal limit_obstacle_heading rest g2 dist (u, v)
        else insert_keypoints start diff normal limit_obstacle_heading rest
               g2 min_dist nearest_obstacle
  end.

(** The two nested loops that insert the edges: [it_i] over all vertices but
    the last (the goal), [it_j] over all vertices; [admissible i j] is the
    body's decision to reach [boost::add_edge]. *)
Definition insert_edges (admissible : nat -> nat -> bool) (g : HcGraph) : HcGraph :=
  let n := length (vertices g) in
  fold_left
    (fun g it_i =>
       fold_left (fun g it_j => if admissible it_i it_j then add_edge it_i it_j g else g)
                 (seq 0 n) g)
    (seq 0 (n - 1)) g.

(** The body of the edge loops of [createGraph]. *)
Definition createGraph_edge (cfg : TebConfig) (obstacles : list Obstacle)
    (start : PoseSE2) (diff : Vector2d) (dist_to_obst : double)
    (limit_obstacle_heading : bool) (start_vtx : nat) (min_dist : double)
    (nearest_obstacle : nat * nat) (g : HcGraph) (it_i it_j : nat) : bool :=
  if (it_i =? it_j)%nat then false
  else
    let distij := normalize (vsub (pos g it_j) (pos g it_i)) in
    if leb (dot distij diff) (cos (obstacle_heading_threshold cfg)) then false
    else if limit_obstacle_heading && (it_i =? start_vtx)%nat && neqb min_dist DBL_MAX
            && ((it_j =? fst nearest_obstacle)%nat || (it_j =? snd nearest_obstacle)%nat)
            && (let keypoint_dist := normalize (vsub (pos g it_j) (position start)) in
                let start_orient_vec := mkVector2d (cos (theta start)) (sin (theta start)) in
                ltb (dot start_orient_vec keypoint_dist) (cos (obstacle_heading_threshold cfg)))
    then false
    else negb (collision obstacles (pos g it_i) (pos g it_j) ((1 # 2) * dist_to_obst)).

Definition createGraph (fuel : nat) (start goal : PoseSE2) (dist_to_obst : double)
    (limit_obstacle_heading : bool) (p : HomotopyClassPlanner)
    : option HomotopyClassPlanner :=
  let p := clearGraph p in
  let diff := vsub (position goal) (position start) in
  if ltb (norm diff) (xy_goal_tolerance (cfg_ p)) then Some p
  else
    let normal := vscale dist_to_obst (normalize (mkVector2d (- vy diff) (vx diff))) in
    let (start_vtx, g) := add_vertex (position start) (graph_ p) in
    let diff := normalize diff in
    let '(g, min_dist, nearest_obstacle) :=
      insert_keypoints start diff normal limit_obstacle_heading (obstacles_ p)
        g DBL_MAX (O, O) in
    let (goal_vtx, g) := add_vertex (position goal) g in
    let g := insert_edges
               (createGraph_edge (cfg_ p) (obstacles_ p) start diff dist_to_obst
                  limit_obstacle_heading start_vtx min_dist nearest_obstacle g) g in
    DepthFirst fuel g [start_vtx] goal_vtx (theta start) (theta goal) (set_graph g p).

(** [boost::random::uniform_real_distribution<double>(a, b)] applied to the
    generator, whose next number scaled to [0,1) is [u]. *)
Definition uniform_real (a b u : double) : double := a + u * (b - a).

(** [Eigen::Rotation2D<double>(phi) * v] *)
Definition rotate (phi : double) (v : Vector2d) : Vector2d :=
  mkVector2d (cos phi * vx v - sin phi * vy v) (sin phi * vx v + cos phi * vy v).

(** The do-while loop that samples one vertex: it is left with a sample that
    collides with no obstacle, or when [ros::ok()] fails.  [rnd] counts the
    numbers drawn; the result is the sample and the new count, or [None] when
    [fuel] rounds do not leave the loop. *)
Fixpoint sample_loop (fuel : nat) (obstacles : list Obstacle) (dist_to_obst : double)
    (area_origin : Vector2d) (phi start_goal_dist area_width : double) (rnd : nat)
    : option (Vector2d * nat) :=
  match fuel with
  | O => None
  | S fuel' =>
      let x := uniform_real 0 start_goal_dist (uniform_01 rnd) in
      let y := uniform_real 0 area_width (uniform_01 (S rnd)) in
      let sample := vadd area_origin (rotate phi (mkVector2d x y)) in
      let coll_free := negb (existsb (fun obst => checkCollision obst sample dist_to_obst)
                                     obstacles) in
      if negb coll_free && ros_ok (S (S rnd))
      then sample_loop fuel' obstacles dist_to_obst area_origin phi start_goal_dist
             area_width (S (S rnd))
      else Some (sample, S (S rnd))
  end.

(** The for loop over the samples; [count] rounds remain. *)
Fixpoint sample_vertices (fuel count : nat) (obstacles : list Obstacle) (dist_to_obst : double)
    (area_origin : Vector2d) (phi start_goal_dist area_width : double)
    (g : HcGraph) (rnd : nat) : option (HcGraph * nat) :=
  match count with
  | O => Some (g, rnd)
  | S count' =>
      match sample_loop fuel obstacles dist_to_obst area_origin phi start_goal_dist
              area_width rnd with
      | None => None
      | Some (sample, rnd') =>
          sample_vertices fuel count' obstacles dist_to_obst area_origin phi
            start_goal_dist area_width (snd (add_vertex sample g)) rnd'
      end
  end.

(** The body of the edge loops of [createProbRoadmapGraph]. *)
Definition createProbRoadmapGraph_edge (cfg : TebConfig) (obstacles : list Obstacle)
    (diff : Vector2d) (dist_to_obst : double) (g : HcGraph) (it_i it_j : nat) : bool :=
  if (it_i =? it_j)%nat then false
  else
    let distij := normalize (vsub (pos g it_j) (pos g it_i)) in
    if leb (dot distij diff) (cos (obstacle_heading_threshold cfg)) then false
    else negb (collision obstacles (pos g it_i) (pos g it_j) ((1 # 2) * dist_to_obst)).

Definition createProbRoadmapGraph (fuel : nat) (start goal : PoseSE2) (dist_to_obst : double)
    (limit_obstacle_heading : bool) (p : HomotopyClassPlanner)
    : option HomotopyClassPlanner :=
  let p := clearGraph p in
  let diff := vsub (position goal) (position start) in
  let start_goal_dist := norm diff in
  if ltb start_goal_dist (xy_goal_tolerance (cfg_ p)) then Some p
  else
    let normal := normalize (mkVector2d (- vy diff) (vx diff)) in
    let area_width := roadmap_graph_area_width (cfg_ p) in
    let phi := atan2 (vy diff) (vx diff) in
    let area_origin := vsub (position start) (vscale ((1 # 2) * area_width) normal) in
    let (start_vtx, g) := add_vertex (position start) (graph_ p) in
    let diff := normalize diff in
    match sample_vertices fuel (Z.to_nat (to_unsigned (roadmap_graph_no_samples (cfg_ p))))
            (obstacles_ p) dist_to_obst area_origin phi start_goal_dist area_width
            g (rnd_generator_ p) with
    | None => None
    | Some (g, rnd) =>
        let (goal_vtx, g) := add_vertex (position goal) g in
        let g := insert_edges
                   (createProbRoadmapGraph_edge (cfg_ p) (obstacles_ p) diff dist_to_obst g) g in
        DepthFirst fuel g [start_vtx] goal_vtx (theta start) (theta goal)
          (set_rnd_generator rnd (set_graph g p))
    end.

(* ------------------------------------------------------------------ *)
(** *** The passes of a planning cycle *)

Definition exploreHomotopyClassesAndInitTebs (fuel : nat) (start goal : PoseSE2)
    (dist_to_obst hp_threshold : double) (p : HomotopyClassPlanner)
    : option HomotopyClassPlanner :=
  let p := renewAndAnalyzeOldTebs false p in
  if simple_exploration (cfg_ p)
  then createGraph fuel start goal dist_to_obst
         (neqb (obstacle_heading_threshold (cfg_ p)) 0) p
  else createProbRoadmapGraph fuel start goal dist_to_obst
         (neqb (obstacle_heading_threshold (cfg_ p)) 0) p.

(** A member function applied through every pointer of the pool.  The
    optimizers are modified in place: [best_teb_] sees the change when it
    points to an optimizer of the pool. *)
Definition for_each_teb (f : TebOptimalPlanner -> TebOptimalPlanner)
    (p : HomotopyClassPlanner) : HomotopyClassPlanner :=
  let in_pool (b : TebOptimalPlannerPtr) :=
    existsb (fun t => addr t =? addr b)%nat (tebs_ p) in
  set_best_teb
    (option_map (fun b => if in_pool b then mkPtr (addr b) (f (obj b)) else b) (best_teb_ p))
    (set_tebs (map (fun t => mkPtr (addr t) (f (obj t))) (tebs_ p)) p).

Definition updateAllTEBs (start goal : option PoseSE2) (start_velocity : option Vector2d)
    (p : HomotopyClassPlanner) : HomotopyClassPlanner :=
  for_each_teb
    (fun t =>
       let t := updateAndPruneTEB start goal t in
       match start_velocity with
       | Some v => setVelocityStart v t
       | None => t
       end) p.

(** Both branches of [optimizeAllTEBs] call [optimizeTEB] once on every
    candidate; with multithreading the calls run on one thread each and are
    joined before the function returns. *)
Definition optimizeAllTEBs (iter_innerloop iter_outerloop : Z) (p : HomotopyClassPlanner)
    : HomotopyClassPlanner :=
  if enable_multithreading (cfg_ p)
  then for_each_teb (optimizeTEB iter_innerloop iter_outerloop true) p
  else for_each_teb (optimizeTEB iter_innerloop iter_outerloop true) p.

(** [plan(start, goal, start_vel, free_goal_vel)] on poses.  [fuel] bounds
    every loop and recursion of the exploration that has no bound of its
    own.  The call is described for a bound obstacle pointer and for the
    index-stable pool of [erase]; [cycle_determined] below names the calls
    that do not depend on either. *)
Definition plan (fuel : nat) (start goal : PoseSE2) (start_vel : Vector2d)
    (free_goal_vel : bool) (p : HomotopyClassPlanner)
    : outcome (bool * HomotopyClassPlanner) :=
  if negb (initialized_ p) then AssertionFailed
  else
    let p := updateAllTEBs (Some start) (Some goal) (Some start_vel) p in
    match exploreHomotopyClassesAndInitTebs fuel start goal
            (min_obstacle_dist (cfg_ p)) (1 # 10) p with
    | None => OutOfFuel
    | Some p =>
        let p := optimizeAllTEBs (no_inner_iterations (cfg_ p))
                   (no_outer_iterations (cfg_ p)) p in
        let p := snd (selectBestTeb p) in
        let p := deleteTebDetours 0 p in
        Returned (true, p)
    end.

End Planner.

(* ================================================================== *)
(** ** Notions used to state the properties *)

(** Two signatures are within [threshold] of each other: real parts and
    imaginary parts both differ by no more than [threshold]. *)
Definition within_threshold (threshold : double) (a b : cplx) : Prop :=
  Qabs (real a - real b) <= threshold /\ Qabs (imag a - imag b) <= threshold.

(** The registry invariant: no entry is within [threshold] of a later one. *)
Definition apart (threshold : double) (hs : list cplx) : Prop :=
  ForallOrdPairs (fun a b => ~ within_threshold threshold a b) hs.

(** A sequence of calls of [addNewHSignatureIfNew] with one threshold. *)
Definition register_all (threshold : double) (Hs : list cplx) (p : HomotopyClassPlanner)
    : HomotopyClassPlanner :=
  fold_left (fun p H => snd (addNewHSignatureIfNew H threshold p)) Hs p.

(** The summed cost of a candidate, as [selectBestTeb] computes it. *)
Definition cost (t : TebOptimalPlannerPtr) : double := sum (getCurrentCost (obj t)).

(** The cost that the costmap gives a pose, as [isTrajectoryFeasible] asks
    for it. *)
Definition pose_cost (costmap_model : CostmapModel) (footprint_spec : list Vector2d)
    (inscribed_radius circumscribed_radius : double) (pose : PoseSE2) : double :=
  costmap_model (vx (position pose)) (vy (position pose)) (theta pose)
                footprint_spec inscribed_radius circumscribed_radius.

(** The look-ahead index after clamping: the last pose index when the
    argument is negative or not less than the number of poses. *)
Definition clamped_look_ahead (look_ahead_idx : Z) (t : TebOptimalPlanner) : Z :=
  if ((look_ahead_idx <? 0) || (Z.of_nat (sizePoses t) <=? look_ahead_idx))%Z
  then (Z.of_nat (sizePoses t) - 1)%Z
  else look_ahead_idx.

(** The poses at the indices 0 to the clamped look-ahead index, inclusive. *)
Definition look_ahead_window (look_ahead_idx : Z) (t : TebOptimalPlanner) : list PoseSE2 :=
  firstn (Z.to_nat (clamped_look_ahead look_ahead_idx t + 1)) (poses t).

(** The values an [int] can hold. *)
Definition int_range (z : Z) : Prop := (- 2 ^ 31 <= z < 2 ^ 31)%Z.

(** The pool holds at most the configured number of classes. *)
Definition pool_bounded (p : HomotopyClassPlanner) : Prop :=
  (Z.of_nat (length (tebs_ p)) <= max_number_classes (cfg_ p))%Z.

(** The targets of all edges are vertices of the graph. *)
Definition graph_closed (g : HcGraph) : Prop :=
  forall e, In e (edges g) -> (snd e < length (vertices g))%nat.

(** [q] is a state that exploration can reach from [p]: only the pool, the
    registry and the allocation counter change, the pool does not shrink, and
    a pool within the configured maximum stays within it. *)
Definition explored_from (p q : HomotopyClassPlanner) : Prop :=
  cfg_ q = cfg_ p
  /\ obstacles_ q = obstacles_ p
  /\ initialized_ q = initialized_ p
  /\ graph_ q = graph_ p
  /\ best_teb_ q = best_teb_ p
  /\ rnd_generator_ q = rnd_generator_ p
  /\ (length (tebs_ p) <= length (tebs_ q))%nat
  /\ ((max_number_classes (cfg_ p) < 2 ^ 31)%Z -> pool_bounded p -> pool_bounded q).

(** [q] is a state that a pass of a planning cycle can reach from [p]: the
    configuration, the obstacles and the initialization flag are as before,
    and a pool within the configured maximum stays within it. *)
Definition cycle_step (p q : HomotopyClassPlanner) : Prop :=
  cfg_ q = cfg_ p
  /\ obstacles_ q = obstacles_ p
  /\ initialized_ q = initialized_ p
  /\ ((max_number_classes (cfg_ p) < 2 ^ 31)%Z -> pool_bounded p -> pool_bounded q).

(** The detour answers of a candidate replaced by a constant "no". *)
Definition forget_detour (t : TebOptimalPlannerPtr) : TebOptimalPlannerPtr :=
  mkPtr (addr t)
        (mkTeb (poses (obj t)) (getCurrentCost (obj t)) (fun _ => false)
               (findClosestTrajectoryPose (obj t)) (teb_getVelocityCommand (obj t))).

Definition forget_candidate (c : TebOptimalPlannerPtr * cplx) : TebOptimalPlannerPtr * cplx :=
  (forget_detour (fst c), snd c).

Definition forget_detours (p : HomotopyClassPlanner) : HomotopyClassPlanner :=
  set_tebs (map forget_detour (tebs_ p)) p.

Section WorldNotions.

Context {W : World}.

(** The obstacle lies forward of the start: [createGraph] does not skip it.
    [diff] is the normalized direction from start to goal. *)
Definition forward_of_start (start : PoseSE2) (diff : Vector2d) (obst : Obstacle) : bool :=
  let start2obst := vsub (getCentroid obst) (position start) in
  negb (div_ltb (dot start2obst diff) (norm start2obst) (1 # 10)).

(** The two keypoints of every obstacle forward of the start, in the order
    of the obstacles. *)
Definition keypoints (start : PoseSE2) (diff normal : Vector2d) (obstacles : list Obstacle)
    : list Vector2d :=
  flat_map (fun obst =>
              if forward_of_start start diff obst
              then [vadd (getCentroid obst) normal; vsub (getCentroid obst) normal]
              else [])
           obstacles.

(** The number of rounds of the sampling for loop: the configured [int]
    compared with an [unsigned int] counter. *)
Definition roadmap_sample_count (cfg : TebConfig) : nat :=
  Z.to_nat (to_unsigned (roadmap_graph_no_samples cfg)).



(** The passes after exploration. *)
Definition finish_cycle (q : HomotopyClassPlanner) : HomotopyClassPlanner :=
  deleteTebDetours 0
    (snd (selectBestTeb
            (optimizeAllTEBs (no_inner_iterations (cfg_ q)) (no_outer_iterations (cfg_ q)) q))).

(** Successive calls of [plan], one for each input. *)
Fixpoint run_cycles (fuel : nat) (inputs : list (PoseSE2 * PoseSE2 * Vector2d * bool))
    (p : HomotopyClassPlanner) : outcome HomotopyClassPlanner :=
  match inputs with
  | [] => Returned p
  | (start, goal, start_vel, free_goal_vel) :: rest =>
      match plan fuel start goal start_vel free_goal_vel p with
      | Returned r => run_cycles fuel rest (snd r)
      | AssertionFailed => AssertionFailed
      | OutOfFuel => OutOfFuel
      end
  end.

End WorldNotions.

(* ================================================================== *)
(** ** Notions used to state further properties *)

(** The candidate does not test as a backwards detour for [threshold]. *)
Definition no_detour (threshold : double) (t : TebOptimalPlannerPtr) : bool :=
  negb (detectDetoursBackwards (obj t) threshold).

(** [q] comes from [p] by appending to the pool and to the registry: one
    new candidate for every new signature, at the next free identities. *)
Definition appended (p q : HomotopyClassPlanner) : Prop :=
  exists new sigs,
    tebs_ q = tebs_ p ++ new
    /\ h_signatures_ q = h_signatures_ p ++ sigs
    /\ length new = length sigs
    /\ map addr new = seq (heap_ p) (length new)
    /\ heap_ q = (heap_ p + length new)%nat.

(** [path] is a walk along edges of [g]: every vertex but the first is
    reached from its predecessor by an edge. *)
Fixpoint is_path (g : HcGraph) (path : list nat) : Prop :=
  match path with
  | u :: (v :: _) as rest => In (u, v) (edges g) /\ is_path g rest
  | _ => True
  end.

(** The candidate [t] was initialized along a loop-free walk of [g] that
    extends [visited] and ends at [goal]. *)
Definition along_simple_path {W : World} (g : HcGraph) (visited : list nat) (goal : nat)
    (start_orientation goal_orientation : double) (t : TebOptimalPlannerPtr) : Prop :=
  exists tail,
    obj t = initTEBtoGoal (map (getVector2dFromHcGraph g) (visited ++ tail))
              start_orientation goal_orientation
    /\ NoDup (visited ++ tail)
    /\ is_path g (visited ++ tail)
    /\ last (visited ++ tail) O = goal.

(** [q] is [p] with new candidates appended, each along such a walk. *)
Definition paths_added {W : World} (g : HcGraph) (visited : list nat) (goal : nat)
    (start_orientation goal_orientation : double) (p q : HomotopyClassPlanner) : Prop :=
  graph_ q = graph_ p
  /\ exists new,
      tebs_ q = tebs_ p ++ new
      /\ Forall (along_simple_path g visited goal start_orientation goal_orientation) new.

(** The H-signature that the re-analysis pass computes for the candidate
    [t]: that of the poses of its trajectory. *)
Definition candidate_signature {W : World} (cfg : TebConfig) (obstacles : list Obstacle)
    (t : TebOptimalPlannerPtr) : cplx :=
  calculateHSignature (map getCplxFromVertexPosePtr (poses (obj t)))
    obstacles (h_signature_prescaler cfg).

(** The vector [teb_candidates] goes along the pool [tebs]: it holds the
    candidates of the pool, in order, each with its signature, and no two
    entries of the pool point to the same optimizer. *)
Definition candidates_of {W : World} (cfg : TebConfig) (obstacles : list Obstacle)
    (tebs : list TebOptimalPlannerPtr) (teb_candidates : TebCandidateType) : Prop :=
  tebs = map fst teb_candidates
  /\ Forall (fun c => snd c = candidate_signature cfg obstacles (fst c)) teb_candidates
  /\ NoDup (map addr tebs).

(* ------------------------------------------------------------------ *)
(** *** The registry test with its conversion to [double] *)

(** [double diff_real = std::abs(it->real() - H.real())]: the signatures are
    complex numbers of [long double], the absolute difference is computed in
    [long double] and converted to [double], and the converted value is what
    [diff_real <= threshold] compares.  [narrow] is the rounding that this
    computation applies to the exact absolute difference.
    [addNewHSignatureIfNew] above is the function for a conversion that
    loses nothing. *)
Section Narrowing.

Variable narrow : double -> double.

Definition similar_narrowed (threshold : double) (it H : cplx) : bool :=
  let diff_real := narrow (abs (real it - real H)) in
  let diff_imag := narrow (abs (imag it - imag H)) in
  leb diff_real threshold && leb diff_imag threshold.

Fixpoint known_narrowed (threshold : double) (hs : list cplx) (H : cplx) : bool :=
  match hs with
  | [] => false
  | it :: rest =>
      if similar_narrowed threshold it H then true else known_narrowed threshold rest H
  end.

Definition addNewHSignatureIfNew_narrowed (H : cplx) (threshold : double)
    (p : HomotopyClassPlanner) : bool * HomotopyClassPlanner :=
  if known_narrowed threshold (h_signatures_ p) H
  then (false, p)
  else (true, set_h_signatures (h_signatures_ p ++ [H]) p).

(** The retained signature [h] is within [threshold] of [H] as the code
    compares them. *)
Definition within_threshold_narrowed (threshold : double) (h H : cplx) : Prop :=
  narrow (Qabs (real h - real H)) <= threshold
  /\ narrow (Qabs (imag h - imag H)) <= threshold.

End Narrowing.

(** [2^e] for an integer [e]. *)
Definition pow2 (e : Z) : Q :=
  if (0 <=? e)%Z then inject_Z (2 ^ e) else / inject_Z (2 ^ (- e)).

(** The binary exponent of a positive number: the largest [e] with
    [2^e <= x]. *)
Definition exponent (x : Q) : Z :=
  let e := (Z.log2 (Qnum x) - Z.log2 (Zpos (Qden x)))%Z in
  if Qle_bool (pow2 e) x then e else (e - 1)%Z.

(** The nearest integer, the even one of two that are equally near. *)
Definition round_half_even (x : Q) : Z :=
  let f := Qfloor x in
  match Qcompare (x - inject_Z f) (1 # 2) with
  | Lt => f
  | Gt => (f + 1)%Z
  | Eq => if Z.even f then f else (f + 1)%Z
  end.

(** The conversion to binary64 in the default rounding mode: the nearest
    number with a significand of 53 bits, ties to even, with the fixed
    spacing 2^-1074 below 2^-1022.  (A number that rounds beyond [DBL_MAX]
    has no finite binary64 value; the conversion is used below that.) *)
Definition binary64 (x : Q) : Q :=
  if Qeq_bool x 0 then 0
  else
    let e := Z.max (exponent (Qabs x)) (- 1022) in
    let ulp := pow2 (e - 52) in
    inject_Z (round_half_even (x / ulp)) * ulp.

(* ------------------------------------------------------------------ *)
(** *** Where the re-analysis pass is determined by the source *)





(* ================================================================== *)
(** ** Data for the examples *)

(** A square root on the rationals, rounded down to a multiple of
    [1 / (den * 2^32)]; it is exact on squares of rationals. *)
Definition sqrt_down (q : double) : double :=
  Qmake (Z.sqrt (Qnum q * Zpos (Qden q) * 4 ^ 32)) (Qden q * 2 ^ 32).

(** The world of the examples.  The collaborators are stand-ins, as a unit
    test would use them: the optimizer leaves a trajectory as it is, the
    H-signature of a path is the prescaled sum of its points, the random
    generator always yields 1/2 and the node keeps running.  Cosine and sine
    are their Taylor polynomials of degree two and one. *)
#[local] Instance example_world : World := {|
  sqrt := sqrt_down;
  cos := fun x => 1 - x * x / 2;
  sin := fun x => x;
  atan2 := fun y x => if Qeq_bool x 0 then 0 else y / x;
  calculateHSignature := fun path _ prescaler =>
    mkCplx (prescaler * sum (map real path)) (prescaler * sum (map imag path));
  initTEBtoGoal := fun path _ _ =>
    mkTeb (map (fun v => mkPoseSE2 v 0) path) [1] (fun _ => false) (fun _ => O) Vector2d_Zero;
  updateAndPruneTEB := fun _ _ t => t;
  setVelocityStart := fun _ t => t;
  optimizeTEB := fun _ _ _ t => t;
  uniform_01 := fun _ => 1 # 2;
  ros_ok := fun _ => true
|}.

Definition example_cfg : TebConfig := {|
  xy_goal_tolerance := 2 # 10;
  min_obstacle_dist := 1;
  no_inner_iterations := 5;
  no_outer_iterations := 4;
  simple_exploration := true;
  max_number_classes := 2;
  obstacle_heading_threshold := 1;
  h_signature_prescaler := 1;
  h_signature_threshold := 1 # 10;
  roadmap_graph_no_samples := 1;
  roadmap_graph_area_width := 6;
  enable_multithreading := false
|}.

(** A trajectory through the given points with the given summed cost and
    detour answer. *)
Definition example_teb (a : nat) (points : list (double * double)) (c : double)
    (detour : bool) : TebOptimalPlannerPtr :=
  mkPtr a (mkTeb (map (fun xy => mkPoseSE2 (mkVector2d (fst xy) (snd xy)) 0) points)
                 [c] (fun _ => detour) (fun _ => 1%nat) (mkVector2d 1 0)).

(** A planner with the given obstacles and pool, before selection. *)
Definition example_planner (cfg : TebConfig) (obstacles : list Obstacle)
    (tebs : list TebOptimalPlannerPtr) : HomotopyClassPlanner :=
  set_heap (length tebs) (set_tebs tebs (initialize cfg obstacles)).

(** An obstacle with the given centroid that reports the given distance to
    every point and meets no segment and no point. *)
Definition example_obstacle (centroid : Vector2d) (distance : double) : Obstacle :=
  mkObstacle centroid (fun _ => distance) (fun _ _ _ => false) (fun _ _ => false).

(** A graph with two paths from vertex 0 to vertex 3, one on each side of
    an obstacle at (5,0). *)
Definition example_graph : HcGraph :=
  mkGraph [mkVector2d 0 0; mkVector2d 5 2; mkVector2d 5 (-2); mkVector2d 10 0]
          [(0, 1); (0, 2); (1, 3); (2, 3)]%nat.

(* ================================================================== *)
(** * Properties *)

Unset Implicit Arguments.

(** ** Comparisons *)

Lemma ltb_lt (a b : double) : ltb a b = true <-> a < b.
Proof.
  unfold ltb. rewrite negb_true_iff, <- not_true_iff_false, Qle_bool_iff.
  split; [apply Qnot_le_lt | apply Qlt_not_le].
Qed.

Lemma ltb_ge (a b : double) : ltb a b = false <-> b <= a.
Proof. unfold ltb. rewrite negb_false_iff. apply Qle_bool_iff. Qed.

Lemma leb_le (a b : double) : leb a b = true <-> a <= b.
Proof. apply Qle_bool_iff. Qed.

Lemma leb_gt (a b : double) : leb a b = false <-> b < a.
Proof.
  unfold leb. rewrite <- not_true_iff_false, Qle_bool_iff.
  split; [apply Qnot_le_lt | apply Qlt_not_le].
Qed.

(** ** The class registry *)

Lemma similar_within (threshold : double) (it H : cplx) :
  similar threshold it H = true <-> within_threshold threshold it H.
Proof.
  unfold similar, within_threshold, abs.
  rewrite andb_true_iff, !leb_le. reflexivity.
Qed.

Lemma within_threshold_sym (threshold : double) (a b : cplx) :
  within_threshold threshold a b -> within_threshold threshold b a.
Proof.
  unfold within_threshold.
  rewrite (Qabs_Qminus (real a)), (Qabs_Qminus (imag a)). tauto.
Qed.

Lemma known_iff (threshold : double) (hs : list cplx) (H : cplx) :
  known threshold hs H = true <-> exists h, In h hs /\ within_threshold threshold h H.
Proof.
  induction hs as [|it rest IH]; simpl.
  - split; [discriminate | intros (h & [] & _)].
  - destruct (similar threshold it H) eqn:E.
    + split; [intros _ | reflexivity].
      exists it. split; [now left | now apply similar_within].
    + rewrite IH. split.
      * intros (h & Hin & Hw). exists h. split; [now right | exact Hw].
      * intros (h & [<- | Hin] & Hw).
        -- apply similar_within in Hw. congruence.
        -- now exists h.
Qed.

Lemma similar_narrowed_within (narrow : double -> double) (threshold : double)
    (it H : cplx) :
  similar_narrowed narrow threshold it H = true
  <-> within_threshold_narrowed narrow threshold it H.
Proof.
  unfold similar_narrowed, within_threshold_narrowed, abs.
  rewrite andb_true_iff, !leb_le. reflexivity.
Qed.

Lemma known_narrowed_iff (narrow : double -> double) (threshold : double)
    (hs : list cplx) (H : cplx) :
  known_narrowed narrow threshold hs H = true
  <-> exists h, In h hs /\ within_threshold_narrowed narrow threshold h H.
Proof.
  induction hs as [|it rest IH]; simpl.
  - split; [discriminate | intros (h & [] & _)].
  - destruct (similar_narrowed narrow threshold it H) eqn:E.
    + split; [intros _ | reflexivity].
      exists it. split; [now left | now apply similar_narrowed_within].
    + rewrite IH. split.
      * intros (h & Hin & Hw). exists h. split; [now right | exact Hw].
      * intros (h & [<- | Hin] & Hw).
        -- apply similar_narrowed_within in Hw. congruence.
        -- now exists h.
Qed.

Lemma known_narrowed_exact (threshold : double) (hs : list cplx) (H : cplx) :
  known_narrowed (fun d => d) threshold hs H = known threshold hs H.
Proof.
  induction hs as [|it rest IH]; simpl; [reflexivity|].
  change (similar_narrowed (fun d => d) threshold it H) with (similar threshold it H).
  now rewrite IH.
Qed.

(** C4, as the code has it.  Let [narrow] be the rounding that the
    computation of [diff_real] and [diff_imag] applies to the exact absolute
    difference.  [addNewHSignatureIfNew(H, threshold)] returns true exactly
    when no retained signature has both converted differences from [H] at
    most [threshold]; the registry then is the old registry followed by [H],
    and every other member is as before.  It returns false exactly when
    some retained signature has, and then leaves the planner, and so the
    registry, as it was.  For a conversion that is monotone and keeps the
    threshold, a retained signature whose exact differences are at most
    [threshold] makes the call return false.  For a conversion that loses
    nothing the test is the one of the claim: on the exact differences. *)
Theorem addNewHSignatureIfNew_iff_no_retained_within
    (narrow : double -> double) (H : cplx) (threshold : double) (p : HomotopyClassPlanner) :
  let r := addNewHSignatureIfNew_narrowed narrow H threshold p in
  (fst r = true <->
     forall h, In h (h_signatures_ p) -> ~ within_threshold_narrowed narrow threshold h H)
  /\ (fst r = true ->
        h_signatures_ (snd r) = h_signatures_ p ++ [H]
        /\ cfg_ (snd r) = cfg_ p /\ obstacles_ (snd r) = obstacles_ p
        /\ initialized_ (snd r) = initialized_ p /\ graph_ (snd r) = graph_ p
        /\ tebs_ (snd r) = tebs_ p /\ best_teb_ (snd r) = best_teb_ p
        /\ rnd_generator_ (snd r) = rnd_generator_ p /\ heap_ (snd r) = heap_ p)
  /\ (fst r = false <->
        exists h, In h (h_signatures_ p) /\ within_threshold_narrowed narrow threshold h H)
  /\ (fst r = false -> snd r = p)
  /\ ((forall a b, a <= b -> narrow a <= narrow b) -> narrow threshold <= threshold ->
      (exists h, In h (h_signatures_ p) /\ within_threshold threshold h H) ->
      fst r = false)
  /\ addNewHSignatureIfNew_narrowed (fun d => d) H threshold p
     = addNewHSignatureIfNew H threshold p
  /\ (fst (addNewHSignatureIfNew H threshold p) = true <->
        forall h, In h (h_signatures_ p) -> ~ within_threshold threshold h H)
  /\ (fst (addNewHSignatureIfNew H threshold p) = true ->
        h_signatures_ (snd (addNewHSignatureIfNew H threshold p)) = h_signatures_ p ++ [H]).
Proof.
  intros r.
  assert (Hfalse : fst r = false <->
            exists h, In h (h_signatures_ p)
                      /\ within_threshold_narrowed narrow threshold h H).
  { subst r. unfold addNewHSignatureIfNew_narrowed.
    rewrite <- known_narrowed_iff.
    destruct (known_narrowed narrow threshold (h_signatures_ p) H); simpl;
      split; congruence. }
  assert (Hexact : fst (addNewHSignatureIfNew H threshold p) = false <->
            exists h, In h (h_signatures_ p) /\ within_threshold threshold h H).
  { unfold addNewHSignatureIfNew. rewrite <- known_iff.
    destruct (known threshold (h_signatures_ p) H); simpl; split; congruence. }
  split; [| split; [| split; [| split; [| split; [| split; [| split]]]]]].
  - rewrite <- not_false_iff_true, Hfalse. split.
    + intros Hno h Hin Hw. apply Hno. now exists h.
    + intros Hall (h & Hin & Hw). exact (Hall h Hin Hw).
  - subst r. unfold addNewHSignatureIfNew_narrowed.
    destruct (known_narrowed narrow threshold (h_signatures_ p) H); simpl;
      [discriminate|]. intros _. repeat split; reflexivity.
  - exact Hfalse.
  - subst r. unfold addNewHSignatureIfNew_narrowed.
    destruct (known_narrowed narrow threshold (h_signatures_ p) H); simpl;
      [reflexivity | discriminate].
  - intros Hmono Hthr (h & Hin & Hre & Him). apply Hfalse. exists h.
    split; [exact Hin|]. split.
    + apply Qle_trans with (narrow threshold); [now apply Hmono | exact Hthr].
    + apply Qle_trans with (narrow threshold); [now apply Hmono | exact Hthr].
  - unfold addNewHSignatureIfNew_narrowed, addNewHSignatureIfNew.
    now rewrite known_narrowed_exact.
  - rewrite <- not_false_iff_true, Hexact. split.
    + intros Hno h Hin Hw. apply Hno. now exists h.
    + intros Hall (h & Hin & Hw). exact (Hall h Hin Hw).
  - unfold addNewHSignatureIfNew.
    destruct (known threshold (h_signatures_ p) H); simpl; [discriminate | reflexivity].
Qed.

(** C4 as stated fails at the threshold: the retained signature 1 and the
    signature -2^-60 differ by 1 + 2^-60 in the real part, which is more
    than the threshold 1; the difference is converted to the [double] 1,
    which is not, so that the call returns false and appends nothing. *)
Lemma addNewHSignatureIfNew_duplicate_beyond_threshold :
  let retained := mkCplx 1 0 in
  let H := mkCplx (- (1 # 2 ^ 60)) 0 in
  let p := set_h_signatures [retained] (initialize example_cfg []) in
  (forall h, In h (h_signatures_ p) -> ~ within_threshold 1 h H)
  /\ addNewHSignatureIfNew_narrowed binary64 H 1 p = (false, p).
Proof.
  intros retained H p. split.
  - intros h [<- | []] [Hre _]. vm_compute in Hre. now apply Hre.
  - vm_compute. reflexivity.
Qed.

Lemma ForallOrdPairs_snoc {A : Type} (R : A -> A -> Prop) (l : list A) (x : A) :
  ForallOrdPairs R l -> Forall (fun a => R a x) l -> ForallOrdPairs R (l ++ [x]).
Proof.
  induction 1 as [|a l Ha Hl IH]; intros Hx; simpl.
  - constructor; [constructor | constructor].
  - inversion Hx; subst. constructor.
    + apply Forall_app. split; [assumption | now constructor].
    + now apply IH.
Qed.

Lemma ForallOrdPairs_nth_error {A : Type} (R : A -> A -> Prop) (l : list A) :
  ForallOrdPairs R l ->
  forall i j a b, (i < j)%nat -> nth_error l i = Some a -> nth_error l j = Some b -> R a b.
Proof.
  induction 1 as [|x l Hx Hl IH]; intros i j a b Hij Hi Hj.
  - destruct i; discriminate.
  - destruct j as [|j]; [lia|]. simpl in Hj. destruct i as [|i]; simpl in Hi.
    + injection Hi as <-. rewrite Forall_forall in Hx.
      apply Hx. eapply nth_error_In; eassumption.
    + apply (IH i j); [lia | assumption | assumption].
Qed.

Lemma addNewHSignatureIfNew_apart (H : cplx) (threshold : double) (p : HomotopyClassPlanner) :
  apart threshold (h_signatures_ p) ->
  apart threshold (h_signatures_ (snd (addNewHSignatureIfNew H threshold p))).
Proof.
  intros Hp. unfold addNewHSignatureIfNew.
  destruct (known threshold (h_signatures_ p) H) eqn:E; simpl; [assumption|].
  apply ForallOrdPairs_snoc; [assumption|].
  apply Forall_forall. intros h Hin Hw.
  assert (known threshold (h_signatures_ p) H = true) by (apply known_iff; eauto).
  congruence.
Qed.

Lemma register_all_apart (threshold : double) (Hs : list cplx) :
  forall p, apart threshold (h_signatures_ p) ->
            apart threshold (h_signatures_ (register_all threshold Hs p)).
Proof.
  unfold register_all. induction Hs as [|H Hs IH]; intros p Hp; simpl; [assumption|].
  apply IH. now apply addNewHSignatureIfNew_apart.
Qed.

(** C5.  After any sequence of [addNewHSignatureIfNew] calls with one
    threshold that starts from an empty registry, any two retained entries
    differ by more than the threshold in the real part or in the imaginary
    part. *)
Theorem registry_entries_differ_by_more_than_threshold
    (threshold : double) (Hs : list cplx) (p : HomotopyClassPlanner)
    (i j : nat) (hi hj : cplx) :
  h_signatures_ p = [] ->
  i <> j ->
  nth_error (h_signatures_ (register_all threshold Hs p)) i = Some hi ->
  nth_error (h_signatures_ (register_all threshold Hs p)) j = Some hj ->
  threshold < Qabs (real hi - real hj) \/ threshold < Qabs (imag hi - imag hj).
Proof.
  intros Hempty Hij Hi Hj.
  assert (Hap : apart threshold (h_signatures_ (register_all threshold Hs p))).
  { apply register_all_apart. rewrite Hempty. constructor. }
  assert (Hnot : ~ within_threshold threshold hi hj).
  { destruct (Nat.lt_total i j) as [Hlt | [Heq | Hgt]]; [| contradiction |].
    - exact (ForallOrdPairs_nth_error _ _ Hap i j hi hj Hlt Hi Hj).
    - intros Hw. apply within_threshold_sym in Hw.
      exact (ForallOrdPairs_nth_error _ _ Hap j i hj hi Hgt Hj Hi Hw). }
  unfold within_threshold in Hnot.
  destruct (Qlt_le_dec threshold (Qabs (real hi - real hj))) as [|Hre]; [now left|].
  destruct (Qlt_le_dec threshold (Qabs (imag hi - imag hj))) as [|Him]; [now right|].
  elim Hnot. split; assumption.
Qed.

(** A run of C5: three signatures are offered, the third within 0.1 of the
    first; the two that are retained differ by 2 in the imaginary part. *)
Lemma registry_entries_differ_witness :
  (1 # 10) < Qabs (real (mkCplx 15 1) - real (mkCplx 15 (-1)))
  \/ (1 # 10) < Qabs (imag (mkCplx 15 1) - imag (mkCplx 15 (-1))).
Proof.
  apply (registry_entries_differ_by_more_than_threshold (1 # 10)
           [mkCplx 15 1; mkCplx 15 (-1); mkCplx 15 (11 # 10)]
           (initialize example_cfg []) 0 1 (mkCplx 15 1) (mkCplx 15 (-1)));
    [reflexivity | discriminate | reflexivity | reflexivity].
Defined.

(** ** Selection *)

(** What the loop of [selectBestTeb] yields from a running minimum [m] and a
    running best [b]: [b] when no candidate is below [m]; otherwise the
    first candidate of least cost. *)
Lemma selectBestTeb_loop_spec (tebs : list TebOptimalPlannerPtr) :
  forall (m : double) (b : option TebOptimalPlannerPtr),
    ((forall t, In t tebs -> m <= cost t) /\ selectBestTeb_loop tebs m b = b)
    \/ (exists i t,
          selectBestTeb_loop tebs m b = Some t
          /\ nth_error tebs i = Some t
          /\ cost t < m
          /\ (forall t', In t' tebs -> cost t <= cost t')
          /\ (forall k t', (k < i)%nat -> nth_error tebs k = Some t' -> cost t < cost t')).
Proof.
  induction tebs as [|it rest IH]; intros m b; simpl.
  - left. split; [intros t [] | reflexivity].
  - fold (cost it). destruct (ltb (cost it) m) eqn:E.
    + apply ltb_lt in E. right.
      destruct (IH (cost it) (Some it)) as [[Hall Heq] | (i & t & Heq & Hnth & Hlt & Hmin & Hfirst)].
      * exists O, it. rewrite Heq. repeat split; auto.
        -- intros t' [<- | Hin]; [apply Qle_refl | now apply Hall].
        -- intros k t' Hk. lia.
      * exists (S i), t. rewrite Heq. repeat split; auto.
        -- lra.
        -- intros t' [<- | Hin]; [lra | now apply Hmin].
        -- intros [|k] t' Hk Hk'; simpl in Hk'.
           ++ injection Hk' as <-. exact Hlt.
           ++ apply (Hfirst k); [lia | assumption].
    + apply ltb_ge in E.
      destruct (IH m b) as [[Hall Heq] | (i & t & Heq & Hnth & Hlt & Hmin & Hfirst)].
      * left. split; [|assumption].
        intros t' [<- | Hin]; [assumption | now apply Hall].
      * right. exists (S i), t. repeat split; auto.
        -- intros t' [<- | Hin]; [lra | now apply Hmin].
        -- intros [|k] t' Hk Hk'; simpl in Hk'.
           ++ injection Hk' as <-. lra.
           ++ apply (Hfirst k); [lia | assumption].
Qed.

(** C1, as the code has it.  [selectBestTeb] stores what it returns and
    leaves the pool as it is.  When some candidate's summed cost is below
    [DBL_MAX], the result is the candidate at the first position [i] whose
    summed cost is minimal in the pool: no candidate costs less, and every
    candidate before position [i] costs strictly more.  When no candidate's
    summed cost is below [DBL_MAX], as in the empty pool, the result is
    null. *)
Theorem selectBestTeb_first_minimal_below_DBL_MAX (p : HomotopyClassPlanner) :
  best_teb_ (snd (selectBestTeb p)) = fst (selectBestTeb p)
  /\ tebs_ (snd (selectBestTeb p)) = tebs_ p
  /\ ((exists t, In t (tebs_ p) /\ cost t < DBL_MAX) ->
        exists i best,
          fst (selectBestTeb p) = Some best
          /\ nth_error (tebs_ p) i = Some best
          /\ (forall t, In t (tebs_ p) -> cost best <= cost t)
          /\ (forall k t, (k < i)%nat -> nth_error (tebs_ p) k = Some t -> cost best < cost t))
  /\ ((forall t, In t (tebs_ p) -> DBL_MAX <= cost t) -> fst (selectBestTeb p) = None)
  /\ (tebs_ p = [] -> fst (selectBestTeb p) = None).
Proof.
  unfold selectBestTeb; simpl.
  destruct (selectBestTeb_loop_spec (tebs_ p) DBL_MAX None)
    as [[Hall Heq] | (i & t & Heq & Hnth & Hlt & Hmin & Hfirst)].
  - split; [reflexivity | split; [reflexivity | split; [| split]]].
    + intros (t & Hin & Hlt). specialize (Hall t Hin). lra.
    + intros _. exact Heq.
    + intros _. exact Heq.
  - split; [reflexivity | split; [reflexivity | split; [| split]]].
    + intros _. exists i, t. repeat split; auto.
    + intros Hall. apply nth_error_In in Hnth. specialize (Hall t Hnth). lra.
    + intros Hnil. rewrite Hnil in Hnth. destruct i; discriminate.
Qed.

(** C1 as stated fails: a pool of one candidate whose summed cost is
    [DBL_MAX] is not empty, and [selectBestTeb] returns and stores null. *)
Lemma selectBestTeb_nonempty_pool_null :
  let p := example_planner example_cfg [] [example_teb 0 [(0, 0); (10, 0)] DBL_MAX false] in
  tebs_ p <> [] /\ fst (selectBestTeb p) = None /\ best_teb_ (snd (selectBestTeb p)) = None.
Proof.
  split; [discriminate | split; vm_compute; reflexivity].
Qed.

(** Ties go to the candidate found first. *)
Example selectBestTeb_tie :
  let a := example_teb 0 [(0, 0); (10, 0)] 3 false in
  let b := example_teb 1 [(0, 0); (10, 0)] 2 false in
  let c := example_teb 2 [(0, 0); (10, 0)] 2 false in
  fst (selectBestTeb (example_planner example_cfg [] [a; b; c])) = Some b.
Proof. vm_compute. reflexivity. Qed.

(** ** Detour cleanup *)

Lemma deleteTebDetours_loop_nonempty (threshold : double) (rest : list TebOptimalPlannerPtr) :
  forall kept, kept ++ rest <> [] -> deleteTebDetours_loop threshold kept rest <> [].
Proof.
  induction rest as [|it rest' IH]; intros kept Hne; simpl.
  - now rewrite app_nil_r in Hne.
  - destruct ((1 <? length kept + S (length rest'))%nat
              && detectDetoursBackwards (obj it) threshold) eqn:E.
    + apply IH. apply andb_true_iff in E. destruct E as [E _].
      apply Nat.ltb_lt in E. intros Hnil.
      apply (f_equal (@length _)) in Hnil. rewrite length_app in Hnil. simpl in Hnil. lia.
    + apply IH. destruct kept; discriminate.
Qed.

Lemma deleteTebDetours_loop_kept (threshold : double) (rest : list TebOptimalPlannerPtr) :
  forall kept t, In t kept -> In t (deleteTebDetours_loop threshold kept rest).
Proof.
  induction rest as [|it rest' IH]; intros kept t Hin; simpl; [assumption|].
  destruct (_ && _); apply IH; [assumption | apply in_or_app; now left].
Qed.

Lemma deleteTebDetours_loop_incl (threshold : double) (rest : list TebOptimalPlannerPtr) :
  forall kept t, In t (deleteTebDetours_loop threshold kept rest) -> In t kept \/ In t rest.
Proof.
  induction rest as [|it rest' IH]; intros kept t Hin; simpl in Hin; [now left|].
  destruct (_ && _).
  - destruct (IH _ _ Hin); [now left | right; now right].
  - destruct (IH _ _ Hin) as [Hk | Hr]; [| right; now right].
    apply in_app_or in Hk. destruct Hk as [Hk | [<- | []]]; [now left | right; now left].
Qed.

Lemma deleteTebDetours_loop_no_detour (threshold : double) (rest : list TebOptimalPlannerPtr) :
  forall kept t, In t rest -> detectDetoursBackwards (obj t) threshold = false ->
                 In t (deleteTebDetours_loop threshold kept rest).
Proof.
  induction rest as [|it rest' IH]; intros kept t Hin Hd; simpl; [destruct Hin|].
  destruct Hin as [<- | Hin].
  - rewrite Hd, andb_false_r. apply deleteTebDetours_loop_kept.
    apply in_or_app. right. now left.
  - destruct (_ && _); now apply IH.
Qed.

(** C6.  [deleteTebDetours(threshold)] never empties a pool that holds a
    candidate, and keeps a sole candidate whatever its detour test says.  It
    adds nothing and removes only candidates that test as detours.  At the
    step that visits a candidate, with [kept] before it and [rest] after it
    in the pool, the candidate is kept when there is no other candidate, and
    removed when there is one and it tests as a detour. *)
Theorem deleteTebDetours_keeps_a_candidate (threshold : double) (p : HomotopyClassPlanner) :
  (tebs_ p <> [] -> tebs_ (deleteTebDetours threshold p) <> [])
  /\ (forall t, tebs_ p = [t] -> tebs_ (deleteTebDetours threshold p) = [t])
  /\ (forall t, In t (tebs_ (deleteTebDetours threshold p)) -> In t (tebs_ p))
  /\ (forall t, In t (tebs_ p) -> detectDetoursBackwards (obj t) threshold = false ->
                In t (tebs_ (deleteTebDetours threshold p)))
  /\ (forall it_teb kept rest,
        (kept ++ rest = [] ->
           deleteTebDetours_loop threshold kept (it_teb :: rest)
           = deleteTebDetours_loop threshold (kept ++ [it_teb]) rest)
        /\ (kept ++ rest <> [] -> detectDetoursBackwards (obj it_teb) threshold = true ->
              deleteTebDetours_loop threshold kept (it_teb :: rest)
              = deleteTebDetours_loop threshold kept rest)).
Proof.
  unfold deleteTebDetours; simpl. repeat apply conj.
  - intros Hne. now apply deleteTebDetours_loop_nonempty.
  - intros t ->. reflexivity.
  - intros t Hin. apply deleteTebDetours_loop_incl in Hin. now destruct Hin.
  - intros t. apply deleteTebDetours_loop_no_detour.
  - intros it_teb kept rest. split.
    + intros Hnil. apply app_eq_nil in Hnil. destruct Hnil as [-> ->]. reflexivity.
    + intros Hne Hd. rewrite Hd, andb_true_r.
      replace (1 <? length kept + S (length rest))%nat with true; [reflexivity|].
      symmetry. apply Nat.ltb_lt.
      destruct kept; destruct rest; simpl; try lia. now elim Hne.
Qed.

(** Two detours: the first is removed, the second, then alone, is kept. *)
Example deleteTebDetours_two_detours :
  let a := example_teb 0 [(0, 0); (10, 0)] 3 true in
  let b := example_teb 1 [(0, 0); (10, 0)] 2 true in
  tebs_ (deleteTebDetours 0 (example_planner example_cfg [] [a; b])) = [b].
Proof. vm_compute. reflexivity. Qed.

(** ** Command and feasibility *)

(** C7.  When the accessor of the best candidate yields null, the velocity
    command is the zero vector; when the stored best candidate is null, the
    trajectory is reported infeasible, whatever the costmap, the footprint,
    the radii and the look-ahead index, and no pose is handed to the
    costmap.  Selection on an empty pool leaves both null, and the detour
    cleanup that follows in [plan] does not change that. *)
Theorem no_best_candidate_zero_command_infeasible (p : HomotopyClassPlanner) :
  (bestTeb p = None -> getVelocityCommand p = Vector2d_Zero)
  /\ (best_teb_ p = None ->
      forall costmap_model footprint_spec inscribed_radius circumscribed_radius look_ahead_idx,
        isTrajectoryFeasible costmap_model footprint_spec inscribed_radius
          circumscribed_radius look_ahead_idx p = ([], Some false))
  /\ (tebs_ p = [] ->
      forall threshold,
        let p' := deleteTebDetours threshold (snd (selectBestTeb p)) in
        fst (selectBestTeb p) = None
        /\ best_teb_ p' = None
        /\ bestTeb p' = None
        /\ getVelocityCommand p' = Vector2d_Zero
        /\ forall costmap_model footprint_spec inscribed_radius circumscribed_radius
                  look_ahead_idx,
             isTrajectoryFeasible costmap_model footprint_spec inscribed_radius
               circumscribed_radius look_ahead_idx p' = ([], Some false)).
Proof.
  split; [| split].
  - intros Hnone. unfold getVelocityCommand. now rewrite Hnone.
  - intros Hnone. intros. unfold isTrajectoryFeasible. now rewrite Hnone.
  - intros Hnil threshold.
    unfold selectBestTeb, deleteTebDetours, getVelocityCommand, bestTeb, isTrajectoryFeasible.
    cbn. rewrite Hnil. cbn. repeat split; reflexivity.
Qed.

Lemma to_unsigned_small (z : Z) : (0 <= z < 2 ^ 32)%Z -> to_unsigned z = z.
Proof. intros Hz. unfold to_unsigned. now apply Z.mod_small. Qed.

Lemma to_int_small (z : Z) : (- 2 ^ 31 <= z < 2 ^ 31)%Z -> to_int z = z.
Proof. intros Hz. unfold to_int. rewrite Z.mod_small; lia. Qed.

(** The loop of [isTrajectoryFeasible] on the poses from index [i] on, when
    the poses up to index [bound] exist. *)
Lemma isTrajectoryFeasible_loop_spec (costmap_model : CostmapModel)
    (footprint_spec : list Vector2d) (inscribed_radius circumscribed_radius : double)
    (bound : Z) (from_i : list PoseSE2) :
  forall i : Z,
    (0 <= i <= bound + 1)%Z -> (bound < 2 ^ 31)%Z ->
    (bound - i + 1 <= Z.of_nat (length from_i))%Z ->
    let c := pose_cost costmap_model footprint_spec inscribed_radius circumscribed_radius in
    let window := firstn (Z.to_nat (bound - i + 1)) from_i in
    let run := isTrajectoryFeasible_loop costmap_model footprint_spec inscribed_radius
                 circumscribed_radius bound i from_i in
    (Forall (fun pose => 0 <= c pose) window /\ run = (window, Some true))
    \/ (exists pre bad post,
          window = pre ++ bad :: post
          /\ Forall (fun pose => 0 <= c pose) pre
          /\ c bad < 0
          /\ run = (pre ++ [bad], Some false)).
Proof.
  induction from_i as [|pose rest IH]; intros i Hi Hb Hlen c window run;
    subst window run; simpl isTrajectoryFeasible_loop.
  - simpl in Hlen. replace (i <=? bound)%Z with false by (symmetry; apply Z.leb_gt; lia).
    left. rewrite firstn_nil. split; [constructor | reflexivity].
  - destruct (i <=? bound)%Z eqn:E.
    + apply Z.leb_le in E.
      replace (Z.to_nat (bound - i + 1)) with (S (Z.to_nat (bound - (i + 1) + 1))) by lia.
      rewrite firstn_cons.
      change (costmap_model (vx (position pose)) (vy (position pose)) (theta pose)
                footprint_spec inscribed_radius circumscribed_radius) with (c pose).
      destruct (ltb (c pose) 0) eqn:Ec.
      * apply ltb_lt in Ec. right. exists [], pose, (firstn (Z.to_nat (bound - (i + 1) + 1)) rest).
        split; [reflexivity | split; [constructor | split; [exact Ec | reflexivity]]].
      * apply ltb_ge in Ec. rewrite to_unsigned_small by lia.
        assert (Hlen' : (bound - (i + 1) + 1 <= Z.of_nat (length rest))%Z)
          by (simpl length in Hlen; lia).
        destruct (IH (i + 1)%Z ltac:(lia) Hb Hlen')
          as [[Hsafe ->] | (pre & bad & post & Hw & Hsafe & Hbad & ->)].
        -- left. split; [constructor; assumption | reflexivity].
        -- right. exists (pose :: pre), bad, post. rewrite Hw.
           split; [reflexivity | split; [now constructor | split; [exact Hbad | reflexivity]]].
    + apply Z.leb_gt in E. replace (Z.to_nat (bound - i + 1)) with O by lia.
      left. split; [constructor | reflexivity].
Qed.

(** C10.  With a best candidate whose trajectory holds at least one pose (and
    fewer than 2^31, so that the count fits an [int]), a look-ahead index
    that is negative or not less than the number of poses is replaced by the
    last pose index.  The poses at the indices 0 to that index are handed to
    the costmap in order: if none of them has a negative cost, all of them
    are evaluated and the result is true; otherwise the evaluation stops at
    the first pose of negative cost and the result is false. *)
Theorem isTrajectoryFeasible_walks_look_ahead_window
    (costmap_model : CostmapModel) (footprint_spec : list Vector2d)
    (inscribed_radius circumscribed_radius : double) (look_ahead_idx : Z)
    (p : HomotopyClassPlanner) (best : TebOptimalPlannerPtr) :
  best_teb_ p = Some best ->
  (1 <= sizePoses (obj best))%nat ->
  (Z.of_nat (sizePoses (obj best)) < 2 ^ 31)%Z ->
  let c := pose_cost costmap_model footprint_spec inscribed_radius circumscribed_radius in
  let window := look_ahead_window look_ahead_idx (obj best) in
  let run := isTrajectoryFeasible costmap_model footprint_spec inscribed_radius
               circumscribed_radius look_ahead_idx p in
  ((look_ahead_idx < 0 \/ Z.of_nat (sizePoses (obj best)) <= look_ahead_idx)%Z ->
     clamped_look_ahead look_ahead_idx (obj best) = (Z.of_nat (sizePoses (obj best)) - 1)%Z)
  /\ ((0 <= look_ahead_idx < Z.of_nat (sizePoses (obj best)))%Z ->
        clamped_look_ahead look_ahead_idx (obj best) = look_ahead_idx)
  /\ length window = Z.to_nat (clamped_look_ahead look_ahead_idx (obj best) + 1)
  /\ ((Forall (fun pose => 0 <= c pose) window /\ run = (window, Some true))
      \/ (exists pre bad post,
            window = pre ++ bad :: post
            /\ Forall (fun pose => 0 <= c pose) pre
            /\ c bad < 0
            /\ run = (pre ++ [bad], Some false))).
Proof.
  intros Hbest Hone Hint c window run.
  set (n := Z.of_nat (sizePoses (obj best))) in *.
  assert (Hclamp : (0 <= clamped_look_ahead look_ahead_idx (obj best) < n)%Z).
  { unfold clamped_look_ahead. fold n.
    destruct (look_ahead_idx <? 0)%Z eqn:E1; simpl; [lia|].
    destruct (n <=? look_ahead_idx)%Z eqn:E2; [lia|].
    apply Z.ltb_ge in E1. apply Z.leb_gt in E2. lia. }
  split; [| split; [| split]].
  - intros Hout. unfold clamped_look_ahead. fold n.
    destruct Hout as [Hneg | Hbig].
    + apply Z.ltb_lt in Hneg. now rewrite Hneg.
    + apply Z.leb_le in Hbig. rewrite Hbig. now rewrite orb_true_r.
  - intros [Hlo Hhi]. unfold clamped_look_ahead. fold n.
    apply Z.ltb_ge in Hlo. apply Z.leb_gt in Hhi. now rewrite Hlo, Hhi.
  - subst window. unfold look_ahead_window. rewrite firstn_length_le; [reflexivity|].
    unfold sizePoses in n. lia.
  - subst run window c. unfold isTrajectoryFeasible, look_ahead_window. rewrite Hbest.
    fold n. rewrite to_int_small by lia.
    change (if ((look_ahead_idx <? 0) || (n <=? look_ahead_idx))%Z
            then (n - 1)%Z else look_ahead_idx)
      with (clamped_look_ahead look_ahead_idx (obj best)).
    set (k := clamped_look_ahead look_ahead_idx (obj best)) in *.
    rewrite to_unsigned_small by lia.
    replace (Z.to_nat (k + 1)) with (Z.to_nat (k - 0 + 1)) by lia.
    apply isTrajectoryFeasible_loop_spec; [lia | lia |].
    unfold sizePoses in n. lia.
Qed.

(** A run of C10: three poses at x = 0, 5 and 10, a costmap whose cost is
    7 - x, and the look-ahead index -1. *)
Lemma isTrajectoryFeasible_walks_look_ahead_window_witness :
  let best := example_teb 0 [(0, 0); (5, 0); (10, 0)] 1 false in
  let p := set_best_teb (Some best) (example_planner example_cfg [] [best]) in
  let costmap_model : CostmapModel := fun x _ _ _ _ _ => 7 - x in
  let c := pose_cost costmap_model [] 0 0 in
  let window := look_ahead_window (-1) (obj best) in
  let run := isTrajectoryFeasible costmap_model [] 0 0 (-1) p in
  (((-1 < 0)%Z \/ (Z.of_nat (sizePoses (obj best)) <= -1)%Z ->
      clamped_look_ahead (-1) (obj best) = (Z.of_nat (sizePoses (obj best)) - 1)%Z)
   /\ ((0 <= -1 < Z.of_nat (sizePoses (obj best)))%Z ->
         clamped_look_ahead (-1) (obj best) = (-1)%Z)
   /\ length window = Z.to_nat (clamped_look_ahead (-1) (obj best) + 1)
   /\ ((Forall (fun pose => 0 <= c pose) window /\ run = (window, Some true))
       \/ (exists pre bad post,
             window = pre ++ bad :: post
             /\ Forall (fun pose => 0 <= c pose) pre
             /\ c bad < 0
             /\ run = (pre ++ [bad], Some false))))
  /\ run = (window, Some false).
Proof.
  intros best p costmap_model c window run. split.
  - apply (isTrajectoryFeasible_walks_look_ahead_window costmap_model [] 0 0 (-1) p best).
    + reflexivity.
    + vm_compute. lia.
    + vm_compute. reflexivity.
  - vm_compute. reflexivity.
Defined.

(** A best candidate with no pose: the clamped index is -1, which as an
    unsigned bound admits the counter 0, and [Pose(0)] is asked for beyond
    the end of the trajectory. *)
Example isTrajectoryFeasible_no_pose :
  let best := example_teb 0 [] 1 false in
  let p := set_best_teb (Some best) (example_planner example_cfg [] [best]) in
  isTrajectoryFeasible (fun x _ _ _ _ _ => 7 - x) [] 0 0 3 p = ([], None).
Proof. vm_compute. reflexivity. Qed.

(** ** The re-analysis pass *)

Section Reanalysis.

Context {W : World}.

Lemma erase_incl (it : TebOptimalPlannerPtr) (tebs : list TebOptimalPlannerPtr) :
  forall t, In t (erase it tebs) -> In t tebs.
Proof.
  induction tebs as [|x rest IH]; intros t Hin; simpl in *; [assumption|].
  destruct (addr x =? addr it)%nat; [now right|].
  destruct Hin as [<- | Hin]; [now left | right; now apply IH].
Qed.

Lemma erase_length (it : TebOptimalPlannerPtr) (tebs : list TebOptimalPlannerPtr) :
  (length (erase it tebs) <= length tebs)%nat.
Proof.
  induction tebs as [|x rest IH]; simpl; [lia|].
  destruct (addr x =? addr it)%nat; simpl; lia.
Qed.

Lemma analyze_loop_incl (delete_detours : bool) (cfg : TebConfig) (obstacles : list Obstacle)
    (rest : list TebOptimalPlannerPtr) :
  forall kept teb_candidates t,
    In t (fst (analyze_loop delete_detours cfg obstacles kept teb_candidates rest)) ->
    In t kept \/ (In t rest /\ too_close obstacles (obj t) = false).
Proof.
  induction rest as [|it rest' IH]; intros kept cands t Hin; simpl in Hin; [now left|].
  destruct (_ && _ && _).
  - destruct (IH _ _ _ Hin) as [Hk | [Hr Hc]]; [now left | right; split; [now right | assumption]].
  - destruct (too_close obstacles (obj it)) eqn:E.
    + destruct (IH _ _ _ Hin) as [Hk | [Hr Hc]];
        [now left | right; split; [now right | assumption]].
    + destruct (IH _ _ _ Hin) as [Hk | [Hr Hc]].
      * apply in_app_or in Hk. destruct Hk as [Hk | [<- | []]]; [now left|].
        right. split; [now left | assumption].
      * right. split; [now right | assumption].
Qed.

Lemma dedup_loop_incl (fuel : nat) :
  forall cand_i tebs teb_candidates tebs' teb_candidates',
    dedup_loop fuel cand_i tebs teb_candidates = Some (tebs', teb_candidates') ->
    forall t, In t tebs' -> In t tebs.
Proof.
  induction fuel as [|fuel IH]; intros i tebs cands tebs' cands' Hrun t Hin;
    simpl in Hrun; [discriminate|].
  destruct (nth_error cands i) as [ci|]; [| injection Hrun as <- <-; assumption].
  destruct (find_if _ cands) as [j|]; [| eapply IH; eassumption].
  destruct (j =? i)%nat; [eapply IH; eassumption|].
  destruct (nth_error cands j) as [cj|]; [| eapply IH; eassumption].
  destruct (ltb _ _); (eapply erase_incl; eapply IH; eassumption).
Qed.

Lemma register_loop_frame (teb_candidates : TebCandidateType) :
  forall p,
    cfg_ (register_loop teb_candidates p) = cfg_ p
    /\ obstacles_ (register_loop teb_candidates p) = obstacles_ p
    /\ best_teb_ (register_loop teb_candidates p) = best_teb_ p
    /\ (forall t, In t (tebs_ (register_loop teb_candidates p)) -> In t (tebs_ p))
    /\ (length (tebs_ (register_loop teb_candidates p)) <= length (tebs_ p))%nat
    /\ initialized_ (register_loop teb_candidates p) = initialized_ p.
Proof.
  induction teb_candidates as [|c rest IH]; intros p; simpl.
  - repeat split; auto.
  - unfold addNewHSignatureIfNew.
    destruct (known _ (h_signatures_ p) (snd c)).
    + destruct (IH (set_tebs (erase (fst c) (tebs_ p)) p))
        as (H1 & H2 & H3 & H4 & H5 & H6).
      simpl in *. repeat split; auto.
      * intros t Hin. eapply erase_incl. now apply H4.
      * pose proof (erase_length (fst c) (tebs_ p)). lia.
    + destruct (IH (set_h_signatures (h_signatures_ p ++ [snd c]) p))
        as (H1 & H2 & H3 & H4 & H5 & H6).
      simpl in *. repeat split; auto.
Qed.

(** The second loop ends within the fuel that [renewAndAnalyzeOldTebs] gives
    it: every round either moves [cand_i] forward or erases a candidate. *)

Lemma erase_at_length {A : Type} (v : list A) :
  forall k, (k < length v)%nat -> length (erase_at k v) = (length v - 1)%nat.
Proof.
  induction v as [|x rest IH]; intros k Hk; simpl in *; [lia|].
  destruct k as [|k]; simpl; [lia|]. rewrite IH by lia. lia.
Qed.

Lemma find_if_lt {A : Type} (f : A -> bool) (v : list A) :
  forall j, find_if f v = Some j -> (j < length v)%nat.
Proof.
  induction v as [|x rest IH]; intros j Hj; simpl in *; [discriminate|].
  destruct (f x); [injection Hj as <-; lia|].
  destruct (find_if f rest) as [j'|]; [| discriminate].
  injection Hj as <-. specialize (IH j' eq_refl). lia.
Qed.

Lemma dedup_loop_total (fuel : nat) :
  forall cand_i tebs teb_candidates,
    (cand_i <= length teb_candidates)%nat ->
    (2 * length teb_candidates < fuel + cand_i)%nat ->
    exists r, dedup_loop fuel cand_i tebs teb_candidates = Some r.
Proof.
  induction fuel as [|fuel IH]; intros i tebs cands Hi Hfuel; [lia|].
  cbn [dedup_loop].
  destruct (nth_error cands i) as [ci|] eqn:Eci; [| eauto].
  assert (Hlt : (i < length cands)%nat) by (apply nth_error_Some; congruence).
  destruct (find_if _ cands) as [j|] eqn:Ej; [| apply IH; lia].
  apply find_if_lt in Ej.
  destruct (j =? i)%nat; [apply IH; lia|].
  destruct (nth_error cands j) as [cj|]; [| apply IH; lia].
  destruct (ltb _ _); apply IH; rewrite erase_at_length by assumption; lia.
Qed.

Lemma dedup_loop_enough_fuel (tebs : list TebOptimalPlannerPtr)
    (teb_candidates : TebCandidateType) :
  dedup_loop (2 * length teb_candidates + 1) 0 tebs teb_candidates <> None.
Proof.
  destruct (dedup_loop_total (2 * length teb_candidates + 1) 0 tebs teb_candidates)
    as [r Hr]; [lia | lia | congruence].
Qed.

(** After the pass, with either value of [delete_detours], every candidate
    of the pool was in the pool before and is not too close to an
    obstacle. *)
Lemma renewAndAnalyzeOldTebs_incl (delete_detours : bool) (p : HomotopyClassPlanner) :
  forall t, In t (tebs_ (renewAndAnalyzeOldTebs delete_detours p)) ->
            In t (tebs_ p) /\ too_close (obstacles_ p) (obj t) = false.
Proof.
  intros t Hin. unfold renewAndAnalyzeOldTebs in Hin.
  cbn [set_h_signatures cfg_ obstacles_ tebs_] in Hin.
  destruct (analyze_loop delete_detours (cfg_ p) (obstacles_ p) [] [] (tebs_ p))
    as [tebs1 cands] eqn:Ea.
  assert (H1 : In t tebs1).
  { destruct (dedup_loop (2 * length cands + 1) 0 tebs1 cands) as [[tebs2 cands2]|] eqn:Ed.
    - apply register_loop_frame in Hin. cbn [set_tebs tebs_] in Hin.
      eapply dedup_loop_incl; eassumption.
    - apply register_loop_frame in Hin. exact Hin. }
  pose proof (analyze_loop_incl delete_detours (cfg_ p) (obstacles_ p) (tebs_ p) [] [] t) as Ha.
  rewrite Ea in Ha. destruct (Ha H1) as [[] | Hr]. exact Hr.
Qed.

(** The pass with [delete_detours = false] does not depend on the detour
    answers of the candidates. *)

Lemma find_if_map {A B : Type} (f : A -> B) (g : B -> bool) (v : list A) :
  find_if g (map f v) = find_if (fun x => g (f x)) v.
Proof.
  induction v as [|x rest IH]; simpl; [reflexivity|].
  destruct (g (f x)); [reflexivity | now rewrite IH].
Qed.

Lemma erase_at_map {A B : Type} (f : A -> B) (v : list A) :
  forall k, erase_at k (map f v) = map f (erase_at k v).
Proof.
  induction v as [|x rest IH]; intros [|k]; simpl; try reflexivity.
  now rewrite IH.
Qed.

Lemma erase_forget_detour (it : TebOptimalPlannerPtr) (tebs : list TebOptimalPlannerPtr) :
  erase (forget_detour it) (map forget_detour tebs) = map forget_detour (erase it tebs).
Proof.
  induction tebs as [|x rest IH]; simpl; [reflexivity|].
  destruct (addr x =? addr it)%nat; simpl; [reflexivity | now rewrite IH].
Qed.

Lemma analyze_loop_forget (cfg : TebConfig) (obstacles : list Obstacle)
    (rest : list TebOptimalPlannerPtr) :
  forall kept teb_candidates,
    analyze_loop false cfg obstacles (map forget_detour kept)
      (map forget_candidate teb_candidates) (map forget_detour rest)
    = (map forget_detour (fst (analyze_loop false cfg obstacles kept teb_candidates rest)),
       map forget_candidate (snd (analyze_loop false cfg obstacles kept teb_candidates rest))).
Proof.
  induction rest as [|it rest' IH]; intros kept cands; [reflexivity|].
  cbn [map analyze_loop andb].
  change (too_close obstacles (obj (forget_detour it))) with (too_close obstacles (obj it)).
  destruct (too_close obstacles (obj it)); [apply IH|].
  change (poses (obj (forget_detour it))) with (poses (obj it)).
  specialize (IH (kept ++ [it])
                 (cands ++ [(it, calculateHSignature
                     (map getCplxFromVertexPosePtr (poses (obj it))) obstacles
                     (h_signature_prescaler cfg))])).
  rewrite !map_app in IH. exact IH.
Qed.

Lemma dedup_loop_forget (fuel : nat) :
  forall cand_i tebs teb_candidates,
    dedup_loop fuel cand_i (map forget_detour tebs) (map forget_candidate teb_candidates)
    = option_map (fun r => (map forget_detour (fst r), map forget_candidate (snd r)))
                 (dedup_loop fuel cand_i tebs teb_candidates).
Proof.
  induction fuel as [|fuel IH]; intros i tebs cands; [reflexivity|].
  cbn [dedup_loop]. rewrite nth_error_map.
  destruct (nth_error cands i) as [ci|]; [| reflexivity].
  cbn [option_map]. rewrite find_if_map.
  change (fun x => compareH (forget_candidate x) (snd (forget_candidate ci)))
    with (fun c : TebOptimalPlannerPtr * cplx => compareH c (snd ci)).
  destruct (find_if (fun c => compareH c (snd ci)) cands) as [j|]; [| apply IH].
  destruct (j =? i)%nat; [apply IH|].
  rewrite nth_error_map.
  destruct (nth_error cands j) as [cj|]; [| apply IH].
  cbn [option_map].
  change (getCurrentCost (obj (fst (forget_candidate ci))))
    with (getCurrentCost (obj (fst ci))).
  change (getCurrentCost (obj (fst (forget_candidate cj))))
    with (getCurrentCost (obj (fst cj))).
  change (fst (forget_candidate ci)) with (forget_detour (fst ci)).
  change (fst (forget_candidate cj)) with (forget_detour (fst cj)).
  rewrite !erase_forget_detour, !erase_at_map.
  destruct (ltb _ _); apply IH.
Qed.

Lemma register_loop_forget (teb_candidates : TebCandidateType) :
  forall p,
    register_loop (map forget_candidate teb_candidates) (forget_detours p)
    = forget_detours (register_loop teb_candidates p).
Proof.
  induction teb_candidates as [|c rest IH]; intros p; [reflexivity|].
  cbn [map register_loop]. unfold addNewHSignatureIfNew.
  change (h_signatures_ (forget_detours p)) with (h_signatures_ p).
  change (cfg_ (forget_detours p)) with (cfg_ p).
  change (snd (forget_candidate c)) with (snd c).
  destruct (known (h_signature_threshold (cfg_ p)) (h_signatures_ p) (snd c)).
  - change (fst (forget_candidate c)) with (forget_detour (fst c)).
    change (tebs_ (forget_detours p)) with (map forget_detour (tebs_ p)).
    rewrite erase_forget_detour.
    exact (IH (set_tebs (erase (fst c) (tebs_ p)) p)).
  - exact (IH (set_h_signatures (h_signatures_ p ++ [snd c]) p)).
Qed.

Lemma renewAndAnalyzeOldTebs_forget (p : HomotopyClassPlanner) :
  renewAndAnalyzeOldTebs false (forget_detours p)
  = forget_detours (renewAndAnalyzeOldTebs false p).
Proof.
  unfold renewAndAnalyzeOldTebs.
  change (cfg_ (set_h_signatures [] (forget_detours p))) with (cfg_ p).
  change (obstacles_ (set_h_signatures [] (forget_detours p))) with (obstacles_ p).
  change (tebs_ (set_h_signatures [] (forget_detours p))) with (map forget_detour (tebs_ p)).
  change (cfg_ (set_h_signatures [] p)) with (cfg_ p).
  change (obstacles_ (set_h_signatures [] p)) with (obstacles_ p).
  change (tebs_ (set_h_signatures [] p)) with (tebs_ p).
  pose proof (analyze_loop_forget (cfg_ p) (obstacles_ p) (tebs_ p) [] []) as Ha.
  cbn [map] in Ha. rewrite Ha.
  destruct (analyze_loop false (cfg_ p) (obstacles_ p) [] [] (tebs_ p)) as [tebs1 cands].
  cbn [fst snd]. rewrite length_map, dedup_loop_forget.
  destruct (dedup_loop (2 * length cands + 1) 0 tebs1 cands) as [[tebs2 cands2]|];
    cbn [option_map fst snd]; rewrite <- register_loop_forget; reflexivity.
Qed.

End Reanalysis.

(** C3, as the code has it.  [exploreHomotopyClassesAndInitTebs] runs the
    pass with [delete_detours = false].  After that pass every candidate of
    the pool was in the pool before and is not too close to any obstacle:
    a candidate whose trajectory pose nearest to the centroid of some
    obstacle is closer than 0.03 to that obstacle is dropped.  The detour
    test plays no part: the pass yields the same pool, candidate for
    candidate, when the detour answers of all candidates are replaced by
    "no". *)
Theorem reanalysis_before_exploration_drops_close_candidates_only
    {W : World} (p : HomotopyClassPlanner) :
  (forall fuel start goal dist_to_obst hp_threshold,
      exploreHomotopyClassesAndInitTebs fuel start goal dist_to_obst hp_threshold p
      = let q := renewAndAnalyzeOldTebs false p in
        if simple_exploration (cfg_ q)
        then createGraph fuel start goal dist_to_obst
               (neqb (obstacle_heading_threshold (cfg_ q)) 0) q
        else createProbRoadmapGraph fuel start goal dist_to_obst
               (neqb (obstacle_heading_threshold (cfg_ q)) 0) q)
  /\ (forall t, In t (tebs_ (renewAndAnalyzeOldTebs false p)) ->
             In t (tebs_ p) /\ too_close (obstacles_ p) (obj t) = false)
  /\ (forall t, In t (tebs_ p) -> too_close (obstacles_ p) (obj t) = true ->
                ~ In t (tebs_ (renewAndAnalyzeOldTebs false p)))
  /\ renewAndAnalyzeOldTebs false (forget_detours p)
     = forget_detours (renewAndAnalyzeOldTebs false p).
Proof.
  split; [reflexivity | split; [| split]].
  - apply renewAndAnalyzeOldTebs_incl.
  - intros t _ Hclose Hin. apply renewAndAnalyzeOldTebs_incl in Hin.
    destruct Hin as [_ Hfar]. congruence.
  - apply renewAndAnalyzeOldTebs_forget.
Qed.

(** C3 as stated fails: two candidates in different classes, both backwards
    detours for every threshold and both far from the only obstacle, are
    still in the pool after the pass that exploration runs, and after the
    exploration itself. *)
Lemma reanalysis_before_exploration_keeps_detours :
  let a := example_teb 0 [(0, 0); (5, 3); (10, 0)] 3 true in
  let b := example_teb 1 [(0, 0); (5, -3); (10, 0)] 2 true in
  let p := example_planner example_cfg [example_obstacle (mkVector2d 5 0) 2] [a; b] in
  detectDetoursBackwards (obj a) (cos (obstacle_heading_threshold (cfg_ p))) = true
  /\ detectDetoursBackwards (obj b) (cos (obstacle_heading_threshold (cfg_ p))) = true
  /\ tebs_ (renewAndAnalyzeOldTebs false p) = [a; b]
  /\ option_map tebs_
       (exploreHomotopyClassesAndInitTebs 10 (mkPoseSE2 (mkVector2d 0 0) 0)
          (mkPoseSE2 (mkVector2d 10 0) 0) 1 (1 # 10) p)
     = Some [a; b].
Proof.
  repeat split; vm_compute; reflexivity.
Qed.

(** A candidate that is too close to an obstacle is dropped by the pass. *)
Example reanalysis_drops_close_candidate :
  let a := example_teb 0 [(0, 0); (5, 3); (10, 0)] 3 false in
  let b := example_teb 1 [(0, 0); (5, -3); (10, 0)] 2 false in
  let near_b := mkObstacle (mkVector2d 5 (-3))
                  (fun point => if Qeq_bool (vy point) (-3) then 1 # 100 else 2)
                  (fun _ _ _ => false) (fun _ _ => false) in
  tebs_ (renewAndAnalyzeOldTebs false (example_planner example_cfg [near_b] [a; b])) = [a].
Proof. vm_compute. reflexivity. Qed.

(** ** The path search *)

Section Exploration.

Context {W : World}.

Lemma explored_from_refl (p : HomotopyClassPlanner) : explored_from p p.
Proof. unfold explored_from. repeat split; auto. Qed.

Lemma explored_from_trans (p q r : HomotopyClassPlanner) :
  explored_from p q -> explored_from q r -> explored_from p r.
Proof.
  unfold explored_from.
  intros (A1 & A2 & A3 & A4 & A5 & A6 & A7 & A8) (B1 & B2 & B3 & B4 & B5 & B6 & B7 & B8).
  repeat split; try congruence; [lia |].
  intros Hint Hb. apply B8; [rewrite A1; exact Hint | now apply A8].
Qed.

(** The first loop adds at most one candidate, and none to a pool that has
    reached the maximum. *)
Lemma examine_adjacent_explored (its visited : list nat) (goal : nat)
    (start_orientation goal_orientation : double) (p : HomotopyClassPlanner) :
  ((max_number_classes (cfg_ p) < 2 ^ 31)%Z -> pool_bounded p ->
   (Z.of_nat (length (tebs_ p)) < max_number_classes (cfg_ p))%Z) ->
  explored_from p (examine_adjacent its visited goal start_orientation goal_orientation p).
Proof.
  intros Hroom. induction its as [|it rest IH]; simpl.
  - apply explored_from_refl.
  - destruct (is_visited visited it); [exact IH|].
    destruct (it =? goal)%nat; [| exact IH].
    unfold addNewHSignatureIfNew. destruct (known _ _ _).
    + apply explored_from_refl.
    + unfold explored_from, pool_bounded, addAndInitNewTeb. simpl.
      rewrite length_app. simpl. repeat split; auto; try lia.
      intros Hint Hb. specialize (Hroom Hint Hb). lia.
Qed.

Lemma recurse_adjacent_explored
    (recursion : list nat -> HomotopyClassPlanner -> option HomotopyClassPlanner)
    (visited : list nat) (goal : nat) :
  (forall v q q', recursion v q = Some q' -> explored_from q q') ->
  forall its q q',
    recurse_adjacent recursion its visited goal q = Some q' -> explored_from q q'.
Proof.
  intros Hrec. induction its as [|it rest IH]; intros q q' Hrun; simpl in Hrun.
  - injection Hrun as <-. apply explored_from_refl.
  - destruct (is_visited visited it || (it =? goal)%nat); [now apply IH|].
    destruct (recursion (visited ++ [it]) q) as [q1|] eqn:E; [| discriminate].
    apply (explored_from_trans _ _ _ (Hrec _ _ _ E)). now apply IH.
Qed.

(** What a run of [DepthFirst] changes. *)
Lemma DepthFirst_explored (fuel : nat) (g : HcGraph) (goal : nat)
    (start_orientation goal_orientation : double) :
  forall visited p p',
    DepthFirst fuel g visited goal start_orientation goal_orientation p = Some p' ->
    explored_from p p'.
Proof.
  induction fuel as [|fuel IH]; intros visited p p' Hrun; simpl in Hrun; [discriminate|].
  destruct (max_number_classes (cfg_ p) <=? to_int (Z.of_nat (length (tebs_ p))))%Z eqn:E.
  - injection Hrun as <-. apply explored_from_refl.
  - apply Z.leb_gt in E.
    set (its := adjacent_vertices (last visited O) g) in *.
    assert (H1 : explored_from p
                   (examine_adjacent its visited goal start_orientation goal_orientation p)).
    { apply examine_adjacent_explored. intros Hint Hb. unfold pool_bounded in Hb.
      rewrite to_int_small in E; lia. }
    apply (explored_from_trans _ _ _ H1).
    eapply recurse_adjacent_explored; [| exact Hrun].
    intros v q q'. apply IH.
Qed.

(** A pool that has reached the maximum stops the search at once. *)
Lemma DepthFirst_saturated (fuel : nat) (g : HcGraph) (visited : list nat) (goal : nat)
    (start_orientation goal_orientation : double) (p : HomotopyClassPlanner) :
  (max_number_classes (cfg_ p) <= Z.of_nat (length (tebs_ p)) < 2 ^ 31)%Z ->
  DepthFirst (S fuel) g visited goal start_orientation goal_orientation p = Some p.
Proof.
  intros Hsat. simpl. rewrite to_int_small by lia.
  replace (_ <=? _)%Z with true by (symmetry; apply Z.leb_le; lia). reflexivity.
Qed.

(** The search ends: with a path without repetition inside a graph of [n]
    vertices, the depth of the recursion is at most [n - length visited]. *)

Lemma is_visited_In (visited : list nat) (v : nat) :
  is_visited visited v = true <-> In v visited.
Proof.
  unfold is_visited. rewrite existsb_exists. split.
  - intros (x & Hin & Heq). apply Nat.eqb_eq in Heq. now subst.
  - intros Hin. exists v. split; [assumption | apply Nat.eqb_refl].
Qed.

Lemma adjacent_vertices_closed (g : HcGraph) (u v : nat) :
  graph_closed g -> In v (adjacent_vertices u g) -> (v < length (vertices g))%nat.
Proof.
  intros Hg Hin. unfold adjacent_vertices in Hin.
  apply in_map_iff in Hin. destruct Hin as (e & <- & He).
  apply filter_In in He. apply Hg. tauto.
Qed.

Lemma NoDup_bounded_length (l : list nat) (n : nat) :
  NoDup l -> (forall x, In x l -> (x < n)%nat) -> (length l <= n)%nat.
Proof.
  intros Hnd Hlt. rewrite <- (length_seq n 0).
  apply NoDup_incl_length; [assumption|].
  intros x Hx. apply in_seq. specialize (Hlt x Hx). lia.
Qed.

Lemma recurse_adjacent_total
    (recursion : list nat -> HomotopyClassPlanner -> option HomotopyClassPlanner)
    (visited : list nat) (goal n : nat) :
  (forall it q, (it < n)%nat -> ~ In it visited ->
                exists q', recursion (visited ++ [it]) q = Some q') ->
  forall its, (forall it, In it its -> (it < n)%nat) ->
  forall q, exists q', recurse_adjacent recursion its visited goal q = Some q'.
Proof.
  intros Hrec. induction its as [|it rest IH]; intros Hits q; simpl.
  - now exists q.
  - assert (Hrest : forall x, In x rest -> (x < n)%nat) by (intros x Hx; apply Hits; now right).
    destruct (is_visited visited it) eqn:E; simpl; [now apply IH|].
    destruct (it =? goal)%nat; [now apply IH|].
    destruct (Hrec it q) as [q1 ->].
    + apply Hits. now left.
    + intros Hin. apply is_visited_In in Hin. congruence.
    + now apply IH.
Qed.

Lemma DepthFirst_total (g : HcGraph) (goal : nat)
    (start_orientation goal_orientation : double) :
  graph_closed g ->
  forall fuel visited p,
    NoDup visited ->
    (forall v, In v visited -> (v < length (vertices g))%nat) ->
    (length (vertices g) < fuel + length visited)%nat ->
    exists p', DepthFirst fuel g visited goal start_orientation goal_orientation p = Some p'.
Proof.
  intros Hg. induction fuel as [|fuel IH]; intros visited p Hnd Hlt Hfuel.
  - pose proof (NoDup_bounded_length _ _ Hnd Hlt). simpl in Hfuel. lia.
  - simpl. destruct (_ <=? _)%Z; [now exists p|].
    apply recurse_adjacent_total with (n := length (vertices g)).
    + intros it q Hit Hnew. apply IH.
      * apply NoDup_app; [assumption | constructor; [intros [] | constructor] |].
        intros x Hx [<- | []]. contradiction.
      * intros v Hv. apply in_app_or in Hv. destruct Hv as [Hv | [<- | []]]; auto.
      * rewrite length_app. simpl. lia.
    + intros it Hit. eapply adjacent_vertices_closed; eassumption.
Qed.

End Exploration.

(** ** The graph builders *)

Section Builders.

Context {W : World}.

Lemma insert_keypoints_spec (start : PoseSE2) (diff normal : Vector2d)
    (limit_obstacle_heading : bool) (obstacles : list Obstacle) :
  forall g min_dist nearest_obstacle,
    let r := insert_keypoints start diff normal limit_obstacle_heading obstacles
               g min_dist nearest_obstacle in
    vertices (fst (fst r)) = vertices g ++ keypoints start diff normal obstacles
    /\ edges (fst (fst r)) = edges g.
Proof.
  induction obstacles as [|obst rest IH]; intros g min_dist nearest; simpl.
  - now rewrite app_nil_r.
  - unfold forward_of_start.
    destruct (div_ltb (dot (vsub (getCentroid obst) (position start)) diff)
                (norm (vsub (getCentroid obst) (position start))) (1 # 10)); simpl.
    + apply IH.
    + destruct (limit_obstacle_heading && _);
        match goal with
        | |- context [insert_keypoints _ _ _ _ _ ?g' ?m ?n] =>
            destruct (IH g' m n) as [Hv He]; rewrite Hv, He
        end; simpl; rewrite <- !app_assoc; auto.
Qed.

Lemma keypoints_length (start : PoseSE2) (diff normal : Vector2d) (obstacles : list Obstacle) :
  (length (keypoints start diff normal obstacles) <= 2 * length obstacles)%nat.
Proof.
  induction obstacles as [|obst rest IH]; simpl; [lia|].
  rewrite length_app. destruct (forward_of_start start diff obst); simpl; lia.
Qed.

Lemma insert_edges_spec (admissible : nat -> nat -> bool) (g : HcGraph) :
  vertices (insert_edges admissible g) = vertices g
  /\ forall e, In e (edges (insert_edges admissible g)) ->
               In e (edges g) \/ (snd e < length (vertices g))%nat.
Proof.
  unfold insert_edges. set (n := length (vertices g)).
  assert (Hinner : forall it_i js g0,
            (forall j, In j js -> (j < n)%nat) ->
            let g1 := fold_left (fun g it_j => if admissible it_i it_j
                                               then add_edge it_i it_j g else g) js g0 in
            vertices g1 = vertices g0
            /\ forall e, In e (edges g1) -> In e (edges g0) \/ (snd e < n)%nat).
  { intros it_i js. induction js as [|j js IH]; intros g0 Hjs; simpl.
    - split; [reflexivity | now left].
    - assert (Hjs' : forall x, In x js -> (x < n)%nat) by (intros x Hx; apply Hjs; now right).
      destruct (admissible it_i j).
      + destruct (IH (add_edge it_i j g0) Hjs') as [Hv He]. split; [exact Hv|].
        intros e Hin. destruct (He e Hin) as [H0 | H0]; [| now right].
        simpl in H0. apply in_app_or in H0. destruct H0 as [H0 | [<- | []]]; [now left|].
        right. simpl. apply Hjs. now left.
      + now apply IH. }
  assert (Houter : forall rows g0,
            let g1 := fold_left
                        (fun g it_i =>
                           fold_left (fun g it_j => if admissible it_i it_j
                                                    then add_edge it_i it_j g else g)
                                     (seq 0 n) g) rows g0 in
            vertices g1 = vertices g0
            /\ forall e, In e (edges g1) -> In e (edges g0) \/ (snd e < n)%nat).
  { induction rows as [|i rows IH]; intros g0; simpl.
    - split; [reflexivity | now left].
    - destruct (Hinner i (seq 0 n) g0) as [Hv He].
      { intros j Hj. apply in_seq in Hj. lia. }
      match goal with
      | |- context [fold_left _ rows ?g'] => destruct (IH g') as [Hv' He']
      end.
      split; [congruence|].
      intros e Hin. destruct (He' e Hin) as [H0 | H0]; [| now right]. now apply He. }
  apply Houter.
Qed.

(** [createGraph] up to the call of [DepthFirst]: it returns at once with an
    empty graph when the goal is within the tolerance; otherwise the search
    starts at vertex 0 on a graph with the vertices start, keypoints, goal. *)
Lemma createGraph_spec (fuel : nat) (start goal : PoseSE2) (dist_to_obst : double)
    (limit_obstacle_heading : bool) (p : HomotopyClassPlanner) :
  let diff := vsub (position goal) (position start) in
  let normal := vscale dist_to_obst (normalize (mkVector2d (- vy diff) (vx diff))) in
  if ltb (norm diff) (xy_goal_tolerance (cfg_ p))
  then createGraph fuel start goal dist_to_obst limit_obstacle_heading p
       = Some (clearGraph p)
  else exists g,
      vertices g = position start
                   :: keypoints start (normalize diff) normal (obstacles_ p)
                   ++ [position goal]
      /\ graph_closed g
      /\ createGraph fuel start goal dist_to_obst limit_obstacle_heading p
         = DepthFirst fuel g [O] (length (vertices g) - 1) (theta start) (theta goal)
             (set_graph g p).
Proof.
  intros diff normal. unfold createGraph.
  change (cfg_ (clearGraph p)) with (cfg_ p).
  change (obstacles_ (clearGraph p)) with (obstacles_ p).
  fold diff. destruct (ltb (norm diff) (xy_goal_tolerance (cfg_ p))); [reflexivity|].
  fold normal. cbn [clearGraph set_graph graph_ add_vertex empty_graph vertices edges length app].
  destruct (insert_keypoints_spec start (normalize diff) normal limit_obstacle_heading
              (obstacles_ p) (mkGraph [position start] []) DBL_MAX (O, O)) as [Hv He].
  destruct (insert_keypoints start (normalize diff) normal limit_obstacle_heading
              (obstacles_ p) (mkGraph [position start] []) DBL_MAX (O, O))
    as [[g1 min_dist] nearest_obstacle].
  cbn [fst] in Hv, He. cbn [vertices edges] in Hv, He.
  set (g2 := mkGraph (vertices g1 ++ [position goal]) (edges g1)).
  set (adm := createGraph_edge (cfg_ p) (obstacles_ p) start (normalize diff) dist_to_obst
                limit_obstacle_heading O min_dist nearest_obstacle g2).
  destruct (insert_edges_spec adm g2) as [Hv3 He3].
  exists (insert_edges adm g2). split; [| split].
  - rewrite Hv3. unfold g2. cbn [vertices]. rewrite Hv. reflexivity.
  - intros e Hin. rewrite Hv3. destruct (He3 e Hin) as [H0 | H0]; [| exact H0].
    unfold g2 in H0. cbn [edges] in H0. rewrite He in H0. destruct H0.
  - rewrite Hv3.
    replace (length (vertices g2) - 1)%nat with (length (vertices g1)).
    + reflexivity.
    + unfold g2. cbn [vertices]. rewrite length_app. cbn [length]. lia.
Qed.

Lemma createGraph_total (fuel : nat) (start goal : PoseSE2) (dist_to_obst : double)
    (limit_obstacle_heading : bool) (p : HomotopyClassPlanner) :
  (2 * length (obstacles_ p) + 2 <= fuel)%nat ->
  exists p', createGraph fuel start goal dist_to_obst limit_obstacle_heading p = Some p'.
Proof.
  intros Hfuel.
  pose proof (createGraph_spec fuel start goal dist_to_obst limit_obstacle_heading p) as Hs.
  cbv zeta in Hs. destruct (ltb _ _); [eauto|].
  destruct Hs as (g & Hv & Hg & ->).
  apply DepthFirst_total; [assumption | | |].
  - constructor; [intros [] | constructor].
  - intros v [<- | []]. rewrite Hv. cbn [length]. lia.
  - rewrite Hv. cbn [length]. rewrite length_app. cbn [length].
    pose proof (keypoints_length start
                  (normalize (vsub (position goal) (position start)))
                  (vscale dist_to_obst
                     (normalize (mkVector2d (- vy (vsub (position goal) (position start)))
                                            (vx (vsub (position goal) (position start))))))
                  (obstacles_ p)).
    lia.
Qed.

End Builders.

(** C8, as the code has it.  With enough fuel for the path search,
    [createGraph] returns, and the vertices of the graph it leaves are: none
    when the goal is within the goal tolerance of the start; otherwise the
    start, then for every obstacle that lies forward of the start, in the
    order of the obstacles, the two keypoints centroid + normal and
    centroid - normal, where normal is the unit normal of the start-goal
    direction scaled by the clearance, and then the goal.  An obstacle that
    does not lie forward of the start has no keypoint vertex.  An obstacle
    lies forward of the start when the comparison
    [start2obst.dot(diff)/dist < 0.1] is false: its offset from the start,
    projected on the start-goal direction and divided by its distance, is at
    least 0.1, or its distance is zero and the projection is not negative
    (the quotient then is NaN or +infinity). *)
Theorem createGraph_two_keypoints_per_obstacle_forward_of_start
    {W : World} (fuel : nat) (start goal : PoseSE2) (dist_to_obst : double)
    (limit_obstacle_heading : bool) (p : HomotopyClassPlanner) :
  (2 * length (obstacles_ p) + 2 <= fuel)%nat ->
  let diff := vsub (position goal) (position start) in
  let normal := vscale dist_to_obst (normalize (mkVector2d (- vy diff) (vx diff))) in
  exists p',
    createGraph fuel start goal dist_to_obst limit_obstacle_heading p = Some p'
    /\ vertices (graph_ p')
       = (if ltb (norm diff) (xy_goal_tolerance (cfg_ p)) then []
          else position start
               :: flat_map
                    (fun obst =>
                       if forward_of_start start (normalize diff) obst
                       then [vadd (getCentroid obst) normal; vsub (getCentroid obst) normal]
                       else [])
                    (obstacles_ p)
               ++ [position goal])
    /\ forall obst,
         let start2obst := vsub (getCentroid obst) (position start) in
         forward_of_start start (normalize diff) obst = true
         <-> (norm start2obst == 0 /\ 0 <= dot start2obst (normalize diff))
             \/ (~ norm start2obst == 0
                 /\ 1 # 10 <= dot start2obst (normalize diff) / norm start2obst).
Proof.
  intros Hfuel diff normal.
  destruct (createGraph_total fuel start goal dist_to_obst limit_obstacle_heading p Hfuel)
    as [p' Hrun].
  exists p'. split; [assumption|]. split.
  - pose proof (createGraph_spec fuel start goal dist_to_obst limit_obstacle_heading p) as Hs.
    cbv zeta in Hs. fold diff in Hs. fold normal in Hs.
    destruct (ltb (norm diff) (xy_goal_tolerance (cfg_ p))).
    + rewrite Hs in Hrun. injection Hrun as <-. reflexivity.
    + destruct Hs as (g & Hv & Hg & Heq). rewrite Heq in Hrun.
      apply DepthFirst_explored in Hrun. destruct Hrun as (_ & _ & _ & -> & _).
      exact Hv.
  - intros obst start2obst. unfold forward_of_start, div_ltb. fold start2obst.
    rewrite negb_true_iff.
    destruct (Qeq_bool (norm start2obst) 0) eqn:E.
    + apply Qeq_bool_iff in E. rewrite ltb_ge. split.
      * intros Hd. left. now split.
      * intros [[_ Hd] | [Hn _]]; [exact Hd | contradiction].
    + apply Qeq_bool_neq in E. rewrite ltb_ge. split.
      * intros Hd. right. now split.
      * intros [[Hn _] | [_ Hd]]; [contradiction | exact Hd].
Qed.

(** A run of C8: one obstacle at (5,0) between the start (0,0) and the goal
    (10,0), with clearance 1; the graph has four vertices. *)
Lemma createGraph_two_keypoints_witness :
  let start := mkPoseSE2 (mkVector2d 0 0) 0 in
  let goal := mkPoseSE2 (mkVector2d 10 0) 0 in
  let p := example_planner example_cfg [example_obstacle (mkVector2d 5 0) 2] [] in
  let diff := vsub (position goal) (position start) in
  let normal := vscale 1 (normalize (mkVector2d (- vy diff) (vx diff))) in
  (exists p',
     createGraph 4 start goal 1 true p = Some p'
     /\ vertices (graph_ p')
        = (if ltb (norm diff) (xy_goal_tolerance (cfg_ p)) then []
           else position start
                :: flat_map
                     (fun obst =>
                        if forward_of_start start (normalize diff) obst
                        then [vadd (getCentroid obst) normal; vsub (getCentroid obst) normal]
                        else [])
                     (obstacles_ p)
                ++ [position goal])
     /\ forall obst,
          let start2obst := vsub (getCentroid obst) (position start) in
          forward_of_start start (normalize diff) obst = true
          <-> (norm start2obst == 0 /\ 0 <= dot start2obst (normalize diff))
              \/ (~ norm start2obst == 0
                  /\ 1 # 10 <= dot start2obst (normalize diff) / norm start2obst))
  /\ option_map (fun q => length (vertices (graph_ q))) (createGraph 4 start goal 1 true p)
     = Some 4%nat.
Proof.
  intros start goal p diff normal. split.
  - apply (createGraph_two_keypoints_per_obstacle_forward_of_start 4 start goal 1 true p).
    vm_compute. lia.
  - vm_compute. reflexivity.
Defined.

(** C8 as stated fails: an obstacle at (-5,0), behind the start (0,0) of a
    path to the goal (10,0), gets no keypoint vertex; the graph holds the
    start and the goal only. *)
Lemma createGraph_obstacle_behind_start_no_keypoints :
  let start := mkPoseSE2 (mkVector2d 0 0) 0 in
  let goal := mkPoseSE2 (mkVector2d 10 0) 0 in
  let p := example_planner example_cfg [example_obstacle (mkVector2d (-5) 0) 2] [] in
  length (obstacles_ p) = 1%nat
  /\ option_map (fun q => vertices (graph_ q)) (createGraph 4 start goal 1 true p)
     = Some [position start; position goal].
Proof.
  split; vm_compute; reflexivity.
Qed.

(** An obstacle whose centroid is the start: its distance is zero, the
    quotient is 0/0, the comparison with 0.1 fails and the obstacle gets its
    two keypoints: the graph has four vertices. *)
Example createGraph_obstacle_at_start_two_keypoints :
  let start := mkPoseSE2 (mkVector2d 0 0) 0 in
  let goal := mkPoseSE2 (mkVector2d 10 0) 0 in
  let p := example_planner example_cfg [example_obstacle (mkVector2d 0 0) 2] [] in
  forward_of_start start (normalize (vsub (position goal) (position start)))
    (example_obstacle (mkVector2d 0 0) 2) = true
  /\ option_map (fun q => length (vertices (graph_ q))) (createGraph 4 start goal 1 true p)
     = Some 4%nat.
Proof.
  split; vm_compute; reflexivity.
Qed.

(** ** The passes of a cycle and the pool bound *)

Section Cycle.

Context {W : World}.

Lemma cycle_step_refl (p : HomotopyClassPlanner) : cycle_step p p.
Proof. unfold cycle_step. repeat split; auto. Qed.

Lemma cycle_step_trans (p q r : HomotopyClassPlanner) :
  cycle_step p q -> cycle_step q r -> cycle_step p r.
Proof.
  unfold cycle_step. intros (A1 & A2 & A3 & A4) (B1 & B2 & B3 & B4).
  repeat split; try congruence.
  intros Hint Hb. apply B4; [rewrite A1; exact Hint | now apply A4].
Qed.

(** A pass that leaves configuration, obstacles and flag alone and does not
    enlarge the pool is a step of the cycle. *)
Lemma cycle_step_shrink (p q : HomotopyClassPlanner) :
  cfg_ q = cfg_ p -> obstacles_ q = obstacles_ p -> initialized_ q = initialized_ p ->
  (length (tebs_ q) <= length (tebs_ p))%nat ->
  cycle_step p q.
Proof.
  intros H1 H2 H3 Hlen. unfold cycle_step, pool_bounded. rewrite H1.
  repeat split; auto. intros _ Hb. lia.
Qed.

Lemma explored_from_cycle_step (p q : HomotopyClassPlanner) :
  explored_from p q -> cycle_step p q.
Proof. unfold explored_from, cycle_step. tauto. Qed.

Lemma analyze_loop_length (delete_detours : bool) (cfg : TebConfig) (obstacles : list Obstacle)
    (rest : list TebOptimalPlannerPtr) :
  forall kept teb_candidates,
    (length (fst (analyze_loop delete_detours cfg obstacles kept teb_candidates rest))
     <= length kept + length rest)%nat.
Proof.
  induction rest as [|it rest' IH]; intros kept cands; simpl; [lia|].
  destruct (_ && _ && _); [specialize (IH kept cands); lia|].
  destruct (too_close obstacles (obj it)); [specialize (IH kept cands); lia|].
  match goal with
  | |- context [analyze_loop _ _ _ ?k ?c rest'] => specialize (IH k c)
  end.
  rewrite length_app in IH. simpl in IH. lia.
Qed.

Lemma dedup_loop_length (fuel : nat) :
  forall cand_i tebs teb_candidates tebs' teb_candidates',
    dedup_loop fuel cand_i tebs teb_candidates = Some (tebs', teb_candidates') ->
    (length tebs' <= length tebs)%nat.
Proof.
  induction fuel as [|fuel IH]; intros i tebs cands tebs' cands' Hrun;
    simpl in Hrun; [discriminate|].
  destruct (nth_error cands i) as [ci|]; [| injection Hrun as <- <-; lia].
  destruct (find_if _ cands) as [j|]; [| eapply IH; eassumption].
  destruct (j =? i)%nat; [eapply IH; eassumption|].
  destruct (nth_error cands j) as [cj|]; [| eapply IH; eassumption].
  destruct (ltb _ _); apply IH in Hrun;
    match type of Hrun with
    | (_ <= length (erase ?c tebs))%nat => pose proof (erase_length c tebs)
    end; lia.
Qed.

Lemma renewAndAnalyzeOldTebs_step (delete_detours : bool) (p : HomotopyClassPlanner) :
  cycle_step p (renewAndAnalyzeOldTebs delete_detours p)
  /\ best_teb_ (renewAndAnalyzeOldTebs delete_detours p) = best_teb_ p
  /\ (length (tebs_ (renewAndAnalyzeOldTebs delete_detours p)) <= length (tebs_ p))%nat.
Proof.
  unfold renewAndAnalyzeOldTebs.
  cbn [set_h_signatures cfg_ obstacles_ tebs_].
  pose proof (analyze_loop_length delete_detours (cfg_ p) (obstacles_ p) (tebs_ p) [] []) as Ha.
  destruct (analyze_loop delete_detours (cfg_ p) (obstacles_ p) [] [] (tebs_ p))
    as [tebs1 cands].
  cbn [fst length] in Ha.
  assert (Hd : exists tebs2 cands2,
             match dedup_loop (2 * length cands + 1) 0 tebs1 cands with
             | Some r => r
             | None => (tebs1, cands)
             end = (tebs2, cands2) /\ (length tebs2 <= length tebs1)%nat).
  { destruct (dedup_loop (2 * length cands + 1) 0 tebs1 cands) as [[tebs2 cands2]|] eqn:Ed.
    - exists tebs2, cands2. split; [reflexivity|]. eapply dedup_loop_length; eassumption.
    - exists tebs1, cands. split; [reflexivity | lia]. }
  destruct Hd as (tebs2 & cands2 & -> & Hlen).
  destruct (register_loop_frame cands2
              (set_tebs tebs2 (set_h_signatures [] p))) as (H1 & H2 & H3 & _ & H5 & H6).
  cbn [set_tebs set_h_signatures cfg_ obstacles_ best_teb_ tebs_ initialized_]
    in H1, H2, H3, H5, H6.
  assert (Hlen' : (length (tebs_ (register_loop cands2
                     (set_tebs tebs2 (set_h_signatures [] p)))) <= length (tebs_ p))%nat) by lia.
  split; [| split; assumption].
  apply cycle_step_shrink; auto.
Qed.

Lemma createGraph_step (fuel : nat) (start goal : PoseSE2) (dist_to_obst : double)
    (limit_obstacle_heading : bool) (p p' : HomotopyClassPlanner) :
  createGraph fuel start goal dist_to_obst limit_obstacle_heading p = Some p' ->
  cycle_step p p' /\ best_teb_ p' = best_teb_ p.
Proof.
  intros Hrun.
  pose proof (createGraph_spec fuel start goal dist_to_obst limit_obstacle_heading p) as Hs.
  cbv zeta in Hs. destruct (ltb _ _).
  - rewrite Hs in Hrun. injection Hrun as <-.
    split; [apply cycle_step_shrink; auto | reflexivity].
  - destruct Hs as (g & _ & _ & Heq). rewrite Heq in Hrun.
    apply DepthFirst_explored in Hrun. split.
    + apply cycle_step_trans with (q := set_graph g p).
      * apply cycle_step_shrink; auto.
      * now apply explored_from_cycle_step.
    + destruct Hrun as (_ & _ & _ & _ & -> & _). reflexivity.
Qed.

Lemma sample_vertices_spec (fuel : nat) (obstacles : list Obstacle) (dist_to_obst : double)
    (area_origin : Vector2d) (phi start_goal_dist area_width : double) :
  forall count g rnd g' rnd',
    sample_vertices fuel count obstacles dist_to_obst area_origin phi start_goal_dist
      area_width g rnd = Some (g', rnd') ->
    length (vertices g') = (length (vertices g) + count)%nat /\ edges g' = edges g.
Proof.
  induction count as [|count IH]; intros g rnd g' rnd' Hrun; simpl in Hrun.
  - injection Hrun as <- <-. split; [lia | reflexivity].
  - destruct (sample_loop _ _ _ _ _ _ _ _) as [[sample rnd1]|]; [| discriminate].
    apply IH in Hrun. cbn [add_vertex snd vertices edges] in Hrun.
    rewrite length_app in Hrun. cbn [length] in Hrun. split; [lia | tauto].
Qed.



(** [createProbRoadmapGraph] up to the call of [DepthFirst]. *)
Lemma createProbRoadmapGraph_spec (fuel : nat) (start goal : PoseSE2) (dist_to_obst : double)
    (limit_obstacle_heading : bool) (p : HomotopyClassPlanner) :
  let diff := vsub (position goal) (position start) in
  let normal := normalize (mkVector2d (- vy diff) (vx diff)) in
  let area_width := roadmap_graph_area_width (cfg_ p) in
  if ltb (norm diff) (xy_goal_tolerance (cfg_ p))
  then createProbRoadmapGraph fuel start goal dist_to_obst limit_obstacle_heading p
       = Some (clearGraph p)
  else
    match sample_vertices fuel (roadmap_sample_count (cfg_ p)) (obstacles_ p) dist_to_obst
            (vsub (position start) (vscale ((1 # 2) * area_width) normal))
            (atan2 (vy diff) (vx diff)) (norm diff) area_width
            (mkGraph [position start] []) (rnd_generator_ p) with
    | None =>
        createProbRoadmapGraph fuel start goal dist_to_obst limit_obstacle_heading p = None
    | Some (_, rnd) =>
        exists g,
          length (vertices g) = (roadmap_sample_count (cfg_ p) + 2)%nat
          /\ graph_closed g
          /\ createProbRoadmapGraph fuel start goal dist_to_obst limit_obstacle_heading p
             = DepthFirst fuel g [O] (length (vertices g) - 1) (theta start) (theta goal)
                 (set_rnd_generator rnd (set_graph g p))
    end.
Proof.
  intros diff normal area_width. unfold createProbRoadmapGraph.
  change (cfg_ (clearGraph p)) with (cfg_ p).
  change (obstacles_ (clearGraph p)) with (obstacles_ p).
  change (rnd_generator_ (clearGraph p)) with (rnd_generator_ p).
  fold diff. destruct (ltb (norm diff) (xy_goal_tolerance (cfg_ p))); [reflexivity|].
  fold normal. fold area_width.
  cbn [clearGraph set_graph graph_ add_vertex empty_graph vertices edges length app].
  fold (roadmap_sample_count (cfg_ p)).
  destruct (sample_vertices _ _ _ _ _ _ _ _ _ _) as [[g1 rnd]|] eqn:Es; [| reflexivity].
  apply sample_vertices_spec in Es. cbn [vertices edges length] in Es.
  destruct Es as [Hv He].
  set (g2 := mkGraph (vertices g1 ++ [position goal]) (edges g1)).
  set (adm := createProbRoadmapGraph_edge (cfg_ p) (obstacles_ p) (normalize diff)
                dist_to_obst g2).
  destruct (insert_edges_spec adm g2) as [Hv3 He3].
  assert (Hlen : length (vertices g2) = (roadmap_sample_count (cfg_ p) + 2)%nat).
  { unfold g2. cbn [vertices]. rewrite length_app. cbn [length]. lia. }
  exists (insert_edges adm g2). split; [| split].
  - now rewrite Hv3.
  - intros e Hin. rewrite Hv3. destruct (He3 e Hin) as [H0 | H0]; [| exact H0].
    unfold g2 in H0. cbn [edges] in H0. rewrite He in H0. destruct H0.
  - rewrite Hv3.
    replace (length (vertices g2) - 1)%nat with (length (vertices g1)).
    + reflexivity.
    + unfold g2. cbn [vertices]. rewrite length_app. cbn [length]. lia.
Qed.

Lemma createProbRoadmapGraph_step (fuel : nat) (start goal : PoseSE2) (dist_to_obst : double)
    (limit_obstacle_heading : bool) (p p' : HomotopyClassPlanner) :
  createProbRoadmapGraph fuel start goal dist_to_obst limit_obstacle_heading p = Some p' ->
  cycle_step p p' /\ best_teb_ p' = best_teb_ p.
Proof.
  intros Hrun.
  pose proof (createProbRoadmapGraph_spec fuel start goal dist_to_obst
                limit_obstacle_heading p) as Hs.
  cbv zeta in Hs. destruct (ltb _ _).
  - rewrite Hs in Hrun. injection Hrun as <-.
    split; [apply cycle_step_shrink; auto | reflexivity].
  - destruct (sample_vertices _ _ _ _ _ _ _ _ _ _) as [[g1 rnd]|]; [| congruence].
    destruct Hs as (g & _ & _ & Heq). rewrite Heq in Hrun.
    apply DepthFirst_explored in Hrun. split.
    + apply cycle_step_trans with (q := set_rnd_generator rnd (set_graph g p)).
      * apply cycle_step_shrink; auto.
      * now apply explored_from_cycle_step.
    + destruct Hrun as (_ & _ & _ & _ & -> & _). reflexivity.
Qed.



(** *** [exploreHomotopyClassesAndInitTebs] *)

Lemma exploreHomotopyClassesAndInitTebs_step (fuel : nat) (start goal : PoseSE2)
    (dist_to_obst hp_threshold : double) (p p' : HomotopyClassPlanner) :
  exploreHomotopyClassesAndInitTebs fuel start goal dist_to_obst hp_threshold p = Some p' ->
  cycle_step p p' /\ best_teb_ p' = best_teb_ p.
Proof.
  unfold exploreHomotopyClassesAndInitTebs. intros Hrun.
  destruct (renewAndAnalyzeOldTebs_step false p) as (Hr & Hb & _).
  destruct (simple_exploration (cfg_ (renewAndAnalyzeOldTebs false p)));
    [apply createGraph_step in Hrun | apply createProbRoadmapGraph_step in Hrun];
    destruct Hrun as [Hs Hb']; (split; [eapply cycle_step_trans; eassumption | congruence]).
Qed.

Lemma exploreHomotopyClassesAndInitTebs_simple_total (fuel : nat) (start goal : PoseSE2)
    (dist_to_obst hp_threshold : double) (p : HomotopyClassPlanner) :
  simple_exploration (cfg_ p) = true ->
  (2 * length (obstacles_ p) + 2 <= fuel)%nat ->
  exists p',
    exploreHomotopyClassesAndInitTebs fuel start goal dist_to_obst hp_threshold p = Some p'.
Proof.
  intros Hsimple Hfuel. unfold exploreHomotopyClassesAndInitTebs.
  destruct (renewAndAnalyzeOldTebs_step false p) as ((Hc & Ho & _) & _).
  rewrite Hc, Hsimple. apply createGraph_total. now rewrite Ho.
Qed.




(** *** [plan] *)

Lemma for_each_teb_step (f : TebOptimalPlanner -> TebOptimalPlanner)
    (p : HomotopyClassPlanner) :
  cycle_step p (for_each_teb f p).
Proof.
  apply cycle_step_shrink; try reflexivity.
  unfold for_each_teb. cbn [set_best_teb set_tebs tebs_]. now rewrite length_map.
Qed.

Lemma deleteTebDetours_loop_length (threshold : double) (rest : list TebOptimalPlannerPtr) :
  forall kept,
    (length (deleteTebDetours_loop threshold kept rest) <= length kept + length rest)%nat.
Proof.
  induction rest as [|it rest' IH]; intros kept; simpl; [lia|].
  destruct (_ && _).
  - specialize (IH kept). lia.
  - specialize (IH (kept ++ [it])). rewrite length_app in IH. simpl in IH. lia.
Qed.

Lemma deleteTebDetours_step (threshold : double) (p : HomotopyClassPlanner) :
  cycle_step p (deleteTebDetours threshold p).
Proof.
  apply cycle_step_shrink; try reflexivity.
  unfold deleteTebDetours. cbn [set_tebs tebs_].
  apply (deleteTebDetours_loop_length threshold (tebs_ p) []).
Qed.

Lemma finish_cycle_step (q : HomotopyClassPlanner) : cycle_step q (finish_cycle q).
Proof.
  unfold finish_cycle.
  eapply cycle_step_trans; [| apply deleteTebDetours_step].
  eapply cycle_step_trans; [| apply cycle_step_shrink; reflexivity].
  unfold optimizeAllTEBs. destruct (enable_multithreading (cfg_ q)); apply for_each_teb_step.
Qed.

Lemma plan_unfold (fuel : nat) (start goal : PoseSE2) (start_vel : Vector2d)
    (free_goal_vel : bool) (p : HomotopyClassPlanner) :
  plan fuel start goal start_vel free_goal_vel p
  = if negb (initialized_ p) then AssertionFailed
    else match exploreHomotopyClassesAndInitTebs fuel start goal
                 (min_obstacle_dist (cfg_ p)) (1 # 10)
                 (updateAllTEBs (Some start) (Some goal) (Some start_vel) p) with
         | None => OutOfFuel
         | Some q => Returned (true, finish_cycle q)
         end.
Proof. reflexivity. Qed.

Lemma updateAllTEBs_step (start goal : option PoseSE2) (start_velocity : option Vector2d)
    (p : HomotopyClassPlanner) :
  cycle_step p (updateAllTEBs start goal start_velocity p).
Proof. apply for_each_teb_step. Qed.

Lemma plan_step (fuel : nat) (start goal : PoseSE2) (start_vel : Vector2d)
    (free_goal_vel : bool) (p : HomotopyClassPlanner) (r : bool * HomotopyClassPlanner) :
  plan fuel start goal start_vel free_goal_vel p = Returned r ->
  fst r = true /\ cycle_step p (snd r).
Proof.
  rewrite plan_unfold. destruct (negb (initialized_ p)); [discriminate|].
  destruct (exploreHomotopyClassesAndInitTebs _ _ _ _ _ _) as [q|] eqn:E; [| discriminate].
  intros [= <-]. split; [reflexivity|]. cbn [snd].
  apply exploreHomotopyClassesAndInitTebs_step in E. destruct E as [E _].
  eapply cycle_step_trans; [apply updateAllTEBs_step |].
  eapply cycle_step_trans; [exact E | apply finish_cycle_step].
Qed.




End Cycle.

(** The pool bound over the life of a planner: it holds in a new planner
    and after every cycle. *)
Lemma pool_bounded_after_cycles {W : World} (fuel : nat)
    (inputs : list (PoseSE2 * PoseSE2 * Vector2d * bool))
    (cfg : TebConfig) (obstacles : list Obstacle) (p' : HomotopyClassPlanner) :
  (0 <= max_number_classes cfg < 2 ^ 31)%Z ->
  run_cycles fuel inputs (initialize cfg obstacles) = Returned p' ->
  (Z.of_nat (length (tebs_ p')) <= max_number_classes cfg)%Z.
Proof.
  intros Hint Hrun.
  assert (Hstep : forall p, run_cycles fuel inputs p = Returned p' -> cycle_step p p').
  { clear Hrun. induction inputs as [|[[[start goal] vel] free] rest IH]; intros p Hrun;
      simpl in Hrun.
    - injection Hrun as <-. apply cycle_step_refl.
    - destruct (plan fuel start goal vel free p) as [r| |] eqn:E; try discriminate.
      apply plan_step in E. destruct E as [_ E].
      eapply cycle_step_trans; [exact E | now apply IH]. }
  destruct (Hstep _ Hrun) as (Hc & _ & _ & Hk). cbn [initialize cfg_] in Hc, Hk.
  unfold pool_bounded in Hk. rewrite Hc in Hk. apply Hk; [lia |].
  cbn [initialize tebs_ cfg_ length]. lia.
Qed.




(** C2.  Let the configured maximum be an [int] value and the pool hold at
    most that many candidates, as it does in a new planner and after every
    earlier cycle with this configuration.  Then the pool holds at most that
    many candidates after the exploration pass, whatever the obstacles, after
    a depth-first search on any graph from any path, and after the whole
    cycle; with the keypoint builder the exploration does end.  A search
    that is entered with a pool at or above the maximum returns at once and
    leaves the planner, its pool and its registry as they are, so that no
    branch is followed and no candidate is added. *)
Theorem pool_never_exceeds_max_number_classes {W : World} (p : HomotopyClassPlanner) :
  (max_number_classes (cfg_ p) < 2 ^ 31)%Z ->
  (pool_bounded p ->
     (forall fuel start goal dist_to_obst hp_threshold p',
         exploreHomotopyClassesAndInitTebs fuel start goal dist_to_obst hp_threshold p
         = Some p' ->
         (Z.of_nat (length (tebs_ p')) <= max_number_classes (cfg_ p))%Z)
     /\ (forall fuel g visited goal start_orientation goal_orientation p',
           DepthFirst fuel g visited goal start_orientation goal_orientation p = Some p' ->
           (Z.of_nat (length (tebs_ p')) <= max_number_classes (cfg_ p))%Z)
     /\ (forall fuel start goal start_vel free_goal_vel r,
           plan fuel start goal start_vel free_goal_vel p = Returned r ->
           (Z.of_nat (length (tebs_ (snd r))) <= max_number_classes (cfg_ p))%Z))
  /\ (simple_exploration (cfg_ p) = true ->
      forall fuel start goal dist_to_obst hp_threshold,
        (2 * length (obstacles_ p) + 2 <= fuel)%nat ->
        exists p',
          exploreHomotopyClassesAndInitTebs fuel start goal dist_to_obst hp_threshold p
          = Some p')
  /\ ((max_number_classes (cfg_ p) <= Z.of_nat (length (tebs_ p)) < 2 ^ 31)%Z ->
      forall fuel g visited goal start_orientation goal_orientation,
        DepthFirst (S fuel) g visited goal start_orientation goal_orientation p = Some p).
Proof.
  intros Hint. split; [| split].
  - intros Hb. split; [| split].
    + intros fuel start goal dist_to_obst hp_threshold p' Hrun.
      apply exploreHomotopyClassesAndInitTebs_step in Hrun.
      destruct Hrun as [(Hc & _ & _ & Hk) _]. rewrite <- Hc. now apply Hk.
    + intros fuel g visited goal so go p' Hrun.
      apply DepthFirst_explored in Hrun.
      destruct Hrun as (Hc & _ & _ & _ & _ & _ & _ & Hk). rewrite <- Hc. now apply Hk.
    + intros fuel start goal start_vel free_goal_vel r Hrun.
      apply plan_step in Hrun. destruct Hrun as [_ (Hc & _ & _ & Hk)].
      rewrite <- Hc. now apply Hk.
  - intros Hsimple fuel start goal dist_to_obst hp_threshold Hfuel.
    now apply exploreHomotopyClassesAndInitTebs_simple_total.
  - intros Hsat fuel g visited goal so go. now apply DepthFirst_saturated.
Qed.

(** A run of C2: a pool of one candidate, a maximum of two classes and a
    graph with two new classes.  The search adds one candidate and stops. *)
Lemma pool_never_exceeds_max_number_classes_witness :
  let old := example_teb 0 [(0, 0); (5, 9); (10, 0)] 3 false in
  let p := set_graph example_graph (example_planner example_cfg [] [old]) in
  ((pool_bounded p ->
      (forall fuel start goal dist_to_obst hp_threshold p',
          exploreHomotopyClassesAndInitTebs fuel start goal dist_to_obst hp_threshold p
          = Some p' ->
          (Z.of_nat (length (tebs_ p')) <= max_number_classes (cfg_ p))%Z)
      /\ (forall fuel g visited goal start_orientation goal_orientation p',
            DepthFirst fuel g visited goal start_orientation goal_orientation p = Some p' ->
            (Z.of_nat (length (tebs_ p')) <= max_number_classes (cfg_ p))%Z)
      /\ (forall fuel start goal start_vel free_goal_vel r,
            plan fuel start goal start_vel free_goal_vel p = Returned r ->
            (Z.of_nat (length (tebs_ (snd r))) <= max_number_classes (cfg_ p))%Z))
   /\ (simple_exploration (cfg_ p) = true ->
       forall fuel start goal dist_to_obst hp_threshold,
         (2 * length (obstacles_ p) + 2 <= fuel)%nat ->
         exists p',
           exploreHomotopyClassesAndInitTebs fuel start goal dist_to_obst hp_threshold p
           = Some p')
   /\ ((max_number_classes (cfg_ p) <= Z.of_nat (length (tebs_ p)) < 2 ^ 31)%Z ->
       forall fuel g visited goal start_orientation goal_orientation,
         DepthFirst (S fuel) g visited goal start_orientation goal_orientation p = Some p))
  /\ pool_bounded p
  /\ option_map (fun q => length (tebs_ q)) (DepthFirst 4 example_graph [O] 3 0 0 p)
     = Some 2%nat.
Proof.
  intros old p. split; [| split].
  - apply (pool_never_exceeds_max_number_classes p). vm_compute. reflexivity.
  - vm_compute. discriminate.
  - vm_compute. reflexivity.
Defined.

(* ================================================================== *)
(** * Further properties *)

(** ** The class registry, again *)

Lemma within_threshold_refl (threshold : double) (H : cplx) :
  0 <= threshold -> within_threshold threshold H H.
Proof.
  intros Hthr. unfold within_threshold.
  assert (Hz : forall x : Q, Qabs (x - x) <= threshold).
  { intros x. apply Qabs_Qle_condition. split; lra. }
  split; apply Hz.
Qed.

Lemma known_snoc (threshold : double) (hs : list cplx) (H : cplx) :
  0 <= threshold -> known threshold (hs ++ [H]) H = true.
Proof.
  intros Hthr. apply known_iff. exists H. split.
  - apply in_or_app. right. now left.
  - now apply within_threshold_refl.
Qed.

(** X1.  With a threshold that is not negative, a signature that was offered
    to [addNewHSignatureIfNew] is known afterwards: offering it again
    returns false and changes nothing, whether the first call added it or
    found it to be a duplicate. *)
Theorem addNewHSignatureIfNew_again_is_duplicate
    (H : cplx) (threshold : double) (p : HomotopyClassPlanner) :
  0 <= threshold ->
  addNewHSignatureIfNew H threshold (snd (addNewHSignatureIfNew H threshold p))
  = (false, snd (addNewHSignatureIfNew H threshold p)).
Proof.
  intros Hthr. unfold addNewHSignatureIfNew at 2 3.
  destruct (known threshold (h_signatures_ p) H) eqn:E; cbn [snd].
  - unfold addNewHSignatureIfNew. now rewrite E.
  - unfold addNewHSignatureIfNew. cbn [set_h_signatures h_signatures_].
    now rewrite known_snoc.
Qed.

Lemma addNewHSignatureIfNew_again_is_duplicate_witness :
  0 <= 1 # 10
  /\ addNewHSignatureIfNew (mkCplx 15 1) (1 # 10)
       (snd (addNewHSignatureIfNew (mkCplx 15 1) (1 # 10) (initialize example_cfg [])))
     = (false, snd (addNewHSignatureIfNew (mkCplx 15 1) (1 # 10) (initialize example_cfg []))).
Proof.
  split; [discriminate|].
  apply (addNewHSignatureIfNew_again_is_duplicate (mkCplx 15 1) (1 # 10)
           (initialize example_cfg [])).
  discriminate.
Defined.

Lemma known_negative_threshold (threshold : double) (hs : list cplx) (H : cplx) :
  threshold < 0 -> known threshold hs H = false.
Proof.
  intros Hthr. apply not_true_iff_false. rewrite known_iff.
  intros (h & _ & Hre & _). pose proof (Qabs_nonneg (real h - real H)). lra.
Qed.

(** X2.  With a negative threshold no signature is ever a duplicate: every
    call of [addNewHSignatureIfNew] returns true, and a sequence of calls
    appends every offered signature to the registry, repeated ones
    included. *)
Theorem addNewHSignatureIfNew_negative_threshold_keeps_all
    (threshold : double) (Hs : list cplx) (p : HomotopyClassPlanner) :
  threshold < 0 ->
  (forall H, fst (addNewHSignatureIfNew H threshold p) = true)
  /\ h_signatures_ (register_all threshold Hs p) = h_signatures_ p ++ Hs.
Proof.
  intros Hthr. split.
  - intros H. unfold addNewHSignatureIfNew. now rewrite known_negative_threshold.
  - revert p. unfold register_all.
    induction Hs as [|H Hs IH]; intros p; simpl; [now rewrite app_nil_r|].
    rewrite IH. unfold addNewHSignatureIfNew.
    rewrite known_negative_threshold by assumption.
    cbn [snd set_h_signatures h_signatures_]. now rewrite <- app_assoc.
Qed.

Lemma addNewHSignatureIfNew_negative_threshold_witness :
  -1 < 0
  /\ h_signatures_ (register_all (-1) [mkCplx 15 1; mkCplx 15 1] (initialize example_cfg []))
     = [mkCplx 15 1; mkCplx 15 1].
Proof.
  split; [reflexivity|].
  apply (addNewHSignatureIfNew_negative_threshold_keeps_all (-1)
           [mkCplx 15 1; mkCplx 15 1] (initialize example_cfg [])).
  reflexivity.
Defined.

(** ** Detour cleanup, again *)

(** The loop of [deleteTebDetours] from a state in which no kept candidate
    tests as a detour: the candidates that do not test as detours stay; when
    there is none, the last candidate stays. *)
Lemma deleteTebDetours_loop_result (threshold : double) (rest : list TebOptimalPlannerPtr) :
  forall kept d,
    (forall t, In t kept -> no_detour threshold t = true) ->
    deleteTebDetours_loop threshold kept rest
    = match kept ++ filter (no_detour threshold) rest with
      | [] => match rest with [] => [] | _ :: _ => [last rest d] end
      | stay => stay
      end.
Proof.
  induction rest as [|it rest' IH]; intros kept d Hkept.
  - simpl. rewrite app_nil_r. now destruct kept.
  - cbn [deleteTebDetours_loop filter].
    assert (Hnd : no_detour threshold it
                  = negb (detectDetoursBackwards (obj it) threshold)) by reflexivity.
    rewrite Hnd. clear Hnd.
    destruct (detectDetoursBackwards (obj it) threshold) eqn:Ed; cbn [negb].
    + rewrite andb_true_r.
      destruct (1 <? length kept + length (it :: rest'))%nat eqn:Esize.
      * rewrite (IH kept d Hkept).
        destruct (kept ++ filter (no_detour threshold) rest') eqn:Estay; [| reflexivity].
        destruct rest' as [|x rest'']; [| reflexivity].
        apply app_eq_nil in Estay. destruct Estay as [-> _].
        apply Nat.ltb_lt in Esize. simpl in Esize. lia.
      * apply Nat.ltb_ge in Esize. simpl in Esize.
        destruct kept; [| simpl in Esize; lia].
        destruct rest'; [reflexivity | simpl in Esize; lia].
    + rewrite andb_false_r. rewrite (IH (kept ++ [it]) d).
      * rewrite <- app_assoc. cbn [app].
        destruct (kept ++ it :: filter (no_detour threshold) rest') eqn:E; [| reflexivity].
        destruct kept; discriminate.
      * intros t Hin. apply in_app_or in Hin. destruct Hin as [Hin | [<- | []]]; auto.
        unfold no_detour. now rewrite Ed.
Qed.

(** X3.  What [deleteTebDetours(threshold)] leaves: when some candidate does
    not test as a detour, exactly the candidates that do not, in their
    order; when all candidates test as detours, exactly the last one. *)
Theorem deleteTebDetours_result (threshold : double) (p : HomotopyClassPlanner) :
  ((exists t, In t (tebs_ p) /\ detectDetoursBackwards (obj t) threshold = false) ->
     tebs_ (deleteTebDetours threshold p) = filter (no_detour threshold) (tebs_ p))
  /\ ((forall t, In t (tebs_ p) -> detectDetoursBackwards (obj t) threshold = true) ->
      forall front t, tebs_ p = front ++ [t] ->
                      tebs_ (deleteTebDetours threshold p) = [t]).
Proof.
  unfold deleteTebDetours. cbn [set_tebs tebs_]. split.
  - intros (t & Hin & Hd).
    rewrite (deleteTebDetours_loop_result threshold (tebs_ p) [] t) by (intros x []).
    cbn [app].
    destruct (filter (no_detour threshold) (tebs_ p)) eqn:E; [| reflexivity].
    assert (Hf : In t (filter (no_detour threshold) (tebs_ p))).
    { apply filter_In. split; [assumption|]. unfold no_detour. now rewrite Hd. }
    rewrite E in Hf. destruct Hf.
  - intros Hall front t Heq.
    rewrite (deleteTebDetours_loop_result threshold (tebs_ p) [] t) by (intros x []).
    cbn [app].
    destruct (filter (no_detour threshold) (tebs_ p)) as [|x stay] eqn:E.
    + rewrite Heq. rewrite last_last. now destruct front.
    + assert (Hx : In x (filter (no_detour threshold) (tebs_ p))) by (rewrite E; now left).
      apply filter_In in Hx. destruct Hx as [Hin Hnd].
      unfold no_detour in Hnd. rewrite (Hall x Hin) in Hnd. discriminate.
Qed.

Lemma deleteTebDetours_loop_idempotent (threshold : double)
    (tebs : list TebOptimalPlannerPtr) :
  deleteTebDetours_loop threshold [] (deleteTebDetours_loop threshold [] tebs)
  = deleteTebDetours_loop threshold [] tebs.
Proof.
  destruct tebs as [|t0 tebs'] eqn:Etebs; [reflexivity|].
  rewrite <- Etebs.
  rewrite (deleteTebDetours_loop_result threshold tebs [] t0) by (intros x []).
  cbn [app].
  destruct (filter (no_detour threshold) tebs) as [|x stay] eqn:E.
  - rewrite Etebs. reflexivity.
  - rewrite <- E.
    rewrite (deleteTebDetours_loop_result threshold _ [] t0) by (intros y []).
    cbn [app].
    assert (Hff : filter (no_detour threshold) (filter (no_detour threshold) tebs)
                  = filter (no_detour threshold) tebs).
    { clear. induction tebs as [|a l IH]; simpl; [reflexivity|].
      destruct (no_detour threshold a) eqn:Ea; simpl; [rewrite Ea, IH; reflexivity | exact IH]. }
    rewrite Hff, E. reflexivity.
Qed.

(** X4.  [deleteTebDetours] is idempotent: a second cleanup with the same
    threshold removes nothing more. *)
Theorem deleteTebDetours_idempotent (threshold : double) (p : HomotopyClassPlanner) :
  deleteTebDetours threshold (deleteTebDetours threshold p) = deleteTebDetours threshold p.
Proof.
  unfold deleteTebDetours. unfold set_tebs. simpl.
  now rewrite deleteTebDetours_loop_idempotent.
Qed.

(** ** Feasibility, again *)

(** The value of [isTrajectoryFeasible] for a best candidate with at least
    one pose: true exactly when no pose of the look-ahead window has a
    negative cost; it is never undefined. *)
Lemma isTrajectoryFeasible_value
    (costmap_model : CostmapModel) (footprint_spec : list Vector2d)
    (inscribed_radius circumscribed_radius : double) (look_ahead_idx : Z)
    (p : HomotopyClassPlanner) (best : TebOptimalPlannerPtr) :
  best_teb_ p = Some best ->
  (1 <= sizePoses (obj best))%nat ->
  (Z.of_nat (sizePoses (obj best)) < 2 ^ 31)%Z ->
  let c := pose_cost costmap_model footprint_spec inscribed_radius circumscribed_radius in
  let run := isTrajectoryFeasible costmap_model footprint_spec inscribed_radius
               circumscribed_radius look_ahead_idx p in
  (snd run = Some true \/ snd run = Some false)
  /\ (snd run = Some true <->
      Forall (fun pose => 0 <= c pose) (look_ahead_window look_ahead_idx (obj best))).
Proof.
  intros Hbest Hone Hint c run.
  set (n := Z.of_nat (sizePoses (obj best))) in *.
  assert (Hclamp : (0 <= clamped_look_ahead look_ahead_idx (obj best) < n)%Z).
  { unfold clamped_look_ahead. fold n.
    destruct (look_ahead_idx <? 0)%Z eqn:E1; simpl; [lia|].
    destruct (n <=? look_ahead_idx)%Z eqn:E2; [lia|].
    apply Z.ltb_ge in E1. apply Z.leb_gt in E2. lia. }
  assert (Hrun : (Forall (fun pose => 0 <= c pose)
                         (look_ahead_window look_ahead_idx (obj best))
                  /\ run = (look_ahead_window look_ahead_idx (obj best), Some true))
                 \/ (exists pre bad post,
                        look_ahead_window look_ahead_idx (obj best) = pre ++ bad :: post
                        /\ Forall (fun pose => 0 <= c pose) pre
                        /\ c bad < 0
                        /\ run = (pre ++ [bad], Some false))).
  { subst run c. unfold isTrajectoryFeasible, look_ahead_window. rewrite Hbest.
    fold n. rewrite to_int_small by lia.
    change (if ((look_ahead_idx <? 0) || (n <=? look_ahead_idx))%Z
            then (n - 1)%Z else look_ahead_idx)
      with (clamped_look_ahead look_ahead_idx (obj best)).
    set (k := clamped_look_ahead look_ahead_idx (obj best)) in *.
    rewrite to_unsigned_small by lia.
    replace (Z.to_nat (k + 1)) with (Z.to_nat (k - 0 + 1)) by lia.
    apply isTrajectoryFeasible_loop_spec; [lia | lia |].
    unfold sizePoses in n. lia. }
  destruct Hrun as [[Hsafe ->] | (pre & bad & post & Hw & Hsafe & Hbad & ->)]; cbn [snd].
  - split; [now left | tauto].
  - split; [now right|]. split; [discriminate|].
    intros Hall. rewrite Hw in Hall. apply Forall_app in Hall.
    destruct Hall as [_ Hall]. inversion Hall; subst. lra.
Qed.

(** X5.  Feasibility is monotone in the look-ahead: for a best candidate
    with at least one pose, a trajectory that is feasible up to an index is
    feasible up to every smaller index (indices taken after clamping, so
    that a trajectory that is feasible as a whole is feasible for every
    look-ahead index). *)
Theorem isTrajectoryFeasible_shorter_look_ahead
    (costmap_model : CostmapModel) (footprint_spec : list Vector2d)
    (inscribed_radius circumscribed_radius : double) (shorter longer : Z)
    (p : HomotopyClassPlanner) (best : TebOptimalPlannerPtr) :
  best_teb_ p = Some best ->
  (1 <= sizePoses (obj best))%nat ->
  (Z.of_nat (sizePoses (obj best)) < 2 ^ 31)%Z ->
  (clamped_look_ahead shorter (obj best) <= clamped_look_ahead longer (obj best))%Z ->
  snd (isTrajectoryFeasible costmap_model footprint_spec inscribed_radius
         circumscribed_radius longer p) = Some true ->
  snd (isTrajectoryFeasible costmap_model footprint_spec inscribed_radius
         circumscribed_radius shorter p) = Some true.
Proof.
  intros Hbest Hone Hint Hle Hlong.
  destruct (isTrajectoryFeasible_value costmap_model footprint_spec inscribed_radius
              circumscribed_radius longer p best Hbest Hone Hint) as [_ Hl].
  destruct (isTrajectoryFeasible_value costmap_model footprint_spec inscribed_radius
              circumscribed_radius shorter p best Hbest Hone Hint) as [_ Hs].
  apply Hs. apply Hl in Hlong. unfold look_ahead_window in *.
  replace (firstn (Z.to_nat (clamped_look_ahead shorter (obj best) + 1)) (poses (obj best)))
    with (firstn (Z.to_nat (clamped_look_ahead shorter (obj best) + 1))
            (firstn (Z.to_nat (clamped_look_ahead longer (obj best) + 1)) (poses (obj best)))).
  - rewrite Forall_forall in *. intros x Hx. apply Hlong.
    rewrite <- (firstn_skipn (Z.to_nat (clamped_look_ahead shorter (obj best) + 1))).
    apply in_or_app. now left.
  - rewrite firstn_firstn. f_equal. lia.
Qed.

Lemma isTrajectoryFeasible_shorter_look_ahead_witness :
  let best := example_teb 0 [(0, 0); (5, 0); (10, 0)] 1 false in
  let p := set_best_teb (Some best) (example_planner example_cfg [] [best]) in
  let costmap_model : CostmapModel := fun x _ _ _ _ _ => 12 - x in
  snd (isTrajectoryFeasible costmap_model [] 0 0 (-1) p) = Some true
  /\ snd (isTrajectoryFeasible costmap_model [] 0 0 1 p) = Some true.
Proof.
  intros best p costmap_model.
  assert (Hlong : snd (isTrajectoryFeasible costmap_model [] 0 0 (-1) p) = Some true)
    by (vm_compute; reflexivity).
  split; [exact Hlong|].
  apply (isTrajectoryFeasible_shorter_look_ahead costmap_model [] 0 0 1 (-1) p best).
  - reflexivity.
  - vm_compute. lia.
  - vm_compute. reflexivity.
  - vm_compute. discriminate.
  - exact Hlong.
Defined.

(** ** The re-analysis pass, again *)

Section ReanalysisAgain.

Context {W : World}.

Lemma register_loop_apart (teb_candidates : TebCandidateType) :
  forall q,
    apart (h_signature_threshold (cfg_ q)) (h_signatures_ q) ->
    apart (h_signature_threshold (cfg_ q)) (h_signatures_ (register_loop teb_candidates q)).
Proof.
  induction teb_candidates as [|c rest IH]; intros q Hq; simpl; [assumption|].
  pose proof (addNewHSignatureIfNew_apart (snd c) (h_signature_threshold (cfg_ q)) q Hq) as Ha.
  unfold addNewHSignatureIfNew in *.
  destruct (known _ (h_signatures_ q) (snd c)); cbn [snd] in Ha.
  - apply (IH (set_tebs (erase (fst c) (tebs_ q)) q)). exact Ha.
  - apply (IH (set_h_signatures (h_signatures_ q ++ [snd c]) q)). exact Ha.
Qed.

Lemma analyze_loop_all_close (delete_detours : bool) (cfg : TebConfig)
    (obstacles : list Obstacle) (rest : list TebOptimalPlannerPtr) :
  (forall t, In t rest -> too_close obstacles (obj t) = true) ->
  forall kept teb_candidates,
    analyze_loop delete_detours cfg obstacles kept teb_candidates rest
    = (kept, teb_candidates).
Proof.
  induction rest as [|it rest' IH]; intros Hall kept cands; simpl; [reflexivity|].
  assert (Hrest : forall t, In t rest' -> too_close obstacles (obj t) = true)
    by (intros t Ht; apply Hall; now right).
  rewrite (Hall it) by now left.
  destruct (_ && _ && _); now apply IH.
Qed.

End ReanalysisAgain.

(** X6.  The registry that [renewAndAnalyzeOldTebs] rebuilds holds no two
    signatures within the configured [h_signature_threshold] of each other,
    whatever pool, obstacles and flag the pass is run with. *)
Theorem renewAndAnalyzeOldTebs_registry_apart
    {W : World} (delete_detours : bool) (p : HomotopyClassPlanner) :
  apart (h_signature_threshold (cfg_ p))
        (h_signatures_ (renewAndAnalyzeOldTebs delete_detours p)).
Proof.
  unfold renewAndAnalyzeOldTebs.
  destruct (analyze_loop _ _ _ _ _ _) as [tebs1 cands].
  destruct (match dedup_loop _ _ _ _ with Some r => r | None => _ end) as [tebs2 cands2].
  apply (register_loop_apart cands2 (set_tebs tebs2 (set_h_signatures [] p))).
  constructor.
Qed.

(** X7.  The clearance test of the re-analysis pass has no guard for the
    last candidate: when every candidate of the pool is too close to some
    obstacle, the pass leaves the pool and the registry empty, while the
    stored best candidate stays as it was. *)
Theorem renewAndAnalyzeOldTebs_all_close_empties_pool
    {W : World} (delete_detours : bool) (p : HomotopyClassPlanner) :
  (forall t, In t (tebs_ p) -> too_close (obstacles_ p) (obj t) = true) ->
  tebs_ (renewAndAnalyzeOldTebs delete_detours p) = []
  /\ h_signatures_ (renewAndAnalyzeOldTebs delete_detours p) = []
  /\ best_teb_ (renewAndAnalyzeOldTebs delete_detours p) = best_teb_ p.
Proof.
  intros Hall. unfold renewAndAnalyzeOldTebs.
  cbn [set_h_signatures cfg_ obstacles_ tebs_].
  rewrite analyze_loop_all_close by assumption.
  repeat split; reflexivity.
Qed.

Lemma renewAndAnalyzeOldTebs_all_close_witness :
  let a := example_teb 0 [(0, 0); (5, 3); (10, 0)] 3 false in
  let p := set_best_teb (Some a)
             (example_planner example_cfg [example_obstacle (mkVector2d 5 3) (1 # 100)] [a]) in
  tebs_ (renewAndAnalyzeOldTebs true p) = []
  /\ h_signatures_ (renewAndAnalyzeOldTebs true p) = []
  /\ best_teb_ (renewAndAnalyzeOldTebs true p) = best_teb_ p.
Proof.
  intros a p.
  apply (renewAndAnalyzeOldTebs_all_close_empties_pool true p).
  intros t [<- | []]. reflexivity.
Defined.

(** ** The path search, again *)

Section ExplorationAgain.

Context {W : World}.

Lemma appended_refl (p : HomotopyClassPlanner) : appended p p.
Proof.
  exists [], []. rewrite !app_nil_r. simpl. repeat split; auto.
Qed.

Lemma appended_trans (p q r : HomotopyClassPlanner) :
  appended p q -> appended q r -> appended p r.
Proof.
  intros (n1 & s1 & A1 & A2 & A3 & A4 & A5) (n2 & s2 & B1 & B2 & B3 & B4 & B5).
  exists (n1 ++ n2), (s1 ++ s2).
  rewrite B1, A1, B2, A2, B5, A5, !length_app, map_app, A4, B4, A5, seq_app, <- !app_assoc.
  repeat split; auto; lia.
Qed.

(** A property of planner pairs that holds along the search when it is
    reflexive, transitive and holds for the first loop. *)
Lemma recurse_adjacent_rel (R : HomotopyClassPlanner -> HomotopyClassPlanner -> Prop)
    (recursion : list nat -> HomotopyClassPlanner -> option HomotopyClassPlanner)
    (visited : list nat) (goal : nat) :
  (forall q, R q q) ->
  (forall p q r, R p q -> R q r -> R p r) ->
  (forall v q q', recursion v q = Some q' -> R q q') ->
  forall its q q',
    recurse_adjacent recursion its visited goal q = Some q' -> R q q'.
Proof.
  intros Hrefl Htrans Hrec. induction its as [|it rest IH]; intros q q' Hrun; simpl in Hrun.
  - injection Hrun as <-. apply Hrefl.
  - destruct (is_visited visited it || (it =? goal)%nat); [now apply IH|].
    destruct (recursion (visited ++ [it]) q) as [q1|] eqn:E; [| discriminate].
    apply (Htrans _ q1); [now apply (Hrec _ _ _ E) | now apply IH].
Qed.

Lemma DepthFirst_rel (R : HomotopyClassPlanner -> HomotopyClassPlanner -> Prop)
    (g : HcGraph) (goal : nat) (start_orientation goal_orientation : double) :
  (forall q, R q q) ->
  (forall p q r, R p q -> R q r -> R p r) ->
  (forall its visited p,
      R p (examine_adjacent its visited goal start_orientation goal_orientation p)) ->
  forall fuel visited p p',
    DepthFirst fuel g visited goal start_orientation goal_orientation p = Some p' ->
    R p p'.
Proof.
  intros Hrefl Htrans Hex. induction fuel as [|fuel IH]; intros visited p p' Hrun;
    simpl in Hrun; [discriminate|].
  destruct (_ <=? _)%Z.
  - injection Hrun as <-. apply Hrefl.
  - eapply Htrans; [apply Hex|].
    eapply recurse_adjacent_rel; [assumption | assumption | | exact Hrun].
    intros v q q'. apply IH.
Qed.

Lemma examine_adjacent_appended (its visited : list nat) (goal : nat)
    (start_orientation goal_orientation : double) (p : HomotopyClassPlanner) :
  let q := examine_adjacent its visited goal start_orientation goal_orientation p in
  appended p q
  /\ (apart (1 # 10) (h_signatures_ p) -> apart (1 # 10) (h_signatures_ q)).
Proof.
  induction its as [|it rest IH]; simpl.
  - split; [apply appended_refl | auto].
  - destruct (is_visited visited it); [exact IH|].
    destruct (it =? goal)%nat; [| exact IH].
    set (H := calculateHSignature _ _ _).
    pose proof (addNewHSignatureIfNew_apart H (1 # 10) p) as Ha.
    unfold addNewHSignatureIfNew in *. destruct (known _ _ _); cbn [snd] in Ha.
    + split; [apply appended_refl | auto].
    + split; [| exact Ha].
      set (path := map (getVector2dFromHcGraph (graph_ p)) (visited ++ [it])).
      exists [mkPtr (heap_ p) (initTEBtoGoal path start_orientation goal_orientation)], [H].
      unfold addAndInitNewTeb. simpl. repeat split; auto. lia.
Qed.

End ExplorationAgain.

(** X8.  A depth-first search only appends: the candidates and the
    signatures that were there stay where they were, in their order; every
    new signature comes with exactly one new candidate, the new candidates
    get the next free identities in discovery order, and a registry without
    two signatures within 0.1 of each other stays so. *)
Theorem DepthFirst_appends_candidates
    {W : World} (fuel : nat) (g : HcGraph) (visited : list nat) (goal : nat)
    (start_orientation goal_orientation : double) (p p' : HomotopyClassPlanner) :
  DepthFirst fuel g visited goal start_orientation goal_orientation p = Some p' ->
  (exists new sigs,
      tebs_ p' = tebs_ p ++ new
      /\ h_signatures_ p' = h_signatures_ p ++ sigs
      /\ length new = length sigs
      /\ map addr new = seq (heap_ p) (length new)
      /\ heap_ p' = (heap_ p + length new)%nat)
  /\ (apart (1 # 10) (h_signatures_ p) -> apart (1 # 10) (h_signatures_ p')).
Proof.
  intros Hrun.
  apply (DepthFirst_rel
           (fun p q => appended p q
                       /\ (apart (1 # 10) (h_signatures_ p) ->
                           apart (1 # 10) (h_signatures_ q)))
           g goal start_orientation goal_orientation) with (fuel := fuel) (visited := visited);
    [| | | exact Hrun].
  - intros q. split; [apply appended_refl | auto].
  - intros a b c [A1 A2] [B1 B2]. split; [eapply appended_trans; eassumption | auto].
  - intros its vis q. apply examine_adjacent_appended.
Qed.

Lemma DepthFirst_appends_candidates_witness :
  let old := example_teb 0 [(0, 0); (5, 9); (10, 0)] 3 false in
  let p := set_graph example_graph (example_planner example_cfg [] [old]) in
  exists p',
    DepthFirst 4 example_graph [O] 3 0 0 p = Some p'
    /\ map addr (tebs_ p') = [0; 1]%nat
    /\ (exists new sigs,
          tebs_ p' = tebs_ p ++ new
          /\ h_signatures_ p' = h_signatures_ p ++ sigs
          /\ length new = length sigs
          /\ map addr new = seq (heap_ p) (length new)
          /\ heap_ p' = (heap_ p + length new)%nat)
    /\ (apart (1 # 10) (h_signatures_ p) -> apart (1 # 10) (h_signatures_ p')).
Proof.
  intros old p. eexists. split; [vm_compute; reflexivity|].
  split; [reflexivity|].
  apply (DepthFirst_appends_candidates 4 example_graph [O] 3 0 0 p).
  vm_compute. reflexivity.
Defined.

Section Termination.

Context {W : World}.

Lemma recurse_adjacent_more
    (rec1 rec2 : list nat -> HomotopyClassPlanner -> option HomotopyClassPlanner)
    (visited : list nat) (goal : nat) :
  (forall v q q', rec1 v q = Some q' -> rec2 v q = Some q') ->
  forall its q q',
    recurse_adjacent rec1 its visited goal q = Some q' ->
    recurse_adjacent rec2 its visited goal q = Some q'.
Proof.
  intros Hrec. induction its as [|it rest IH]; intros q q' Hrun; simpl in *; [assumption|].
  destruct (is_visited visited it || (it =? goal)%nat); [now apply IH|].
  destruct (rec1 (visited ++ [it]) q) as [q1|] eqn:E; [| discriminate].
  rewrite (Hrec _ _ _ E). now apply IH.
Qed.

Lemma DepthFirst_more_fuel (g : HcGraph) (goal : nat)
    (start_orientation goal_orientation : double) :
  forall fuel more visited p p',
    DepthFirst fuel g visited goal start_orientation goal_orientation p = Some p' ->
    DepthFirst (fuel + more) g visited goal start_orientation goal_orientation p = Some p'.
Proof.
  induction fuel as [|fuel IH]; intros more visited p p' Hrun; [discriminate|].
  cbn [Nat.add DepthFirst] in *.
  destruct (_ <=? _)%Z; [assumption|].
  eapply recurse_adjacent_more; [| exact Hrun].
  intros v q q'. apply IH.
Qed.

End Termination.

(** X9.  The depth-first search ends.  On a graph whose edges lead to
    vertices of the graph, from a path without repetition inside the graph,
    the recursion is never deeper than the number of vertices off the path
    plus one: with that much fuel the search returns, and more fuel does not
    change what it returns. *)
Theorem DepthFirst_terminates
    {W : World} (fuel : nat) (g : HcGraph) (visited : list nat) (goal : nat)
    (start_orientation goal_orientation : double) (p : HomotopyClassPlanner) :
  graph_closed g ->
  NoDup visited ->
  (forall v, In v visited -> (v < length (vertices g))%nat) ->
  (length (vertices g) < fuel + length visited)%nat ->
  exists p',
    DepthFirst fuel g visited goal start_orientation goal_orientation p = Some p'
    /\ forall more,
         DepthFirst (fuel + more) g visited goal start_orientation goal_orientation p
         = Some p'.
Proof.
  intros Hg Hnd Hin Hfuel.
  destruct (DepthFirst_total g goal start_orientation goal_orientation Hg
              fuel visited p Hnd Hin Hfuel) as [p' Hrun].
  exists p'. split; [assumption|].
  intros more. now apply DepthFirst_more_fuel.
Qed.

Lemma graph_closed_example_graph : graph_closed example_graph.
Proof.
  intros e He. simpl in He.
  repeat (destruct He as [<- | He]; [simpl; lia|]). destruct He.
Qed.

Lemma DepthFirst_terminates_witness :
  let p := set_graph example_graph (example_planner example_cfg [] []) in
  exists p',
    DepthFirst 4 example_graph [O] 3 0 0 p = Some p'
    /\ forall more, DepthFirst (4 + more) example_graph [O] 3 0 0 p = Some p'.
Proof.
  intros p.
  apply (DepthFirst_terminates 4 example_graph [O] 3 0 0 p).
  - exact graph_closed_example_graph.
  - constructor; [intros [] | constructor].
  - intros v [<- | []]. simpl. lia.
  - simpl. lia.
Defined.

(** ** The graph builders, again *)

Section BuildersAgain.

Context {W : World}.

(** The edges that the two nested loops insert, in insertion order. *)
Lemma insert_edges_edges (admissible : nat -> nat -> bool) (g : HcGraph) :
  edges (insert_edges admissible g)
  = edges g
    ++ flat_map (fun it_i => map (pair it_i)
                               (filter (admissible it_i) (seq 0 (length (vertices g)))))
                (seq 0 (length (vertices g) - 1)).
Proof.
  unfold insert_edges. set (n := length (vertices g)).
  assert (Hinner : forall it_i js g0,
            edges (fold_left (fun g it_j => if admissible it_i it_j
                                            then add_edge it_i it_j g else g) js g0)
            = edges g0 ++ map (pair it_i) (filter (admissible it_i) js)).
  { intros it_i js. induction js as [|j js IH]; intros g0; simpl.
    - now rewrite app_nil_r.
    - destruct (admissible it_i j); rewrite IH; [| reflexivity].
      simpl. now rewrite <- app_assoc. }
  assert (Houter : forall rows g0,
            edges (fold_left
                     (fun g it_i =>
                        fold_left (fun g it_j => if admissible it_i it_j
                                                 then add_edge it_i it_j g else g)
                                  (seq 0 n) g) rows g0)
            = edges g0
              ++ flat_map (fun it_i => map (pair it_i) (filter (admissible it_i) (seq 0 n)))
                          rows).
  { induction rows as [|i rows IH]; intros g0; simpl.
    - now rewrite app_nil_r.
    - rewrite IH, Hinner, <- app_assoc. reflexivity. }
  apply Houter.
Qed.

Lemma insert_edges_In (admissible : nat -> nat -> bool) (g : HcGraph) (it_i it_j : nat) :
  In (it_i, it_j) (edges (insert_edges admissible g))
  <-> In (it_i, it_j) (edges g)
      \/ ((it_i < length (vertices g) - 1)%nat
          /\ (it_j < length (vertices g))%nat
          /\ admissible it_i it_j = true).
Proof.
  rewrite insert_edges_edges, in_app_iff, in_flat_map.
  split; (intros [Hold | Hnew]; [now left | right]).
  - destruct Hnew as (i & Hi & Hin). apply in_map_iff in Hin.
    destruct Hin as (j & [= <- <-] & Hj). apply filter_In in Hj.
    apply in_seq in Hi. destruct Hj as [Hj Hadm]. apply in_seq in Hj.
    repeat split; [lia | lia | assumption].
  - destruct Hnew as (Hi & Hj & Hadm). exists it_i. split; [apply in_seq; lia|].
    apply in_map. apply filter_In. split; [apply in_seq; lia | assumption].
Qed.

Lemma pos_same_vertices (g g' : HcGraph) (v : nat) :
  vertices g = vertices g' -> pos g v = pos g' v.
Proof. unfold pos. now intros ->. Qed.

(** The graph that [createGraph] leaves when the goal is beyond the
    tolerance: the edge loops run on the vertices start, keypoints, goal. *)
Lemma createGraph_graph (fuel : nat) (start goal : PoseSE2) (dist_to_obst : double)
    (limit_obstacle_heading : bool) (p p' : HomotopyClassPlanner) :
  let diff := vsub (position goal) (position start) in
  let normal := vscale dist_to_obst (normalize (mkVector2d (- vy diff) (vx diff))) in
  createGraph fuel start goal dist_to_obst limit_obstacle_heading p = Some p' ->
  ltb (norm diff) (xy_goal_tolerance (cfg_ p)) = false ->
  exists min_dist nearest_obstacle,
    let g2 := mkGraph (position start
                       :: keypoints start (normalize diff) normal (obstacles_ p)
                       ++ [position goal]) [] in
    graph_ p'
    = insert_edges (createGraph_edge (cfg_ p) (obstacles_ p) start (normalize diff)
                      dist_to_obst limit_obstacle_heading O min_dist nearest_obstacle g2) g2.
Proof.
  intros diff normal Hrun Hfar. unfold createGraph in Hrun.
  change (cfg_ (clearGraph p)) with (cfg_ p) in Hrun.
  change (obstacles_ (clearGraph p)) with (obstacles_ p) in Hrun.
  fold diff in Hrun. rewrite Hfar in Hrun. fold normal in Hrun.
  cbn [clearGraph set_graph graph_ add_vertex empty_graph vertices edges length app] in Hrun.
  destruct (insert_keypoints_spec start (normalize diff) normal limit_obstacle_heading
              (obstacles_ p) (mkGraph [position start] []) DBL_MAX (O, O)) as [Hv He].
  destruct (insert_keypoints start (normalize diff) normal limit_obstacle_heading
              (obstacles_ p) (mkGraph [position start] []) DBL_MAX (O, O))
    as [[g1 min_dist] nearest_obstacle].
  cbn [fst vertices edges] in Hv, He.
  exists min_dist, nearest_obstacle. cbv zeta.
  apply DepthFirst_explored in Hrun. destruct Hrun as (_ & _ & _ & -> & _).
  cbn [graph_]. rewrite Hv, He. reflexivity.
Qed.

Lemma createGraph_edge_sound (cfg : TebConfig) (obstacles : list Obstacle)
    (start : PoseSE2) (diff : Vector2d) (dist_to_obst : double)
    (limit_obstacle_heading : bool) (start_vtx : nat) (min_dist : double)
    (nearest_obstacle : nat * nat) (g : HcGraph) (it_i it_j : nat) :
  createGraph_edge cfg obstacles start diff dist_to_obst limit_obstacle_heading
    start_vtx min_dist nearest_obstacle g it_i it_j = true ->
  it_i <> it_j
  /\ leb (dot (normalize (vsub (pos g it_j) (pos g it_i))) diff)
         (cos (obstacle_heading_threshold cfg)) = false
  /\ collision obstacles (pos g it_i) (pos g it_j) ((1 # 2) * dist_to_obst) = false.
Proof.
  unfold createGraph_edge. destruct (it_i =? it_j)%nat eqn:E; [discriminate|].
  apply Nat.eqb_neq in E. destruct (leb _ _); [discriminate|].
  destruct (_ && _ && _ && _ && _); [discriminate|].
  intros Hc. apply negb_true_iff in Hc. auto.
Qed.

End BuildersAgain.

(** X10.  No edge of the graph that [createGraph] builds is a loop, leaves
    the goal (the last vertex), leads outside the graph, deviates from the
    start-goal direction by the heading threshold or more (the cosine of the
    angle is above the cosine of the threshold), or meets an obstacle at
    half the clearance. *)
Theorem createGraph_edges_admissible
    {W : World} (fuel : nat) (start goal : PoseSE2) (dist_to_obst : double)
    (limit_obstacle_heading : bool) (p p' : HomotopyClassPlanner) (it_i it_j : nat) :
  createGraph fuel start goal dist_to_obst limit_obstacle_heading p = Some p' ->
  In (it_i, it_j) (edges (graph_ p')) ->
  let g := graph_ p' in
  let diff := normalize (vsub (position goal) (position start)) in
  it_i <> it_j
  /\ (it_i < length (vertices g) - 1)%nat
  /\ (it_j < length (vertices g))%nat
  /\ leb (dot (normalize (vsub (pos g it_j) (pos g it_i))) diff)
         (cos (obstacle_heading_threshold (cfg_ p))) = false
  /\ collision (obstacles_ p) (pos g it_i) (pos g it_j) ((1 # 2) * dist_to_obst) = false.
Proof.
  intros Hrun Hin g diff.
  pose proof (createGraph_spec fuel start goal dist_to_obst limit_obstacle_heading p) as Hs.
  cbv zeta in Hs.
  destruct (ltb (norm (vsub (position goal) (position start))) (xy_goal_tolerance (cfg_ p)))
    eqn:Hfar.
  - rewrite Hs in Hrun. injection Hrun as <-. destruct Hin.
  - clear Hs.
    destruct (createGraph_graph fuel start goal dist_to_obst limit_obstacle_heading p p'
                Hrun Hfar) as (min_dist & nearest & Hg).
    cbv zeta in Hg. set (g2 := mkGraph _ []) in Hg.
    set (a := createGraph_edge _ _ _ _ _ _ _ _ _ g2) in Hg.
    subst g. rewrite Hg in Hin |- *.
    destruct (insert_edges_spec a g2) as [Hv _].
    apply insert_edges_In in Hin. destruct Hin as [[] | (Hi & Hj & Hadm)].
    apply createGraph_edge_sound in Hadm. destruct Hadm as (Hne & Hdir & Hcol).
    rewrite Hv, !(pos_same_vertices _ g2 _ Hv). auto.
Qed.

Lemma createGraph_edges_admissible_witness :
  let start := mkPoseSE2 (mkVector2d 0 0) 0 in
  let goal := mkPoseSE2 (mkVector2d 10 0) 0 in
  let p := example_planner example_cfg [example_obstacle (mkVector2d 5 0) 2] [] in
  exists p',
    createGraph 4 start goal 1 true p = Some p'
    /\ In (0, 3)%nat (edges (graph_ p'))
    /\ (let g := graph_ p' in
        let diff := normalize (vsub (position goal) (position start)) in
        0%nat <> 3%nat
        /\ (0 < length (vertices g) - 1)%nat
        /\ (3 < length (vertices g))%nat
        /\ leb (dot (normalize (vsub (pos g 3) (pos g 0))) diff)
               (cos (obstacle_heading_threshold (cfg_ p))) = false
        /\ collision (obstacles_ p) (pos g 0) (pos g 3) ((1 # 2) * 1) = false).
Proof.
  intros start goal p. eexists. split; [vm_compute; reflexivity|].
  split.
  - vm_compute. tauto.
  - apply (createGraph_edges_admissible 4 start goal 1 true p _ 0 3).
    + vm_compute. reflexivity.
    + vm_compute. tauto.
Defined.

Section RoadmapAgain.

Context {W : World}.

Lemma sample_loop_sound (obstacles : list Obstacle) (dist_to_obst : double)
    (area_origin : Vector2d) (phi start_goal_dist area_width : double) :
  forall fuel rnd sample rnd',
    sample_loop fuel obstacles dist_to_obst area_origin phi start_goal_dist
      area_width rnd = Some (sample, rnd') ->
    (existsb (fun obst => checkCollision obst sample dist_to_obst) obstacles = false
     \/ ros_ok rnd' = false)
    /\ (rnd + 2 <= rnd')%nat.
Proof.
  induction fuel as [|fuel IH]; intros rnd sample rnd' Hrun; simpl in Hrun; [discriminate|].
  destruct (existsb _ obstacles) eqn:Ec; cbn [negb andb] in Hrun.
  - destruct (ros_ok (S (S rnd))) eqn:Eok.
    + apply IH in Hrun. destruct Hrun as [H1 H2]. split; [assumption | lia].
    + injection Hrun as <- <-. split; [now right | lia].
  - injection Hrun as <- <-. split; [now left | lia].
Qed.

Lemma sample_vertices_samples (fuel : nat) (obstacles : list Obstacle) (dist_to_obst : double)
    (area_origin : Vector2d) (phi start_goal_dist area_width : double) :
  forall count g rnd g' rnd',
    sample_vertices fuel count obstacles dist_to_obst area_origin phi start_goal_dist
      area_width g rnd = Some (g', rnd') ->
    exists samples,
      vertices g' = vertices g ++ samples
      /\ edges g' = edges g
      /\ length samples = count
      /\ Forall (fun sample =>
                   existsb (fun obst => checkCollision obst sample dist_to_obst) obstacles
                   = false
                   \/ exists k, ros_ok k = false) samples
      /\ (rnd + 2 * count <= rnd')%nat.
Proof.
  induction count as [|count IH]; intros g rnd g' rnd' Hrun; simpl in Hrun.
  - injection Hrun as <- <-. exists []. rewrite app_nil_r.
    repeat split; auto. lia.
  - destruct (sample_loop _ _ _ _ _ _ _ _) as [[sample rnd1]|] eqn:Es; [| discriminate].
    apply sample_loop_sound in Es. destruct Es as [Hok Hrnd].
    apply IH in Hrun. destruct Hrun as (samples & Hv & He & Hlen & Hall & Hr).
    cbn [add_vertex snd vertices edges] in Hv, He.
    exists (sample :: samples). rewrite Hv, <- app_assoc. cbn [app length].
    repeat split; auto; [| lia].
    constructor; [| assumption].
    destruct Hok as [Hok | Hok]; [now left | right; eauto].
Qed.

Lemma createProbRoadmapGraph_edge_iff (cfg : TebConfig) (obstacles : list Obstacle)
    (diff : Vector2d) (dist_to_obst : double) (g : HcGraph) (it_i it_j : nat) :
  createProbRoadmapGraph_edge cfg obstacles diff dist_to_obst g it_i it_j = true
  <-> it_i <> it_j
      /\ leb (dot (normalize (vsub (pos g it_j) (pos g it_i))) diff)
             (cos (obstacle_heading_threshold cfg)) = false
      /\ collision obstacles (pos g it_i) (pos g it_j) ((1 # 2) * dist_to_obst) = false.
Proof.
  unfold createProbRoadmapGraph_edge. destruct (it_i =? it_j)%nat eqn:E.
  - apply Nat.eqb_eq in E. split; [discriminate | tauto].
  - apply Nat.eqb_neq in E. destruct (leb _ _).
    + split; [discriminate | intros (_ & H & _); discriminate].
    + rewrite negb_true_iff. tauto.
Qed.

(** The graph that [createProbRoadmapGraph] leaves when the goal is beyond
    the tolerance. *)
Lemma createProbRoadmapGraph_graph (fuel : nat) (start goal : PoseSE2)
    (dist_to_obst : double) (limit_obstacle_heading : bool) (p p' : HomotopyClassPlanner) :
  let diff := vsub (position goal) (position start) in
  createProbRoadmapGraph fuel start goal dist_to_obst limit_obstacle_heading p = Some p' ->
  ltb (norm diff) (xy_goal_tolerance (cfg_ p)) = false ->
  exists samples,
    length samples = roadmap_sample_count (cfg_ p)
    /\ Forall (fun sample =>
                 existsb (fun obst => checkCollision obst sample dist_to_obst) (obstacles_ p)
                 = false
                 \/ exists k, ros_ok k = false) samples
    /\ (rnd_generator_ p + 2 * roadmap_sample_count (cfg_ p) <= rnd_generator_ p')%nat
    /\ let g2 := mkGraph (position start :: samples ++ [position goal]) [] in
       graph_ p'
       = insert_edges (createProbRoadmapGraph_edge (cfg_ p) (obstacles_ p) (normalize diff)
                         dist_to_obst g2) g2.
Proof.
  intros diff Hrun Hfar. unfold createProbRoadmapGraph in Hrun.
  change (cfg_ (clearGraph p)) with (cfg_ p) in Hrun.
  change (obstacles_ (clearGraph p)) with (obstacles_ p) in Hrun.
  change (rnd_generator_ (clearGraph p)) with (rnd_generator_ p) in Hrun.
  fold diff in Hrun. rewrite Hfar in Hrun.
  cbn [clearGraph set_graph graph_ add_vertex empty_graph vertices edges length app] in Hrun.
  fold (roadmap_sample_count (cfg_ p)) in Hrun.
  destruct (sample_vertices _ _ _ _ _ _ _ _ _ _) as [[g1 rnd]|] eqn:Es; [| discriminate].
  apply sample_vertices_samples in Es.
  destruct Es as (samples & Hv & He & Hlen & Hall & Hr).
  cbn [vertices edges app] in Hv, He.
  exists samples. split; [assumption | split; [assumption|]].
  apply DepthFirst_explored in Hrun.
  destruct Hrun as (_ & _ & _ & Hg & _ & Hrnd & _).
  cbn [set_rnd_generator set_graph graph_ rnd_generator_] in Hg, Hrnd.
  split; [lia|]. cbv zeta. rewrite Hg, Hv, He. reflexivity.
Qed.

End RoadmapAgain.

(** X11.  When the goal is beyond the tolerance and [createProbRoadmapGraph]
    returns, its graph has the start as first vertex, then one vertex for
    every configured sample, then the goal; the generator has yielded at
    least two numbers for every sample; and, as long as [ros::ok()] holds,
    every sampled vertex is free of collision with every obstacle at the
    clearance. *)
Theorem createProbRoadmapGraph_vertices
    {W : World} (fuel : nat) (start goal : PoseSE2) (dist_to_obst : double)
    (limit_obstacle_heading : bool) (p p' : HomotopyClassPlanner) :
  createProbRoadmapGraph fuel start goal dist_to_obst limit_obstacle_heading p = Some p' ->
  ltb (norm (vsub (position goal) (position start))) (xy_goal_tolerance (cfg_ p)) = false ->
  let g := graph_ p' in
  let n := roadmap_sample_count (cfg_ p) in
  length (vertices g) = (n + 2)%nat
  /\ pos g 0 = position start
  /\ pos g (n + 1) = position goal
  /\ (rnd_generator_ p + 2 * n <= rnd_generator_ p')%nat
  /\ ((forall k, ros_ok k = true) ->
      forall v, (1 <= v <= n)%nat ->
        existsb (fun obst => checkCollision obst (pos g v) dist_to_obst) (obstacles_ p)
        = false).
Proof.
  intros Hrun Hfar g n.
  destruct (createProbRoadmapGraph_graph fuel start goal dist_to_obst limit_obstacle_heading
              p p' Hrun Hfar) as (samples & Hlen & Hall & Hrnd & Hg).
  cbv zeta in Hg. set (g2 := mkGraph _ []) in Hg.
  set (a := createProbRoadmapGraph_edge _ _ _ _ g2) in Hg.
  destruct (insert_edges_spec a g2) as [Hv _].
  assert (Hvg : vertices g = position start :: samples ++ [position goal])
    by (subst g; rewrite Hg, Hv; reflexivity).
  fold n in Hlen. unfold pos. rewrite Hvg.
  split; [| split; [| split; [| split]]].
  - cbn [length]. rewrite length_app. cbn [length]. lia.
  - reflexivity.
  - replace (n + 1)%nat with (S n) by lia. cbn [nth].
    rewrite app_nth2 by lia. now replace (n - length samples)%nat with O by lia.
  - exact Hrnd.
  - intros Hok v Hvn. destruct v as [|v]; [lia|]. cbn [nth].
    rewrite app_nth1 by lia.
    rewrite Forall_forall in Hall.
    destruct (Hall (nth v samples Vector2d_Zero)) as [Hfree | [k Hk]].
    + apply nth_In. lia.
    + exact Hfree.
    + rewrite Hok in Hk. discriminate.
Qed.

Lemma createProbRoadmapGraph_vertices_witness :
  let start := mkPoseSE2 (mkVector2d 0 0) 0 in
  let goal := mkPoseSE2 (mkVector2d 10 0) 0 in
  let p := example_planner example_cfg [example_obstacle (mkVector2d 5 0) 2] [] in
  exists p',
    createProbRoadmapGraph 3 start goal 1 true p = Some p'
    /\ (let g := graph_ p' in
        let n := roadmap_sample_count (cfg_ p) in
        length (vertices g) = (n + 2)%nat
        /\ pos g 0 = position start
        /\ pos g (n + 1) = position goal
        /\ (rnd_generator_ p + 2 * n <= rnd_generator_ p')%nat
        /\ ((forall k, ros_ok k = true) ->
            forall v, (1 <= v <= n)%nat ->
              existsb (fun obst => checkCollision obst (pos g v) 1) (obstacles_ p) = false)).
Proof.
  intros start goal p. eexists. split; [vm_compute; reflexivity|].
  apply (createProbRoadmapGraph_vertices 3 start goal 1 true p).
  - vm_compute. reflexivity.
  - vm_compute. reflexivity.
Defined.

(** X12.  When the goal is beyond the tolerance and [createProbRoadmapGraph]
    returns, the edges of its graph are exactly the pairs of distinct
    vertices, the first of them not the goal, whose direction deviates from
    the start-goal direction by less than the heading threshold and whose
    segment meets no obstacle at half the clearance. *)
Theorem createProbRoadmapGraph_edges
    {W : World} (fuel : nat) (start goal : PoseSE2) (dist_to_obst : double)
    (limit_obstacle_heading : bool) (p p' : HomotopyClassPlanner) (it_i it_j : nat) :
  createProbRoadmapGraph fuel start goal dist_to_obst limit_obstacle_heading p = Some p' ->
  ltb (norm (vsub (position goal) (position start))) (xy_goal_tolerance (cfg_ p)) = false ->
  let g := graph_ p' in
  let diff := normalize (vsub (position goal) (position start)) in
  In (it_i, it_j) (edges g)
  <-> it_i <> it_j
      /\ (it_i < length (vertices g) - 1)%nat
      /\ (it_j < length (vertices g))%nat
      /\ leb (dot (normalize (vsub (pos g it_j) (pos g it_i))) diff)
             (cos (obstacle_heading_threshold (cfg_ p))) = false
      /\ collision (obstacles_ p) (pos g it_i) (pos g it_j) ((1 # 2) * dist_to_obst) = false.
Proof.
  intros Hrun Hfar g diff.
  destruct (createProbRoadmapGraph_graph fuel start goal dist_to_obst limit_obstacle_heading
              p p' Hrun Hfar) as (samples & _ & _ & _ & Hg).
  cbv zeta in Hg. set (g2 := mkGraph _ []) in Hg.
  set (a := createProbRoadmapGraph_edge _ _ _ _ g2) in Hg.
  destruct (insert_edges_spec a g2) as [Hv _].
  subst g. rewrite Hg, insert_edges_In, Hv, !(pos_same_vertices _ g2 _ Hv).
  unfold a. rewrite createProbRoadmapGraph_edge_iff. cbn [edges g2]. fold diff.
  split.
  - intros [[] | (Hi & Hj & Hne & Hd & Hc)]. auto.
  - intros (Hne & Hi & Hj & Hd & Hc). right. auto.
Qed.

Lemma createProbRoadmapGraph_edges_witness :
  let start := mkPoseSE2 (mkVector2d 0 0) 0 in
  let goal := mkPoseSE2 (mkVector2d 10 0) 0 in
  let p := example_planner example_cfg [example_obstacle (mkVector2d 5 0) 2] [] in
  exists p',
    createProbRoadmapGraph 3 start goal 1 true p = Some p'
    /\ (let g := graph_ p' in
        let diff := normalize (vsub (position goal) (position start)) in
        In (0, 2)%nat (edges g)
        <-> 0%nat <> 2%nat
            /\ (0 < length (vertices g) - 1)%nat
            /\ (2 < length (vertices g))%nat
            /\ leb (dot (normalize (vsub (pos g 2) (pos g 0))) diff)
                   (cos (obstacle_heading_threshold (cfg_ p))) = false
            /\ collision (obstacles_ p) (pos g 0) (pos g 2) ((1 # 2) * 1) = false).
Proof.
  intros start goal p. eexists. split; [vm_compute; reflexivity|].
  apply (createProbRoadmapGraph_edges 3 start goal 1 true p _ 0 2).
  - vm_compute. reflexivity.
  - vm_compute. reflexivity.
Defined.

(** ** The cycle, again *)

Section CycleAgain.

Context {W : World}.




End CycleAgain.


(** ** Free space *)

Section FreeSpace.

Context {W : World}.

Lemma neqb_same (x : double) : neqb x x = false.
Proof. unfold neqb. now rewrite Qeq_bool_refl. Qed.

Lemma renewAndAnalyzeOldTebs_empty_pool (delete_detours : bool) (p : HomotopyClassPlanner) :
  tebs_ p = [] ->
  renewAndAnalyzeOldTebs delete_detours p = set_tebs [] (set_h_signatures [] p).
Proof.
  intros Hp. unfold renewAndAnalyzeOldTebs.
  cbn [set_h_signatures tebs_ cfg_ obstacles_]. rewrite Hp. reflexivity.
Qed.

End FreeSpace.

(** X14.  In free space the exploration yields the straight line: with the
    keypoint builder, no obstacle, an empty pool, room for one class, a goal
    beyond the tolerance and a heading threshold whose cosine is below the
    squared length of the normalized start-goal direction, the graph built
    is the single edge from start to goal, and the pool holds exactly one
    new candidate, initialized along start and goal with their
    orientations; its signature is the only entry of the registry. *)
Theorem exploreHomotopyClassesAndInitTebs_free_space
    {W : World} (fuel : nat) (start goal : PoseSE2) (dist_to_obst hp_threshold : double)
    (p : HomotopyClassPlanner) :
  simple_exploration (cfg_ p) = true ->
  obstacles_ p = [] ->
  tebs_ p = [] ->
  (1 <= max_number_classes (cfg_ p))%Z ->
  ltb (norm (vsub (position goal) (position start))) (xy_goal_tolerance (cfg_ p)) = false ->
  leb (dot (normalize (vsub (position goal) (position start)))
           (normalize (vsub (position goal) (position start))))
      (cos (obstacle_heading_threshold (cfg_ p))) = false ->
  (1 <= fuel)%nat ->
  exists p',
    exploreHomotopyClassesAndInitTebs fuel start goal dist_to_obst hp_threshold p = Some p'
    /\ graph_ p' = mkGraph [position start; position goal] [(0, 1)%nat]
    /\ tebs_ p'
       = [mkPtr (heap_ p)
            (initTEBtoGoal [position start; position goal] (theta start) (theta goal))]
    /\ h_signatures_ p'
       = [calculateHSignature
            [getCplxFromVertexPosePtr start; getCplxFromVertexPosePtr goal] []
            (h_signature_prescaler (cfg_ p))].
Proof.
  intros Hsimple Hobst Hpool Hmax Hfar Hhead Hfuel.
  destruct fuel as [|fuel]; [lia|].
  unfold exploreHomotopyClassesAndInitTebs.
  rewrite (renewAndAnalyzeOldTebs_empty_pool false p Hpool).
  destruct p as [cfg obstacles init graph sigs tebs best rnd heap].
  cbn [cfg_ obstacles_ tebs_ heap_] in *. subst obstacles tebs.
  cbn [set_tebs set_h_signatures cfg_ obstacles_ tebs_ graph_ h_signatures_ initialized_
       best_teb_ rnd_generator_ heap_].
  rewrite Hsimple. unfold createGraph.
  cbn [clearGraph set_graph set_tebs set_h_signatures cfg_ obstacles_ tebs_ graph_
       h_signatures_ initialized_ best_teb_ rnd_generator_ heap_].
  rewrite Hfar.
  cbn [insert_keypoints add_vertex empty_graph vertices edges length app].
  unfold insert_edges.
  cbn [vertices edges length app Nat.sub seq fold_left].
  unfold createGraph_edge.
  cbn [Nat.eqb pos nth vertices edges add_edge andb orb fst snd].
  rewrite Hhead, (neqb_same DBL_MAX).
  rewrite !Bool.andb_false_r.
  cbn [andb collision existsb negb add_edge vertices edges app clearGraph set_graph
       set_tebs set_h_signatures cfg_ obstacles_ tebs_ graph_
       h_signatures_ initialized_ best_teb_ rnd_generator_ heap_].
  assert (Hsat : (max_number_classes cfg <=? to_int 0)%Z = false).
  { apply Z.leb_gt. change (to_int 0) with 0%Z. lia. }
  unfold clearGraph, set_graph, set_tebs, set_h_signatures.
  cbn [DepthFirst cfg_ tebs_ obstacles_ graph_ h_signatures_ initialized_ best_teb_
       rnd_generator_ heap_ length Z.of_nat].
  rewrite Hsat.
  unfold add_edge, adjacent_vertices.
  cbn [last vertices edges app filter fst snd Nat.eqb map examine_adjacent
       is_visited existsb orb recurse_adjacent].
  unfold addNewHSignatureIfNew, addAndInitNewTeb, set_tebs, set_heap, set_h_signatures.
  cbn [h_signatures_ known existsb graph_ obstacles_ cfg_ app map tebs_ heap_].
  eexists. split; [reflexivity|].
  cbn [graph_ tebs_ h_signatures_]. repeat split; reflexivity.
Qed.

Lemma exploreHomotopyClassesAndInitTebs_free_space_witness :
  let start := mkPoseSE2 (mkVector2d 0 0) 0 in
  let goal := mkPoseSE2 (mkVector2d 10 0) 0 in
  let p := example_planner example_cfg [] [] in
  exists p',
    exploreHomotopyClassesAndInitTebs 1 start goal 1 (1 # 10) p = Some p'
    /\ graph_ p' = mkGraph [position start; position goal] [(0, 1)%nat]
    /\ tebs_ p'
       = [mkPtr (heap_ p)
            (initTEBtoGoal [position start; position goal] (theta start) (theta goal))]
    /\ h_signatures_ p'
       = [calculateHSignature
            [getCplxFromVertexPosePtr start; getCplxFromVertexPosePtr goal] []
            (h_signature_prescaler (cfg_ p))].
Proof.
  intros start goal p.
  apply (exploreHomotopyClassesAndInitTebs_free_space 1 start goal 1 (1 # 10) p);
    vm_compute; first [reflexivity | discriminate].
Defined.

(** ** The paths of the search *)

Section Paths.

Context {W : World}.

Lemma is_path_snoc (g : HcGraph) (visited : list nat) (it : nat) :
  is_path g visited ->
  In (last visited O, it) (edges g) ->
  is_path g (visited ++ [it]).
Proof.
  induction visited as [|u rest IH]; intros Hp Hin; [exact I|].
  destruct rest as [|v rest'].
  - simpl in *. tauto.
  - destruct Hp as [He Hp]. split; [exact He|].
    apply IH; [exact Hp | exact Hin].
Qed.

Lemma adjacent_vertices_edge (g : HcGraph) (u v : nat) :
  In v (adjacent_vertices u g) <-> In (u, v) (edges g).
Proof.
  unfold adjacent_vertices. rewrite in_map_iff. split.
  - intros ([a b] & <- & He). apply filter_In in He. destruct He as [He Ha].
    apply Nat.eqb_eq in Ha. simpl in *. now subst.
  - intros He. exists (u, v). split; [reflexivity|].
    apply filter_In. split; [exact He | apply Nat.eqb_refl].
Qed.

Lemma paths_added_refl (g : HcGraph) (visited : list nat) (goal : nat)
    (start_orientation goal_orientation : double) (p : HomotopyClassPlanner) :
  paths_added g visited goal start_orientation goal_orientation p p.
Proof.
  split; [reflexivity|]. exists []. rewrite app_nil_r. split; [reflexivity | constructor].
Qed.

Lemma paths_added_trans (g : HcGraph) (visited : list nat) (goal : nat)
    (start_orientation goal_orientation : double) (p q r : HomotopyClassPlanner) :
  paths_added g visited goal start_orientation goal_orientation p q ->
  paths_added g visited goal start_orientation goal_orientation q r ->
  paths_added g visited goal start_orientation goal_orientation p r.
Proof.
  intros (G1 & n1 & A1 & A2) (G2 & n2 & B1 & B2). split; [congruence|].
  exists (n1 ++ n2). rewrite B1, A1, app_assoc. split; [reflexivity|].
  apply Forall_app. now split.
Qed.

Lemma paths_added_shorter (g : HcGraph) (visited : list nat) (it goal : nat)
    (start_orientation goal_orientation : double) (p q : HomotopyClassPlanner) :
  paths_added g (visited ++ [it]) goal start_orientation goal_orientation p q ->
  paths_added g visited goal start_orientation goal_orientation p q.
Proof.
  intros (G & new & A & F). split; [exact G|]. exists new. split; [exact A|].
  eapply Forall_impl; [| exact F].
  intros t (tail & Ho & Hn & Hp & Hl). exists (it :: tail).
  change (it :: tail) with ([it] ++ tail). rewrite app_assoc. auto.
Qed.

Lemma examine_adjacent_paths (g : HcGraph) (visited : list nat) (goal : nat)
    (start_orientation goal_orientation : double) :
  NoDup visited -> is_path g visited ->
  forall its p,
    graph_ p = g ->
    (forall it, In it its -> In (last visited O, it) (edges g)) ->
    paths_added g visited goal start_orientation goal_orientation p
      (examine_adjacent its visited goal start_orientation goal_orientation p).
Proof.
  intros Hnd Hpath. induction its as [|it rest IH]; intros p Hg Hadj; simpl.
  - apply paths_added_refl.
  - destruct (is_visited visited it) eqn:Ev; [apply IH; auto; intros; apply Hadj; now right|].
    destruct (it =? goal)%nat eqn:Eg; [| apply IH; auto; intros; apply Hadj; now right].
    apply Nat.eqb_eq in Eg.
    unfold addNewHSignatureIfNew. destruct (known _ _ _); [apply paths_added_refl|].
    unfold addAndInitNewTeb. split; [reflexivity|].
    eexists. split; [reflexivity|]. constructor; [| constructor].
    exists [it]. cbn [obj set_h_signatures graph_]. rewrite Hg.
    split; [reflexivity|]. split; [| split].
    + apply NoDup_app; [exact Hnd | repeat constructor; auto |].
      intros x Hx [<- | []]. apply is_visited_In in Hx. congruence.
    + apply is_path_snoc; [exact Hpath | apply Hadj; now left].
    + rewrite last_last. exact Eg.
Qed.

Lemma recurse_adjacent_paths (g : HcGraph) (visited : list nat) (goal : nat)
    (start_orientation goal_orientation : double)
    (recursion : list nat -> HomotopyClassPlanner -> option HomotopyClassPlanner) :
  (forall it q q',
      is_visited visited it = false -> In (last visited O, it) (edges g) -> graph_ q = g ->
      recursion (visited ++ [it]) q = Some q' ->
      paths_added g (visited ++ [it]) goal start_orientation goal_orientation q q') ->
  forall its q q',
    (forall it, In it its -> In (last visited O, it) (edges g)) ->
    graph_ q = g ->
    recurse_adjacent recursion its visited goal q = Some q' ->
    paths_added g visited goal start_orientation goal_orientation q q'.
Proof.
  intros Hrec. induction its as [|it rest IH]; intros q q' Hadj Hg Hrun; simpl in Hrun.
  - injection Hrun as <-. apply paths_added_refl.
  - assert (Hrest : forall it', In it' rest -> In (last visited O, it') (edges g))
      by (intros; apply Hadj; now right).
    destruct (is_visited visited it) eqn:Ev; cbn [orb] in Hrun; [now apply IH|].
    destruct (it =? goal)%nat; [now apply IH|].
    destruct (recursion (visited ++ [it]) q) as [q1|] eqn:E; [| discriminate].
    pose proof (Hrec it q q1 Ev (Hadj it (or_introl eq_refl)) Hg E) as H1.
    apply paths_added_shorter in H1.
    eapply paths_added_trans; [exact H1|].
    apply IH; [exact Hrest | destruct H1 as [-> _]; exact Hg | exact Hrun].
Qed.

Lemma DepthFirst_paths (g : HcGraph) (goal : nat)
    (start_orientation goal_orientation : double) (fuel : nat) :
  forall visited p p',
    NoDup visited -> is_path g visited -> graph_ p = g ->
    DepthFirst fuel g visited goal start_orientation goal_orientation p = Some p' ->
    paths_added g visited goal start_orientation goal_orientation p p'.
Proof.
  induction fuel as [|fuel IH]; intros visited p p' Hnd Hpath Hg Hrun;
    simpl in Hrun; [discriminate|].
  destruct (_ <=? _)%Z; [injection Hrun as <-; apply paths_added_refl|].
  set (its := adjacent_vertices (last visited O) g) in *.
  assert (Hadj : forall it, In it its -> In (last visited O, it) (edges g)).
  { intros it Hit. now apply adjacent_vertices_edge. }
  pose proof (examine_adjacent_paths g visited goal start_orientation goal_orientation
                Hnd Hpath its p Hg Hadj) as H1.
  eapply paths_added_trans; [exact H1|].
  eapply recurse_adjacent_paths; [| exact Hadj | destruct H1 as [-> _]; exact Hg | exact Hrun].
  intros it q q' Ev Hin Hgq Hq. apply IH; [| | exact Hgq | exact Hq].
  - apply NoDup_app; [exact Hnd | repeat constructor; auto |].
    intros x Hx [<- | []]. apply is_visited_In in Hx. congruence.
  - now apply is_path_snoc.
Qed.

End Paths.

(** X15.  Every candidate that a depth-first search creates is initialized
    along a walk of the graph that extends the path visited so far, visits no
    vertex twice, follows edges of the graph and ends at the goal vertex; its
    way points are the positions of the vertices of that walk.  The search
    leaves the graph and the candidates that were in the pool as they
    were. *)
Theorem DepthFirst_candidates_follow_simple_paths
    {W : World} (fuel : nat) (g : HcGraph) (visited : list nat) (goal : nat)
    (start_orientation goal_orientation : double) (p p' : HomotopyClassPlanner) :
  NoDup visited -> is_path g visited -> graph_ p = g ->
  DepthFirst fuel g visited goal start_orientation goal_orientation p = Some p' ->
  graph_ p' = g
  /\ exists new,
      tebs_ p' = tebs_ p ++ new
      /\ forall t, In t new ->
           exists tail,
             obj t = initTEBtoGoal (map (getVector2dFromHcGraph g) (visited ++ tail))
                       start_orientation goal_orientation
             /\ NoDup (visited ++ tail)
             /\ is_path g (visited ++ tail)
             /\ last (visited ++ tail) O = goal.
Proof.
  intros Hnd Hpath Hg Hrun.
  destruct (DepthFirst_paths g goal start_orientation goal_orientation fuel
              visited p p' Hnd Hpath Hg Hrun) as (G & new & A & F).
  split; [congruence|]. exists new. split; [exact A|].
  intros t Hin. rewrite Forall_forall in F. exact (F t Hin).
Qed.

Lemma DepthFirst_candidates_follow_simple_paths_witness :
  let p := set_graph example_graph (example_planner example_cfg [] []) in
  exists p',
    DepthFirst 4 example_graph [O] 3 0 0 p = Some p'
    /\ length (tebs_ p') = 2%nat
    /\ graph_ p' = example_graph
    /\ exists new,
        tebs_ p' = tebs_ p ++ new
        /\ forall t, In t new ->
             exists tail,
               obj t = initTEBtoGoal (map (getVector2dFromHcGraph example_graph) ([O] ++ tail))
                         0 0
               /\ NoDup ([O] ++ tail)
               /\ is_path example_graph ([O] ++ tail)
               /\ last ([O] ++ tail) O = 3%nat.
Proof.
  intros p. eexists. split; [vm_compute; reflexivity|].
  split; [reflexivity|].
  apply (DepthFirst_candidates_follow_simple_paths 4 example_graph [O] 3 0 0 p).
  - repeat constructor. simpl. tauto.
  - exact I.
  - reflexivity.
  - vm_compute. reflexivity.
Defined.

Section PathsOfKeypoints.

Context {W : World}.

Lemma is_path_targets (g : HcGraph) (path : list nat) :
  forall u, is_path g (u :: path) ->
            forall v, In v path -> exists u', In (u', v) (edges g).
Proof.
  induction path as [|w rest IH]; intros u Hp v Hin; [destruct Hin|].
  destruct Hp as [He Hp]. destruct Hin as [<- | Hin]; [now exists u|].
  exact (IH w Hp v Hin).
Qed.

End PathsOfKeypoints.

(** X16.  The candidates that [createGraph] adds join start and goal by way
    of keypoints: when the goal is beyond the tolerance, the pool that was
    there stays in front, and every new candidate is initialized with the
    start and goal orientations along way points that begin with the start
    position, end with the goal position and in between are keypoints of
    obstacles. *)
Theorem createGraph_candidates_join_start_and_goal
    {W : World} (fuel : nat) (start goal : PoseSE2) (dist_to_obst : double)
    (limit_obstacle_heading : bool) (p p' : HomotopyClassPlanner) :
  let diff := vsub (position goal) (position start) in
  let normal := vscale dist_to_obst (normalize (mkVector2d (- vy diff) (vx diff))) in
  createGraph fuel start goal dist_to_obst limit_obstacle_heading p = Some p' ->
  ltb (norm diff) (xy_goal_tolerance (cfg_ p)) = false ->
  exists new,
    tebs_ p' = tebs_ p ++ new
    /\ forall t, In t new ->
         exists via,
           obj t = initTEBtoGoal (position start :: via ++ [position goal])
                     (theta start) (theta goal)
           /\ incl via (keypoints start (normalize diff) normal (obstacles_ p)).
Proof.
  intros diff normal Hrun Hfar.
  pose proof (createGraph_spec fuel start goal dist_to_obst limit_obstacle_heading p) as Hs.
  cbv zeta in Hs. fold diff in Hs. rewrite Hfar in Hs. fold normal in Hs.
  destruct Hs as (g & Hv & Hclosed & Heq). rewrite Heq in Hrun.
  set (kps := keypoints start (normalize diff) normal (obstacles_ p)) in *.
  assert (Hn : (length (vertices g) - 1 = S (length kps))%nat).
  { rewrite Hv. cbn [length]. rewrite length_app. cbn [length]. lia. }
  rewrite Hn in Hrun.
  destruct (DepthFirst_paths g (S (length kps)) (theta start) (theta goal) fuel
              [O] (set_graph g p) p') as (_ & new & A & F);
    [repeat constructor; simpl; tauto | exact I | reflexivity | exact Hrun |].
  exists new. split; [exact A|]. intros t Hin. rewrite Forall_forall in F.
  destruct (F t Hin) as (tail & Ho & Hnd & Hp & Hl).
  destruct (exists_last (l := tail)) as (via & x & ->).
  { intros ->. simpl in Hl. discriminate. }
  rewrite app_assoc, last_last in Hl. subst x.
  exists (map (getVector2dFromHcGraph g) via). split.
  - rewrite Ho. cbn [app map]. rewrite map_app. cbn [map].
    unfold getVector2dFromHcGraph at 1 3. unfold pos. rewrite Hv. cbn [nth].
    rewrite app_nth2 by lia. now rewrite Nat.sub_diag.
  - intros w Hw. apply in_map_iff in Hw. destruct Hw as (v & <- & Hv').
    cbn [app] in Hnd, Hp.
    assert (Hlt : (v < length (vertices g))%nat).
    { destruct (is_path_targets g (via ++ [S (length kps)]) O Hp v) as (u' & He).
      - apply in_or_app. now left.
      - exact (Hclosed _ He). }
    assert (H0 : v <> O).
    { intros ->. apply NoDup_cons_iff in Hnd. apply (proj1 Hnd).
      apply in_or_app. now left. }
    assert (Hg : v <> S (length kps)).
    { intros ->. apply NoDup_cons_iff in Hnd. destruct Hnd as [_ Hnd].
      apply NoDup_remove_2 in Hnd. rewrite app_nil_r in Hnd. contradiction. }
    unfold getVector2dFromHcGraph, pos. rewrite Hv.
    destruct v as [|v]; [congruence|]. cbn [nth].
    assert (Hv2 : (v < length kps)%nat).
    { rewrite Hv in Hlt. cbn [length] in Hlt. rewrite length_app in Hlt.
      cbn [length] in Hlt. lia. }
    rewrite app_nth1 by exact Hv2. now apply nth_In.
Qed.

Lemma createGraph_candidates_join_start_and_goal_witness :
  let start := mkPoseSE2 (mkVector2d 0 0) 0 in
  let goal := mkPoseSE2 (mkVector2d 10 0) 0 in
  let p := example_planner example_cfg [example_obstacle (mkVector2d 5 0) 2] [] in
  let diff := vsub (position goal) (position start) in
  let normal := vscale 1 (normalize (mkVector2d (- vy diff) (vx diff))) in
  exists p',
    createGraph 4 start goal 1 true p = Some p'
    /\ length (tebs_ p') = 2%nat
    /\ exists new,
        tebs_ p' = tebs_ p ++ new
        /\ forall t, In t new ->
             exists via,
               obj t = initTEBtoGoal (position start :: via ++ [position goal])
                         (theta start) (theta goal)
               /\ incl via (keypoints start (normalize diff) normal (obstacles_ p)).
Proof.
  intros start goal p diff normal. eexists. split; [vm_compute; reflexivity|].
  split; [reflexivity|].
  apply (createGraph_candidates_join_start_and_goal 4 start goal 1 true p);
    vm_compute; reflexivity.
Defined.

(** ** Detours and the best candidate *)

Section DetoursAgain.

Context {W : World}.

Lemma analyze_loop_detours (cfg : TebConfig) (obstacles : list Obstacle)
    (rest : list TebOptimalPlannerPtr) :
  forall kept teb_candidates,
    (forall t, In t kept ->
               detectDetoursBackwards (obj t) (cos (obstacle_heading_threshold cfg)) = false)
    \/ ((length kept <= 1)%nat /\ rest = []) ->
    let r := fst (analyze_loop true cfg obstacles kept teb_candidates rest) in
    (forall t, In t r ->
               detectDetoursBackwards (obj t) (cos (obstacle_heading_threshold cfg)) = false)
    \/ (length r <= 1)%nat.
Proof.
  induction rest as [|it rest' IH]; intros kept cands Hk; cbn [analyze_loop].
  - cbn [fst]. destruct Hk as [Hk | [Hk _]]; [now left | now right].
  - destruct Hk as [Hk | [_ Hk]]; [| discriminate].
    cbn [andb].
    destruct (detectDetoursBackwards (obj it) (cos (obstacle_heading_threshold cfg))) eqn:Ed.
    + destruct (1 <? length kept + length (it :: rest'))%nat eqn:El; cbn [andb].
      * apply IH. now left.
      * destruct (too_close obstacles (obj it)); [apply IH; now left|].
        apply IH. right. apply Nat.ltb_ge in El. cbn [length] in El.
        destruct kept; [| cbn [length] in El; lia].
        destruct rest'; [| cbn [length] in El; lia].
        split; [simpl; lia | reflexivity].
    + rewrite andb_false_r.
      destruct (too_close obstacles (obj it)); [apply IH; now left|].
      apply IH. left. intros t Hin. apply in_app_or in Hin.
      destruct Hin as [Hin | [<- | []]]; [now apply Hk | exact Ed].
Qed.

End DetoursAgain.

(** X17.  With [delete_detours] set, [renewAndAnalyzeOldTebs] leaves a
    candidate that tests as a backwards detour (at the cosine of the heading
    threshold) only as the sole candidate of the pool. *)
Theorem renewAndAnalyzeOldTebs_detour_only_alone
    {W : World} (p : HomotopyClassPlanner) (t : TebOptimalPlannerPtr) :
  In t (tebs_ (renewAndAnalyzeOldTebs true p)) ->
  detectDetoursBackwards (obj t) (cos (obstacle_heading_threshold (cfg_ p))) = true ->
  tebs_ (renewAndAnalyzeOldTebs true p) = [t].
Proof.
  intros Hin Hdet.
  assert (Hone : (length (tebs_ (renewAndAnalyzeOldTebs true p)) <= 1)%nat).
  { unfold renewAndAnalyzeOldTebs in *.
    cbn [set_h_signatures cfg_ obstacles_ tebs_] in *.
    pose proof (analyze_loop_detours (cfg_ p) (obstacles_ p) (tebs_ p) [] []) as Ha.
    destruct (analyze_loop true (cfg_ p) (obstacles_ p) [] [] (tebs_ p))
      as [tebs1 cands] eqn:Ea.
    cbn [fst] in Ha.
    assert (Hsub : forall tebs2 cands2,
               (forall x, In x tebs2 -> In x tebs1) ->
               (length tebs2 <= length tebs1)%nat ->
               In t (tebs_ (register_loop cands2
                              (set_tebs tebs2 (set_h_signatures [] p)))) ->
               (length (tebs_ (register_loop cands2
                                 (set_tebs tebs2 (set_h_signatures [] p)))) <= 1)%nat).
    { intros tebs2 cands2 Hincl Hlen Ht.
      destruct (register_loop_frame cands2 (set_tebs tebs2 (set_h_signatures [] p)))
        as (_ & _ & _ & Hi & Hl & _).
      cbn [set_tebs tebs_] in Hi, Hl.
      destruct Ha as [Ha | Ha]; [left; intros x []|  | lia].
      specialize (Ha t (Hincl t (Hi t Ht))). congruence. }
    destruct (dedup_loop (2 * length cands + 1) 0 tebs1 cands) as [[tebs2 cands2]|] eqn:Ed.
    - apply Hsub; [| | exact Hin].
      + intros x. eapply dedup_loop_incl. exact Ed.
      + eapply dedup_loop_length. exact Ed.
    - apply Hsub; [auto | lia | exact Hin]. }
  destruct (tebs_ (renewAndAnalyzeOldTebs true p)) as [|a [|b l]].
  - destruct Hin.
  - destruct Hin as [-> | []]. reflexivity.
  - simpl in Hone. lia.
Qed.

Lemma renewAndAnalyzeOldTebs_detour_only_alone_witness :
  let t := example_teb 0 [(0, 0); (5, 9); (10, 0)] 3 true in
  let p := example_planner example_cfg [] [t] in
  tebs_ (renewAndAnalyzeOldTebs true p) = [t].
Proof.
  intros t p.
  apply (renewAndAnalyzeOldTebs_detour_only_alone p t); vm_compute; auto.
Defined.

(** X18.  [plan] selects the best candidate before it deletes the detours:
    after a cycle the best candidate is a candidate of the pool unless it
    tests as a backwards detour at threshold 0. *)
Theorem plan_best_teb_in_pool_unless_detour
    {W : World} (fuel : nat) (start goal : PoseSE2) (start_vel : Vector2d)
    (free_goal_vel : bool) (p p' : HomotopyClassPlanner) (r : bool)
    (best : TebOptimalPlannerPtr) :
  plan fuel start goal start_vel free_goal_vel p = Returned (r, p') ->
  best_teb_ p' = Some best ->
  In best (tebs_ p') \/ detectDetoursBackwards (obj best) 0 = true.
Proof.
  intros Hrun Hbest. rewrite plan_unfold in Hrun.
  destruct (negb (initialized_ p)); [discriminate|].
  destruct (exploreHomotopyClassesAndInitTebs _ _ _ _ _ _) as [q|]; [| discriminate].
  injection Hrun as _ <-.
  unfold finish_cycle, deleteTebDetours, selectBestTeb in *.
  set (q1 := optimizeAllTEBs _ _ q) in *.
  cbn [snd set_tebs set_best_teb best_teb_ tebs_] in *.
  destruct (detectDetoursBackwards (obj best) 0) eqn:Ed; [now right | left].
  apply deleteTebDetours_loop_no_detour; [| exact Ed].
  destruct (selectBestTeb_loop_spec (tebs_ q1) DBL_MAX None)
    as [[_ Hnone] | (i & t & Hsel & Hnth & _)].
  - congruence.
  - rewrite Hsel in Hbest. injection Hbest as <-. eapply nth_error_In. exact Hnth.
Qed.

Lemma plan_best_teb_in_pool_unless_detour_witness :
  let start := mkPoseSE2 (mkVector2d 0 0) 0 in
  let goal := mkPoseSE2 (mkVector2d 10 0) 0 in
  let p := example_planner example_cfg [] [] in
  exists p' best,
    plan 1 start goal Vector2d_Zero false p = Returned (true, p')
    /\ best_teb_ p' = Some best
    /\ (In best (tebs_ p') \/ detectDetoursBackwards (obj best) 0 = true).
Proof.
  intros start goal p. eexists. eexists.
  split; [vm_compute; reflexivity|]. split; [vm_compute; reflexivity|].
  apply (plan_best_teb_in_pool_unless_detour 1 start goal Vector2d_Zero false p _ true);
    vm_compute; reflexivity.
Defined.

(** X19.  A best candidate whose trajectory has no pose: whatever the
    look-ahead index, it is replaced by -1, which the unsigned loop counter
    does not exceed; the costmap is not asked, no value is returned, and
    [Pose(0)] is asked for beyond the end of the trajectory. *)
Theorem isTrajectoryFeasible_empty_trajectory
    (costmap_model : CostmapModel) (footprint_spec : list Vector2d)
    (inscribed_radius circumscribed_radius : double) (look_ahead_idx : Z)
    (p : HomotopyClassPlanner) (best : TebOptimalPlannerPtr) :
  best_teb_ p = Some best ->
  poses (obj best) = [] ->
  isTrajectoryFeasible costmap_model footprint_spec inscribed_radius circumscribed_radius
    look_ahead_idx p = ([], None).
Proof.
  intros Hbest Hposes. unfold isTrajectoryFeasible, sizePoses. rewrite Hbest, Hposes.
  cbn [length Z.of_nat]. change (to_int 0) with 0%Z.
  assert (Hc : ((look_ahead_idx <? 0) || (0 <=? look_ahead_idx))%Z = true).
  { destruct (look_ahead_idx <? 0)%Z eqn:E; [reflexivity|].
    apply Z.ltb_ge in E. apply Z.leb_le in E. now rewrite E. }
  rewrite Hc. reflexivity.
Qed.

Lemma isTrajectoryFeasible_empty_trajectory_witness :
  let best := example_teb 0 [] 1 false in
  let p := set_best_teb (Some best) (example_planner example_cfg [] [best]) in
  isTrajectoryFeasible (fun x _ _ _ _ _ => 7 - x) [] 0 0 (-5) p = ([], None).
Proof.
  intros best p.
  apply (isTrajectoryFeasible_empty_trajectory (fun x _ _ _ _ _ => 7 - x) [] 0 0 (-5) p best);
    reflexivity.
Defined.

(** ** The registry after the re-analysis pass *)

Section RegistryAgain.

Context {W : World}.

Lemma erase_nth (tebs : list TebOptimalPlannerPtr) :
  forall j t, NoDup (map addr tebs) -> nth_error tebs j = Some t ->
              erase t tebs = erase_at j tebs.
Proof.
  induction tebs as [|x rest IH]; intros j t Hnd Hj; [now destruct j|].
  cbn [map] in Hnd. apply NoDup_cons_iff in Hnd. destruct Hnd as [Hx Hnd].
  destruct j as [|j]; cbn [nth_error] in Hj; cbn [erase erase_at].
  - injection Hj as <-. now rewrite Nat.eqb_refl.
  - destruct (addr x =? addr t)%nat eqn:E.
    + apply Nat.eqb_eq in E. exfalso. apply Hx. rewrite E.
      apply in_map. eapply nth_error_In. exact Hj.
    + f_equal. now apply IH.
Qed.

Lemma erase_middle (kept rest : list TebOptimalPlannerPtr) (t : TebOptimalPlannerPtr) :
  NoDup (map addr (kept ++ t :: rest)) -> erase t (kept ++ t :: rest) = kept ++ rest.
Proof.
  induction kept as [|x kept IH]; intros Hnd; cbn [app erase].
  - now rewrite Nat.eqb_refl.
  - cbn [app map] in Hnd. apply NoDup_cons_iff in Hnd. destruct Hnd as [Hx Hnd].
    destruct (addr x =? addr t)%nat eqn:E.
    + apply Nat.eqb_eq in E. exfalso. apply Hx. rewrite E.
      apply in_map. apply in_or_app. right. now left.
    + f_equal. now apply IH.
Qed.

Lemma erase_at_NoDup {A : Type} (v : list A) :
  forall k, NoDup v -> NoDup (erase_at k v).
Proof.
  induction v as [|x rest IH]; intros k Hnd; [now destruct k|].
  apply NoDup_cons_iff in Hnd. destruct Hnd as [Hx Hnd].
  destruct k as [|k]; cbn [erase_at]; [exact Hnd|].
  apply NoDup_cons; [| now apply IH].
  intros Hin. apply Hx. clear -Hin. revert k Hin.
  induction rest as [|y rest IH]; intros k Hin; [now destruct k|].
  destruct k as [|k]; cbn [erase_at] in Hin; [now right|].
  destruct Hin as [-> | Hin]; [now left | right; eapply IH; exact Hin].
Qed.

Lemma erase_at_Forall {A : Type} (P : A -> Prop) (v : list A) :
  forall k, Forall P v -> Forall P (erase_at k v).
Proof.
  induction v as [|x rest IH]; intros k Hall; [now destruct k|].
  inversion Hall; subst. destruct k as [|k]; cbn [erase_at]; [assumption|].
  constructor; [assumption | now apply IH].
Qed.

Lemma candidates_of_erase (cfg : TebConfig) (obstacles : list Obstacle)
    (tebs : list TebOptimalPlannerPtr) (teb_candidates : TebCandidateType)
    (k : nat) (c : TebOptimalPlannerPtr * cplx) :
  candidates_of cfg obstacles tebs teb_candidates ->
  nth_error teb_candidates k = Some c ->
  candidates_of cfg obstacles (erase (fst c) tebs) (erase_at k teb_candidates).
Proof.
  intros (Ht & Hs & Hnd) Hk.
  assert (He : erase (fst c) tebs = erase_at k tebs).
  { apply erase_nth; [exact Hnd|]. rewrite Ht. now apply map_nth_error. }
  rewrite He. repeat split.
  - rewrite Ht. apply erase_at_map.
  - now apply erase_at_Forall.
  - rewrite <- erase_at_map. now apply erase_at_NoDup.
Qed.

Lemma analyze_loop_candidates (delete_detours : bool) (cfg : TebConfig)
    (obstacles : list Obstacle) (rest : list TebOptimalPlannerPtr) :
  forall kept teb_candidates,
    kept = map fst teb_candidates ->
    Forall (fun c => snd c = candidate_signature cfg obstacles (fst c)) teb_candidates ->
    NoDup (map addr (kept ++ rest)) ->
    candidates_of cfg obstacles
      (fst (analyze_loop delete_detours cfg obstacles kept teb_candidates rest))
      (snd (analyze_loop delete_detours cfg obstacles kept teb_candidates rest)).
Proof.
  induction rest as [|it rest' IH]; intros kept cands Hk Hs Hnd; cbn [analyze_loop].
  - rewrite app_nil_r in Hnd. now repeat split.
  - assert (Hskip : NoDup (map addr (kept ++ rest'))).
    { rewrite map_app in *. cbn [map] in Hnd. eapply NoDup_remove_1. exact Hnd. }
    destruct (_ && _ && _); [now apply IH|].
    destruct (too_close obstacles (obj it)); [now apply IH|].
    apply IH.
    + rewrite map_app. cbn [map fst]. now rewrite Hk.
    + apply Forall_app. split; [exact Hs | constructor; [reflexivity | constructor]].
    + now rewrite <- app_assoc.
Qed.

Lemma dedup_loop_candidates (cfg : TebConfig) (obstacles : list Obstacle) (fuel : nat) :
  forall cand_i tebs teb_candidates tebs' teb_candidates',
    candidates_of cfg obstacles tebs teb_candidates ->
    dedup_loop fuel cand_i tebs teb_candidates = Some (tebs', teb_candidates') ->
    candidates_of cfg obstacles tebs' teb_candidates'.
Proof.
  induction fuel as [|fuel IH]; intros i tebs cands tebs' cands' HJ Hrun;
    simpl in Hrun; [discriminate|].
  destruct (nth_error cands i) as [ci|] eqn:Ei; [| injection Hrun as <- <-; assumption].
  destruct (find_if _ cands) as [j|]; [| eapply IH; eassumption].
  destruct (j =? i)%nat; [eapply IH; eassumption|].
  destruct (nth_error cands j) as [cj|] eqn:Ej; [| eapply IH; eassumption].
  destruct (ltb _ _); (eapply IH; [| exact Hrun]); now apply candidates_of_erase.
Qed.

Lemma register_loop_candidates (f : TebOptimalPlannerPtr -> cplx)
    (teb_candidates : TebCandidateType) :
  forall kept p,
    tebs_ p = kept ++ map fst teb_candidates ->
    h_signatures_ p = map f kept ->
    Forall (fun c => snd c = f (fst c)) teb_candidates ->
    NoDup (map addr (tebs_ p)) ->
    h_signatures_ (register_loop teb_candidates p)
    = map f (tebs_ (register_loop teb_candidates p)).
Proof.
  induction teb_candidates as [|c rest IH]; intros kept p Ht Hh Hs Hnd; cbn [register_loop].
  - cbn [map] in Ht. rewrite app_nil_r in Ht. now rewrite Ht, Hh.
  - inversion Hs as [|c' rest' Hc Hrest]; subst c' rest'.
    cbn [map] in Ht. unfold addNewHSignatureIfNew.
    destruct (known _ _ _).
    + apply (IH kept); cbn [set_tebs tebs_ h_signatures_]; try assumption.
      * rewrite Ht. apply erase_middle. now rewrite <- Ht.
      * rewrite Ht in *. rewrite erase_middle by exact Hnd.
        rewrite map_app in *. cbn [map] in Hnd. eapply NoDup_remove_1. exact Hnd.
    + apply (IH (kept ++ [fst c])); cbn [set_h_signatures tebs_ h_signatures_]; try assumption.
      * now rewrite Ht, <- app_assoc.
      * rewrite map_app, Hh, Hc. reflexivity.
Qed.

Lemma renewAndAnalyzeOldTebs_signatures (delete_detours : bool) (p : HomotopyClassPlanner) :
  NoDup (map addr (tebs_ p)) ->
  h_signatures_ (renewAndAnalyzeOldTebs delete_detours p)
  = map (candidate_signature (cfg_ p) (obstacles_ p))
        (tebs_ (renewAndAnalyzeOldTebs delete_detours p)).
Proof.
  intros Hnd. unfold renewAndAnalyzeOldTebs.
  cbn [set_h_signatures cfg_ obstacles_ tebs_].
  pose proof (analyze_loop_candidates delete_detours (cfg_ p) (obstacles_ p) (tebs_ p)
                [] [] eq_refl (Forall_nil _) Hnd) as Ha.
  destruct (analyze_loop delete_detours (cfg_ p) (obstacles_ p) [] [] (tebs_ p))
    as [tebs1 cands]. cbn [fst snd] in Ha.
  assert (Hreg : forall tebs2 cands2,
             candidates_of (cfg_ p) (obstacles_ p) tebs2 cands2 ->
             h_signatures_ (register_loop cands2 (set_tebs tebs2 (set_h_signatures [] p)))
             = map (candidate_signature (cfg_ p) (obstacles_ p))
                 (tebs_ (register_loop cands2 (set_tebs tebs2 (set_h_signatures [] p))))).
  { intros tebs2 cands2 (Ht & Hs & Hn).
    apply (register_loop_candidates _ cands2 []); cbn [set_tebs set_h_signatures tebs_
                                                       h_signatures_ app map]; auto. }
  destruct (dedup_loop (2 * length cands + 1) 0 tebs1 cands) as [[tebs2 cands2]|] eqn:Ed.
  - apply Hreg. eapply dedup_loop_candidates; eassumption.
  - now apply Hreg.
Qed.

End RegistryAgain.

Section DistinctClasses.

Context {W : World}.








End DistinctClasses.



Section RegistryAfterExploration.

Context {W : World}.

Lemma DepthFirst_appended (fuel : nat) (g : HcGraph) (visited : list nat) (goal : nat)
    (start_orientation goal_orientation : double) (p p' : HomotopyClassPlanner) :
  DepthFirst fuel g visited goal start_orientation goal_orientation p = Some p' ->
  appended p p'.
Proof.
  apply (DepthFirst_rel appended g goal start_orientation goal_orientation
           appended_refl appended_trans).
  intros its vis q. apply examine_adjacent_appended.
Qed.

Lemma appended_same_length (p q : HomotopyClassPlanner) :
  appended p q ->
  length (h_signatures_ p) = length (tebs_ p) ->
  length (h_signatures_ q) = length (tebs_ q).
Proof.
  intros (new & sigs & -> & -> & Hl & _) Hp. rewrite !length_app. lia.
Qed.

End RegistryAfterExploration.

(** X21.  After [exploreHomotopyClassesAndInitTebs], with either builder,
    the registry holds exactly one signature for each candidate of the
    pool, provided that no two entries of the pool point to the same
    optimizer when the pass begins. *)
Theorem exploreHomotopyClassesAndInitTebs_one_signature_per_candidate
    {W : World} (fuel : nat) (start goal : PoseSE2) (dist_to_obst hp_threshold : double)
    (p p' : HomotopyClassPlanner) :
  NoDup (map addr (tebs_ p)) ->
  exploreHomotopyClassesAndInitTebs fuel start goal dist_to_obst hp_threshold p = Some p' ->
  length (h_signatures_ p') = length (tebs_ p').
Proof.
  intros Hnd Hrun. unfold exploreHomotopyClassesAndInitTebs in Hrun.
  pose proof (renewAndAnalyzeOldTebs_signatures false p Hnd) as Hq.
  apply (f_equal (@length _)) in Hq. rewrite length_map in Hq.
  set (q := renewAndAnalyzeOldTebs false p) in *.
  destruct (simple_exploration (cfg_ q)).
  - pose proof (createGraph_spec fuel start goal dist_to_obst
                  (neqb (obstacle_heading_threshold (cfg_ q)) 0) q) as Hs.
    cbv zeta in Hs. destruct (ltb _ _).
    + rewrite Hs in Hrun. injection Hrun as <-. exact Hq.
    + destruct Hs as (g & _ & _ & Heq). rewrite Heq in Hrun.
      apply DepthFirst_appended in Hrun.
      exact (appended_same_length _ _ Hrun Hq).
  - pose proof (createProbRoadmapGraph_spec fuel start goal dist_to_obst
                  (neqb (obstacle_heading_threshold (cfg_ q)) 0) q) as Hs.
    cbv zeta in Hs. destruct (ltb _ _).
    + rewrite Hs in Hrun. injection Hrun as <-. exact Hq.
    + destruct (sample_vertices _ _ _ _ _ _ _ _ _ _) as [[g1 rnd]|].
      * destruct Hs as (g & _ & _ & Heq). rewrite Heq in Hrun.
        apply DepthFirst_appended in Hrun.
        exact (appended_same_length _ _ Hrun Hq).
      * congruence.
Qed.

Lemma exploreHomotopyClassesAndInitTebs_one_signature_per_candidate_witness :
  let start := mkPoseSE2 (mkVector2d 0 0) 0 in
  let goal := mkPoseSE2 (mkVector2d 10 0) 0 in
  let a := example_teb 0 [(0, 0); (5, 9); (10, 0)] 3 false in
  let p := example_planner example_cfg [example_obstacle (mkVector2d 5 0) 2] [a] in
  exists p',
    exploreHomotopyClassesAndInitTebs 4 start goal 1 (1 # 10) p = Some p'
    /\ length (tebs_ p') = 2%nat
    /\ length (h_signatures_ p') = length (tebs_ p').
Proof.
  intros start goal a p. eexists. split; [vm_compute; reflexivity|].
  split; [reflexivity|].
  apply (exploreHomotopyClassesAndInitTebs_one_signature_per_candidate
           4 start goal 1 (1 # 10) p).
  - vm_compute. repeat constructor; simpl; intuition discriminate.
  - vm_compute. reflexivity.
Defined.
